(** * A shallow embedding of the traefik quota plugin

    The development follows the Go sources file by file:
    - the configuration file: the records, [Validate], [ParseRateLimitPeriod];
    - [redis_client.go]  the command-level behaviour of [SimpleRedisClient] and the key helpers;
    - [rate_limiter.go]  the token bucket ([getBucket], [refillBucket], [Allow], ...);
    - [quota_manager.go] the fixed-window counter ([CheckQuota], [ConsumeQuota], ...);
    - [quota.go]         the middleware ([New], [extractIdentifier], [checkIdentifier], [ServeHTTP]).

    Modelling choices.
    - [float64] is Rocq's primitive binary64 float: [bucket.Tokens] is computed with the
      very IEEE-754 operations the Go program executes.
    - Go's [int], [int64] and [time.Duration] are [Z]; wrap-around is written out where the
      program multiplies or subtracts; [time.Time] is a number of nanoseconds since the epoch.
    - Effects (the store, the clock, the response writer) are threaded through a state monad
      over a [World]; every command sent to the store and every action on the response is
      appended to a chronological event log.
    - The response writer is that of [net/http]: the first status written stands, and
      [WriteHeader] panics on a code outside 100..999; a panic ends the request there.
    - The ranging over the Go map [q.managers] takes the visiting order as an argument: the
      language leaves it unspecified.
    - Functions of the Go runtime that the plugin merely calls (duration and float parsing,
      float printing, the local calendar) are the fields of a class [GoRuntime]. *)

From Stdlib Require Import ZArith List String Ascii Bool Lia Floats Uint63 Permutation.
From Stdlib Require Import DecimalString DecimalZ.
From stdpp Require Import gmap strings.

Local Open Scope string_scope.
Local Open Scope Z_scope.

(** ** Go strings and integers *)

Module GoStr.

Definition minInt64 : Z := - 2 ^ 63.
Definition maxInt64 : Z := 2 ^ 63 - 1.

Definition in_int64 (z : Z) : bool := (minInt64 <=? z) && (z <=? maxInt64).

  (** Two's complement wrap-around of a 64-bit signed result. *)
Definition wrap64 (z : Z) : Z := (z + 2 ^ 63) mod 2 ^ 64 - 2 ^ 63.

  (** [strconv.FormatInt(z, 10)] and [strconv.Itoa]. *)
Definition FormatInt (z : Z) : string := NilZero.string_of_int (Z.to_int z).

  (** [strconv.ParseInt(s, 10, 64)]: an optional sign, at least one decimal digit,
      nothing else, and the value within the int64 range; [None] stands for the error. *)
Definition ParseInt (s : string) : option Z :=
    match s with
    | EmptyString => None
    | String c rest =>
        let '(neg, digits) :=
          if Ascii.eqb c "-" then (true, rest)
          else if Ascii.eqb c "+" then (false, rest)
          else (false, s) in
        match digits with
        | EmptyString => None
        | _ =>
            match NilEmpty.uint_of_string digits with
            | Some d =>
                let v := Z.of_uint d in
                let z := if neg then - v else v in
                if in_int64 z then Some z else None
            | None => None
            end
        end
    end.

  (** [strings.HasPrefix]. *)
Definition HasPrefix (s p : string) : bool := String.prefix p s.

  (** [strings.Contains(s, sub)] for a one-byte [sub]. *)
Fixpoint ContainsByte (s : string) (c : ascii) : bool :=
    match s with
    | EmptyString => false
    | String a r => Ascii.eqb a c || ContainsByte r c
    end.

  (** [strings.Split(s, ",")[0]]: the bytes before the first comma. *)
Fixpoint first_field (s : string) : string :=
    match s with
    | EmptyString => EmptyString
    | String a r => if Ascii.eqb a "," then EmptyString else String a (first_field r)
    end.

  (** The white space of [unicode.IsSpace], which [strings.TrimSpace] removes, in its
      UTF-8 encoding.  One byte: tab, line feed, vertical tab, form feed, carriage return,
      space. *)
Definition is_space (a : ascii) : bool :=
    let n := nat_of_ascii a in
    (Nat.eqb n 9 || Nat.eqb n 10 || Nat.eqb n 11 || Nat.eqb n 12 || Nat.eqb n 13 || Nat.eqb n 32)%bool.

  (** Two bytes: U+0085 (C2 85) and U+00A0 (C2 A0). *)
Definition is_space2 (a b : ascii) : bool :=
    let '(x, y) := (nat_of_ascii a, nat_of_ascii b) in
    (Nat.eqb x 194 && (Nat.eqb y 133 || Nat.eqb y 160))%bool.

  (** Three bytes: U+1680 (E1 9A 80), U+2000 to U+200A (E2 80 80 to E2 80 8A), U+2028,
      U+2029 and U+202F (E2 80 A8, A9, AF), U+205F (E2 81 9F), U+3000 (E3 80 80). *)
Definition is_space3 (a b c : ascii) : bool :=
    let '(x, y, z) := (nat_of_ascii a, nat_of_ascii b, nat_of_ascii c) in
    ((Nat.eqb x 225 && Nat.eqb y 154 && Nat.eqb z 128)
     || (Nat.eqb x 226 && Nat.eqb y 128
         && ((Nat.leb 128 z && Nat.leb z 138) || Nat.eqb z 168 || Nat.eqb z 169 || Nat.eqb z 175))
     || (Nat.eqb x 226 && Nat.eqb y 129 && Nat.eqb z 159)
     || (Nat.eqb x 227 && Nat.eqb y 128 && Nat.eqb z 128))%bool.

  (** The leading white space is removed rune by rune; a byte sequence that is no
      white-space rune (an invalid encoding decodes to U+FFFD) stops the trimming. *)
Fixpoint trim_left (s : string) : string :=
    match s with
    | EmptyString => EmptyString
    | String a r =>
        if is_space a then trim_left r
        else
          match r with
          | EmptyString => s
          | String b r1 =>
              if is_space2 a b then trim_left r1
              else
                match r1 with
                | EmptyString => s
                | String c r2 => if is_space3 a b c then trim_left r2 else s
                end
          end
    end.

  (** The same on the reversed bytes: a trailing rune is found from its last byte back
      to its first. *)
Fixpoint trim_left_rev (s : list ascii) : list ascii :=
    match s with
    | [] => []
    | a :: r =>
        if is_space a then trim_left_rev r
        else
          match r with
          | [] => s
          | b :: r1 =>
              if is_space2 b a then trim_left_rev r1
              else
                match r1 with
                | [] => s
                | c :: r2 => if is_space3 c b a then trim_left_rev r2 else s
                end
          end
    end.

Definition trim_right (s : string) : string :=
    string_of_list_ascii (List.rev (trim_left_rev (List.rev (list_ascii_of_string s)))).

Definition TrimSpace (s : string) : string := trim_right (trim_left s).

  (** [ip[:strings.LastIndex(ip, ":")]] when a colon occurs, [None] otherwise. *)
Fixpoint before_last_colon (s : string) : option string :=
    match s with
    | EmptyString => None
    | String a r =>
        match before_last_colon r with
        | Some p => Some (String a p)
        | None => if Ascii.eqb a ":" then Some EmptyString else None
        end
    end.

  (** Bytes allowed in a header field name (RFC 7230 token). *)
Definition is_token_byte (a : ascii) : bool :=
    let n := nat_of_ascii a in
    ((Nat.leb 48 n && Nat.leb n 57) || (Nat.leb 65 n && Nat.leb n 90)
     || (Nat.leb 97 n && Nat.leb n 122)
     || Nat.eqb n 33 || Nat.eqb n 35 || Nat.eqb n 36 || Nat.eqb n 37 || Nat.eqb n 38
     || Nat.eqb n 39 || Nat.eqb n 42 || Nat.eqb n 43 || Nat.eqb n 45 || Nat.eqb n 46
     || Nat.eqb n 94 || Nat.eqb n 95 || Nat.eqb n 96 || Nat.eqb n 124 || Nat.eqb n 126)%bool.

Fixpoint all_token (s : string) : bool :=
    match s with
    | EmptyString => true
    | String a r => is_token_byte a && all_token r
    end.

Fixpoint canon_from (upper : bool) (s : string) : string :=
    match s with
    | EmptyString => EmptyString
    | String a r =>
        let n := nat_of_ascii a in
        let a' :=
          if (upper && Nat.leb 97 n && Nat.leb n 122)%bool then ascii_of_nat (n - 32)
          else if (negb upper && Nat.leb 65 n && Nat.leb n 90)%bool then ascii_of_nat (n + 32)
          else a in
        String a' (canon_from (Ascii.eqb a' "-") r)
    end.

  (** [textproto.CanonicalMIMEHeaderKey]: a name with a byte outside the token set is
      returned as it is. *)
Definition CanonicalMIMEHeaderKey (s : string) : string :=
    if all_token s then canon_from true s else s.

  (** Left padding with zeros, as the [%02d] verb and the reference layouts do. *)
Fixpoint zeros (n : nat) : string :=
    match n with O => EmptyString | S k => String "0" (zeros k) end.

Definition pad (width : nat) (z : Z) : string :=
    let s := FormatInt (Z.abs z) in
    let body := zeros (width - String.length s) ++ s in
    if z <? 0 then String "-" body else body.

End GoStr.

(** ** float64 *)

Module F64.

  Local Open Scope float_scope.

  (** The conversion [float64(n)] of a Go integer: round to nearest even. *)
Definition float64_of_int (z : Z) : float :=
    if (z =? GoStr.minInt64)%Z then (-0x1p63)
    else if (z <? 0)%Z then - of_uint63 (Uint63.of_Z (- z))
    else of_uint63 (Uint63.of_Z z).

  (** The conversion [int(f)] and [int64(f)]: truncation toward zero.  Go leaves the
      result for a value outside the range to the implementation; the amd64
      instruction yields the least int64, and so does this definition. *)
Definition int_of_float64 (f : float) : Z :=
    match Prim2SF f with
    | S754_zero _ => 0%Z
    | S754_finite s m e =>
        let v := (if 0 <=? e then Zpos m * 2 ^ e else Zpos m / 2 ^ (- e))%Z in
        let z := (if s then - v else v)%Z in
        if GoStr.in_int64 z then z else GoStr.minInt64
    | _ => GoStr.minInt64
    end.

Definition MaxFloat64 : float := 0x1.fffffffffffffp1023.

  (** [math.IsInf], [math.IsNaN], [math.Signbit]. *)
Definition IsInf (f : float) (sign : Z) : bool :=
    ((0 <=? sign)%Z && (MaxFloat64 <? f)) || ((sign <=? 0)%Z && (f <? - MaxFloat64)).

Definition IsNaN (f : float) : bool := negb (f =? f).

Definition Signbit (f : float) : bool := get_sign f.

  (** [math.Min], with its special cases in the order of the library. *)
Definition Min (x y : float) : float :=
    if IsInf x (-1) || IsInf y (-1) then neg_infinity
    else if IsNaN x || IsNaN y then nan
    else if (x =? 0) && (x =? y) then (if Signbit x then x else y)
    else if x <? y then x else y.

End F64.

(** ** time.Duration and time.Time *)

Module GoTime.

Definition Nanosecond : Z := 1.
Definition Second : Z := 1000000000.
Definition Minute : Z := 60 * Second.
Definition Hour : Z := 60 * Minute.

  (** [Duration.Seconds]: [sec := d / Second; nsec := d % Second;
      return float64(sec) + float64(nsec)/1e9], with Go's truncated division. *)
Definition Seconds (d : Z) : float :=
    (F64.float64_of_int (Z.quot d Second) + F64.float64_of_int (Z.rem d Second) / 1e9)%float.

  (** [t.Sub(u)]: the difference, saturated to the range of a [Duration]. *)
Definition Sub (t u : Z) : Z :=
    let d := t - u in
    if d <? GoStr.minInt64 then GoStr.minInt64
    else if GoStr.maxInt64 <? d then GoStr.maxInt64
    else d.

  (** [t.Add(d)]. *)
Definition Add (t d : Z) : Z := t + d.

  (** [t.Unix()]: seconds since the epoch, rounded down. *)
Definition Unix (t : Z) : Z := t / Second.

  (** The zero value [time.Time{}]: January 1 of the year 1, 00:00 UTC. *)
Definition Zero : Z := -62135596800 * Second.

End GoTime.

(** ** The Go runtime the plugin calls into

    [ParseDuration] is [time.ParseDuration], with [DurationError] the text of the error
    it returns for a string it rejects; [ParseFloat] is [strconv.ParseFloat(s, 64)]
    and [FormatFloat] is what [fmt.Sprintf("%v", f)] prints for a float64; [None] stands
    for a returned error.  The remaining fields are the calendar of the server's local
    time zone: the civil date of an instant, its weekday (Sunday = 0), its ISO week, and
    [time.Date(y, m, d, 0, 0, 0, 0, loc)], which normalises overflowing months and days. *)
Class GoRuntime := {
  ParseDuration : string -> option Z;
  DurationError : string -> string;
  ParseFloat : string -> option float;
  FormatFloat : float -> string;
  Year : Z -> Z;
  Month : Z -> Z;
  Day : Z -> Z;
  Weekday : Z -> Z;
  ISOWeek : Z -> Z * Z;
  Date : Z -> Z -> Z -> Z
}.

(** ** The backing store, seen from the client

    [SimpleRedisClient] sends one command and reads one reply.  The server side is the
    environment: a key-value map in which every entry records the time to live it was
    given, and an oracle telling which commands are hit by an I/O failure.  The passing
    of time does not remove entries here; a time to live that is not positive does what
    the Redis server does with it: SETEX is refused, EXPIRE deletes the key. *)

Module Redis.

Inductive Cmd :=
  | GET (key : string)
  | SET (key value : string)
  | SETEX (key : string) (seconds : Z) (value : string)
  | INCRBY (key : string) (delta : Z)
  | EXPIRE (key : string) (seconds : Z).

Inductive Reply :=
  | Simple (s : string)      (* +OK *)
  | Error (msg : string)     (* -ERR ... *)
  | Integer (z : Z)          (* :42 *)
  | Bulk (s : string)        (* $3 abc *)
  | Nil.                     (* $-1 *)

Record Entry := { value : string; ttl : option Z }.

  (** How the server reads a stored value as an integer: canonical decimal only. *)
Definition as_integer (s : string) : option Z :=
    match GoStr.ParseInt s with
    | Some z => if String.eqb (GoStr.FormatInt z) s then Some z else None
    | None => None
    end.

Definition exec (c : Cmd) (db : gmap string Entry) : Reply * gmap string Entry :=
    match c with
    | GET k =>
        match db !! k with
        | Some e => (Bulk (value e), db)
        | None => (Nil, db)
        end
    | SET k v => (Simple "OK", <[k := {| value := v; ttl := None |}]> db)
    | SETEX k secs v =>
        if 0 <? secs then (Simple "OK", <[k := {| value := v; ttl := Some secs |}]> db)
        else (Error "ERR invalid expire time in 'setex' command", db)
    | INCRBY k d =>
        match db !! k with
        | None => (Integer d, <[k := {| value := GoStr.FormatInt d; ttl := None |}]> db)
        | Some e =>
            match as_integer (value e) with
            | Some v =>
                if GoStr.in_int64 (v + d)
                then (Integer (v + d), <[k := {| value := GoStr.FormatInt (v + d); ttl := ttl e |}]> db)
                else (Error "ERR increment or decrement would overflow", db)
            | None => (Error "ERR value is not an integer or out of range", db)
            end
        end
    | EXPIRE k secs =>
        match db !! k with
        | Some e =>
            if 0 <? secs then (Integer 1, <[k := {| value := value e; ttl := Some secs |}]> db)
            else (Integer 1, delete k db)
        | None => (Integer 0, db)
        end
    end.

Definition cmd_key (c : Cmd) : string :=
    match c with
    | GET k | SET k _ | SETEX k _ _ | INCRBY k _ | EXPIRE k _ => k
    end.

  (** A command is delivered and answered, or lost on the way, or executed with its
      reply lost. *)
Inductive Fault := Healthy | RequestLost | ReplyLost.

End Redis.

(** ** The world a request runs in *)

Definition error := option string.

Inductive Event :=
| EvCmd (c : Redis.Cmd)            (* a command written to the store connection *)
| EvHeader (key value : string)    (* rw.Header().Set(key, value) *)
| EvWriteHeader (code : Z)         (* rw.WriteHeader(code) *)
| EvWrite (data : string)          (* rw.Write(data) *)
| EvNext.                          (* q.next.ServeHTTP(rw, req) *)

Record World := mkWorld {
  db : gmap string Redis.Entry;      (* what the store holds *)
  faults : nat -> Redis.Fault;       (* fate of the n-th command *)
  cmds : nat;                        (* commands sent so far *)
  clock : nat -> Z;                  (* value of the n-th reading of time.Now() *)
  ticks : nat;                       (* clock readings so far *)
  header : gmap string string;       (* response header map *)
  status : option Z;                 (* status line written, if any *)
  body : string;                     (* response body written so far *)
  trace : list Event                 (* everything done, oldest first *)
}.

Definition M (A : Type) : Type := World -> A * World.

Definition ret {A} (a : A) : M A := fun w => (a, w).

Definition bind {A B} (m : M A) (k : A -> M B) : M B :=
  fun w => let (a, w') := m w in k a w'.

Notation "'let*' x ':=' m 'in' k" := (bind m (fun x => k))
  (at level 10, x pattern, m at level 100, k at level 200, only parsing).

(** The elementary changes of the world. *)
Definition logged (e : Event) (w : World) : World :=
  mkWorld (db w) (faults w) (cmds w) (clock w) (ticks w) (header w) (status w) (body w)
    (trace w ++ [e]).

Definition ticked (w : World) : World :=
  mkWorld (db w) (faults w) (cmds w) (clock w) (S (ticks w)) (header w) (status w) (body w)
    (trace w).

Definition counted (w : World) : World :=
  mkWorld (db w) (faults w) (S (cmds w)) (clock w) (ticks w) (header w) (status w) (body w)
    (trace w).

Definition stored (d : gmap string Redis.Entry) (w : World) : World :=
  mkWorld d (faults w) (cmds w) (clock w) (ticks w) (header w) (status w) (body w) (trace w).

Definition emit (e : Event) : M unit := fun w => (tt, logged e w).

(** [time.Now()]. *)
Definition Now : M Z := fun w => (clock w (ticks w), ticked w).

Definition set_db (d : gmap string Redis.Entry) : M unit := fun w => (tt, stored d w).

Definition next_fault : M Redis.Fault := fun w => (faults w (cmds w), counted w).

Definition get_db : M (gmap string Redis.Entry) := fun w => (db w, w).

(** ** redis_client.go *)

(** [readResponse], on a reply that arrived. *)
Definition readResponse (r : Redis.Reply) : string * error :=
  match r with
  | Redis.Simple s => (s, None)
  | Redis.Error msg => ("", Some ("redis error: " ++ msg))
  | Redis.Integer z => (GoStr.FormatInt z, None)
  | Redis.Bulk s => (s, None)
  | Redis.Nil => ("", Some "key not found")
  end.

(** [writeCommand] followed by [readResponse]. *)
Definition roundtrip (c : Redis.Cmd) : M (string * error) :=
  let* u := emit (EvCmd c) in
  let* f := next_fault in
  match f with
  | Redis.RequestLost => ret ("", Some "write: broken pipe")
  | Redis.ReplyLost =>
      let* d := get_db in
      let* u := set_db (snd (Redis.exec c d)) in
      ret ("", Some "read: connection reset")
  | Redis.Healthy =>
      let* d := get_db in
      let '(r, d') := Redis.exec c d in
      let* u := set_db d' in
      ret (readResponse r)
  end.

Definition Contains (s sub : string) : bool :=
  match String.index 0 sub s with Some _ => true | None => false end.

Definition Get (key : string) : M (string * error) :=
  let* (resp, err) := roundtrip (Redis.GET key) in
  match err with
  | Some e =>
      if Contains e "key not found" then ret ("", Some "key not found")
      else ret ("", Some e)
  | None => ret (resp, None)
  end.

(** The values the plugin hands to [Set] as [interface{}]. *)
Inductive GoValue := VFloat (f : float) | VInt (z : Z).

Section Client.
  Context {rt : GoRuntime}.

  (** [fmt.Sprintf("%v", value)]. *)
Definition Sprint (v : GoValue) : string :=
    match v with
    | VFloat f => FormatFloat f
    | VInt z => GoStr.FormatInt z
    end.

Definition Set_ (key : string) (value : GoValue) (expiration : Z) : M error :=
    let valueStr := Sprint value in
    let* (resp, err) :=
      (if 0 <? expiration
       then roundtrip (Redis.SETEX key (F64.int_of_float64 (GoTime.Seconds expiration)) valueStr)
       else roundtrip (Redis.SET key valueStr)) in
    match err with
    | Some e => ret (Some e)
    | None =>
        if negb (GoStr.HasPrefix resp "OK") then ret (Some ("set failed: " ++ resp))
        else ret None
    end.

End Client.

Definition IncrBy (key : string) (value : Z) : M (Z * error) :=
  let* (resp, err) := roundtrip (Redis.INCRBY key value) in
  match err with
  | Some e => ret (0, Some e)
  | None =>
      match GoStr.ParseInt resp with
      | Some result => ret (result, None)
      | None => ret (0, Some ("invalid integer response: " ++ resp))
      end
  end.

Definition Expire (key : string) (expiration : Z) : M error :=
  let* (resp, err) :=
    roundtrip (Redis.EXPIRE key (F64.int_of_float64 (GoTime.Seconds expiration))) in
  match err with
  | Some e => ret (Some e)
  | None =>
      if negb (String.eqb resp "1") then ret (Some "expire failed: key may not exist")
      else ret None
  end.

Definition GetQuotaKey (identifier period : string) : string :=
  "quota:" ++ identifier ++ ":" ++ period.

Definition GetRateLimitKey (identifier : string) : string :=
  "ratelimit:" ++ identifier.

(** ** The configuration records *)

Module RateLimitConfig.
Record t := mk {
    Enabled : bool;
    Rate : Z;                        (* requests per period *)
    Burst : Z;                       (* burst capacity *)
    Period : string;                 (* 1m, 1h, ... *)
    ResponseReachedLimitCode : Z;
    ResponseReachedLimitBody : string
  }.
End RateLimitConfig.

Module QuotaSettings.
Record t := mk {
    Enabled : bool;
    Limit : Z;
    Period : string;                 (* Daily, Weekly, Monthly *)
    ResponseReachedLimitCode : Z;
    ResponseReachedLimitBody : string
  }.
End QuotaSettings.

Module IdentifierConfig.
Record t := mk {
    Type_ : string;                  (* Header, IP, Query, Cookie *)
    Name : string;
    Value : string;
    RateLimit : RateLimitConfig.t;
    Quota : QuotaSettings.t
  }.
End IdentifierConfig.

Record Config := mkConfig {
  RedisAddress : string;             (* config.Persistence.Redis.Address *)
  Identifiers : list IdentifierConfig.t
}.

(** ** rate_limiter.go: records *)

Record TokenBucket := mkBucket {
  Tokens : float;
  LastRefill : Z;
  Rate : Z;
  Burst : Z;
  RefillPeriod : Z
}.

Record RateLimitInfo := mkRateLimitInfo {
  rli_Limit : Z;
  rli_Burst : Z;
  rli_Available : Z;
  rli_ResetTime : Z;
  rli_RetryAfter : Z
}.

(** ** quota_manager.go: records *)

Record QuotaInfo := mkQuotaInfo {
  qi_Limit : Z;
  qi_Used : Z;
  qi_Remaining : Z;
  qi_Period : string;
  qi_ResetTime : Z;
  qi_ResetIn : Z
}.

Section Engines.
  Context {rt : GoRuntime}.

  (** *** Configuration methods *)

Definition ParseRateLimitPeriod (rlc : RateLimitConfig.t) : option Z :=
    if String.eqb (RateLimitConfig.Period rlc) "" then Some GoTime.Minute
    else ParseDuration (RateLimitConfig.Period rlc).

Definition ParseQuotaPeriod (qs : QuotaSettings.t) : option Z :=
    let p := QuotaSettings.Period qs in
    if String.eqb p "Daily" then Some (24 * GoTime.Hour)
    else if String.eqb p "Weekly" then Some (7 * 24 * GoTime.Hour)
    else if String.eqb p "Monthly" then Some (30 * 24 * GoTime.Hour)
    else None.

  (** [IdentifierConfig.Validate]: [None] when the rule is accepted. *)
Definition Validate (ic : IdentifierConfig.t) : error :=
    let rl := IdentifierConfig.RateLimit ic in
    let qs := IdentifierConfig.Quota ic in
    if String.eqb (IdentifierConfig.Type_ ic) "" then Some "identifier type is required"
    else if String.eqb (IdentifierConfig.Type_ ic) "Header" && String.eqb (IdentifierConfig.Name ic) ""
    then Some "header name is required for header-based identification"
    else if negb (RateLimitConfig.Enabled rl) && negb (QuotaSettings.Enabled qs)
    then Some "at least one feature (rate limit or quota) must be enabled"
    else if RateLimitConfig.Enabled rl && (RateLimitConfig.Rate rl <=? 0)
    then Some "rate limit rate must be positive when rate limiting is enabled"
    else if RateLimitConfig.Enabled rl && (RateLimitConfig.Burst rl <=? 0)
    then Some "rate limit burst must be positive when rate limiting is enabled"
    else if RateLimitConfig.Enabled rl && negb (bool_decide (is_Some (ParseRateLimitPeriod rl)))
    then Some ("invalid rate limit period: " ++ DurationError (RateLimitConfig.Period rl))
    else if QuotaSettings.Enabled qs && (QuotaSettings.Limit qs <=? 0)
    then Some "quota limit must be positive when quota is enabled"
    else if QuotaSettings.Enabled qs && negb (bool_decide (is_Some (ParseQuotaPeriod qs)))
    then Some ("invalid quota period: unsupported quota period: " ++ QuotaSettings.Period qs)
    else None.

  (** *** The token bucket *)

  (** The zero value [TokenBucket{}]. *)
Definition emptyBucket : TokenBucket := mkBucket 0%float GoTime.Zero 0 0 0.

Definition createNewBucket (config : RateLimitConfig.t) : M (TokenBucket * error) :=
    match ParseRateLimitPeriod config with
    | None =>
        ret (emptyBucket, Some ("invalid period: " ++ DurationError (RateLimitConfig.Period config)))
    | Some period =>
        let* now := Now in
        ret (mkBucket (F64.float64_of_int (RateLimitConfig.Burst config)) now
               (RateLimitConfig.Rate config) (RateLimitConfig.Burst config) period, None)
    end.

Definition getBucket (config : RateLimitConfig.t) (key : string) : M (TokenBucket * error) :=
    let* (bucketData, err) := Get (key ++ ":tokens") in
    match err with
    | Some _ => createNewBucket config
    | None =>
        match ParseFloat bucketData with
        | None => createNewBucket config
        | Some tokens =>
            let* (lastRefillData, err) := Get (key ++ ":last_refill") in
            match err with
            | Some _ => createNewBucket config
            | None =>
                match GoStr.ParseInt lastRefillData with
                | None => createNewBucket config
                | Some lastRefillUnix =>
                    match ParseRateLimitPeriod config with
                    | None =>
                        ret (emptyBucket,
                             Some ("invalid period: "
                                   ++ DurationError (RateLimitConfig.Period config)))
                    | Some period =>
                        ret (mkBucket tokens lastRefillUnix (RateLimitConfig.Rate config)
                               (RateLimitConfig.Burst config) period, None)
                    end
                end
            end
        end
    end.

  (** The number of tokens a refill adds: [float64(Rate) * elapsed.Seconds() /
      RefillPeriod.Seconds()], evaluated from the left. *)
Definition tokensToAdd (bucket : TokenBucket) (now : Z) : float :=
    let elapsed := GoTime.Sub now (LastRefill bucket) in
    (F64.float64_of_int (Rate bucket) * GoTime.Seconds elapsed
       / GoTime.Seconds (RefillPeriod bucket))%float.

Definition refillBucket (bucket : TokenBucket) (now : Z) : TokenBucket :=
    mkBucket
      (F64.Min (Tokens bucket + tokensToAdd bucket now)%float (F64.float64_of_int (Burst bucket)))
      now (Rate bucket) (Burst bucket) (RefillPeriod bucket).

Definition saveBucket (key : string) (bucket : TokenBucket) : M error :=
    let expiration := GoStr.wrap64 (RefillPeriod bucket * 2) in
    let* err := Set_ (key ++ ":tokens") (VFloat (Tokens bucket)) expiration in
    match err with
    | Some e => ret (Some ("failed to save tokens: " ++ e))
    | None =>
        let* err := Set_ (key ++ ":last_refill") (VInt (LastRefill bucket)) expiration in
        match err with
        | Some e => ret (Some ("failed to save last refill: " ++ e))
        | None => ret None
        end
    end.

Definition consume (bucket : TokenBucket) (n : float) : TokenBucket :=
    mkBucket (Tokens bucket - n)%float (LastRefill bucket) (Rate bucket) (Burst bucket)
      (RefillPeriod bucket).

  (** [AllowN] after its guard on [n]; [Allow] is the instance [n = 1.0]. *)
Definition allowTokens (config : RateLimitConfig.t) (identifier : string) (n : float)
    : M (bool * error) :=
    let key := GetRateLimitKey identifier in
    let* (bucket, err) := getBucket config key in
    match err with
    | Some e => ret (false, Some ("failed to get bucket: " ++ e))
    | None =>
        let* now := Now in
        let bucket := refillBucket bucket now in
        if (n <=? Tokens bucket)%float then
          let bucket := consume bucket n in
          let* err := saveBucket key bucket in
          match err with
          | Some e => ret (false, Some ("failed to save bucket: " ++ e))
          | None => ret (true, None)
          end
        else ret (false, None)
    end.

Definition Allow (config : RateLimitConfig.t) (identifier : string) : M (bool * error) :=
    allowTokens config identifier 1%float.

Definition AllowN (config : RateLimitConfig.t) (identifier : string) (n : Z)
    : M (bool * error) :=
    if n <=? 0 then ret (true, None)
    else allowTokens config identifier (F64.float64_of_int n).

Definition emptyRateLimitInfo : RateLimitInfo := mkRateLimitInfo 0 0 0 GoTime.Zero 0.

Definition GetLimitInfo (config : RateLimitConfig.t) (identifier : string)
    : M (RateLimitInfo * error) :=
    let key := GetRateLimitKey identifier in
    let* (bucket, err) := getBucket config key in
    match err with
    | Some e => ret (emptyRateLimitInfo, Some ("failed to get bucket: " ++ e))
    | None =>
        let* now := Now in
        let bucket := refillBucket bucket now in
        let timeUntilReset :=
          if (Tokens bucket <? F64.float64_of_int (Burst bucket))%float then
            let timeForOneToken :=
              (GoTime.Seconds (RefillPeriod bucket) / F64.float64_of_int (Rate bucket))%float in
            F64.int_of_float64 (timeForOneToken * F64.float64_of_int GoTime.Second)%float
          else 0 in
        ret (mkRateLimitInfo (Rate bucket) (Burst bucket) (F64.int_of_float64 (Tokens bucket))
               (GoTime.Add now timeUntilReset) timeUntilReset, None)
    end.

  (** *** redis_client.go: the period label of a quota key *)

Definition formatDate (t : Z) : string :=
    GoStr.pad 4 (Year t) ++ "-" ++ GoStr.pad 2 (Month t) ++ "-" ++ GoStr.pad 2 (Day t).

Definition formatMonth (t : Z) : string :=
    GoStr.pad 4 (Year t) ++ "-" ++ GoStr.pad 2 (Month t).

(** The label [GetQuotaPeriodKey] computes from the instant [now]. *)
Definition periodLabel (period : string) (now : Z) : string :=
    if String.eqb period "Daily" then formatDate now
    else if String.eqb period "Weekly" then
      let '(year, week) := ISOWeek now in
      GoStr.FormatInt year ++ "-W" ++ GoStr.pad 2 week
    else if String.eqb period "Monthly" then formatMonth now
    else formatDate now.

Definition GetQuotaPeriodKey (period : string) : M string :=
    let* now := Now in ret (periodLabel period now).

  (** *** The quota manager *)

(** The instant [getNextResetTime] computes from [now]. *)
Definition nextReset (config : QuotaSettings.t) (now : Z) : Z :=
    let period := QuotaSettings.Period config in
    if String.eqb period "Daily" then Date (Year now) (Month now) (Day now + 1)
    else if String.eqb period "Weekly" then
      let daysUntilSunday := Z.rem (7 - Weekday now) 7 in
      let daysUntilSunday := if daysUntilSunday =? 0 then 7 else daysUntilSunday in
      Date (Year now) (Month now) (Day now + daysUntilSunday)
    else if String.eqb period "Monthly" then Date (Year now) (Month now + 1) 1
    else Date (Year now) (Month now) (Day now + 1).

Definition getNextResetTime (config : QuotaSettings.t) : M Z :=
    let* now := Now in ret (nextReset config now).

  (** [time.Until(t)]. *)
Definition Until (t : Z) : M Z :=
    let* now := Now in ret (GoTime.Sub t now).

Definition disabledQuotaInfo : QuotaInfo := mkQuotaInfo 0 0 0 "Disabled" GoTime.Zero 0.

Definition GetQuotaInfo (config : QuotaSettings.t) (identifier : string)
    : M (QuotaInfo * error) :=
    if negb (QuotaSettings.Enabled config) then ret (disabledQuotaInfo, None)
    else
      let* periodKey := GetQuotaPeriodKey (QuotaSettings.Period config) in
      let key := GetQuotaKey identifier periodKey in
      let* (usageStr, err) := Get key in
      let used :=
        match err with
        | None => match GoStr.ParseInt usageStr with Some parsedUsage => parsedUsage | None => 0 end
        | Some _ => 0
        end in
      let remaining := GoStr.wrap64 (QuotaSettings.Limit config - used) in
      let remaining := if remaining <? 0 then 0 else remaining in
      let* resetTime := getNextResetTime config in
      let* resetIn := Until resetTime in
      ret (mkQuotaInfo (QuotaSettings.Limit config) used remaining (QuotaSettings.Period config)
             resetTime resetIn, None).

Definition CheckQuota (config : QuotaSettings.t) (identifier : string)
    : M (bool * option QuotaInfo * error) :=
    if negb (QuotaSettings.Enabled config) then ret (true, None, None)
    else
      let* (info, err) := GetQuotaInfo config identifier in
      match err with
      | Some e => ret (false, None, Some ("failed to get quota info: " ++ e))
      | None =>
          if qi_Limit info <=? qi_Used info then ret (false, Some info, None)
          else ret (true, Some info, None)
      end.

Definition ConsumeQuota (config : QuotaSettings.t) (identifier : string) (amount : Z)
    : M (option QuotaInfo * error) :=
    if negb (QuotaSettings.Enabled config) then ret (None, None)
    else
      let amount := if amount <=? 0 then 1 else amount in
      let* periodKey := GetQuotaPeriodKey (QuotaSettings.Period config) in
      let key := GetQuotaKey identifier periodKey in
      let* (newUsage, err) := IncrBy key amount in
      match err with
      | Some e => ret (None, Some ("failed to increment quota: " ++ e))
      | None =>
          let* err :=
            (if newUsage =? amount then
               let* resetTime := getNextResetTime config in
               let* timeUntilReset := Until resetTime in
               Expire key timeUntilReset
             else ret None) in
          match err with
          | Some e => ret (None, Some ("failed to set quota expiration: " ++ e))
          | None =>
              let* (info, err) := GetQuotaInfo config identifier in
              match err with
              | Some e => ret (None, Some ("failed to get updated quota info: " ++ e))
              | None => ret (Some info, None)
              end
          end
      end.

Definition IsQuotaEnabled (config : QuotaSettings.t) : bool := QuotaSettings.Enabled config.

End Engines.

(** ** quota.go: the middleware *)

(** What the plugin reads of an [*http.Request]: the header map (canonical names, the
    values in order), the remote address, the parsed query [req.URL.Query()] and the
    cookies of the request in order. *)
Record Request := mkRequest {
  Header : gmap string (list string);
  RemoteAddr : string;
  Query : gmap string (list string);
  Cookies : list (string * string)
}.

(** [h.Get(key)]: the first value under the canonical name, or the empty string. *)
Definition Header_Get (h : gmap string (list string)) (key : string) : string :=
  match h !! GoStr.CanonicalMIMEHeaderKey key with
  | Some (v :: _) => v
  | _ => ""
  end.

(** [url.Values.Get]. *)
Definition Values_Get (q : gmap string (list string)) (key : string) : string :=
  match q !! key with
  | Some (v :: _) => v
  | _ => ""
  end.

(** [req.Cookie(name)]: the first cookie of that name, [None] for [ErrNoCookie]. *)
Fixpoint Cookie (cs : list (string * string)) (name : string) : option string :=
  match cs with
  | [] => None
  | (n, v) :: rest => if String.eqb n name then Some v else Cookie rest name
  end.

Record IdentifierManager := mkManager {
  config : IdentifierConfig.t;
  rateLimiter : option RateLimitConfig.t;    (* nil unless rate limiting is enabled *)
  quotaManager : QuotaSettings.t
}.

Record quotaPlugin := mkPlugin {
  plugin_config : Config;
  managers : gmap string IdentifierManager
}.

Record QuotaResponse := mkResponse {
  Allowed : bool;
  RateLimit : option RateLimitInfo;
  Quota : option QuotaInfo;
  Identifier : string;
  IdentifierType : string;
  Reason : string;
  ResponseCode : Z;
  ResponseBody : string
}.

Definition StatusForbidden : Z := 403.
Definition StatusTooManyRequests : Z := 429.

Definition extractIdentifier (req : Request) (config : IdentifierConfig.t) : string :=
  let type := IdentifierConfig.Type_ config in
  if String.eqb type "Header" then
    let value := Header_Get (Header req) (IdentifierConfig.Name config) in
    if negb (String.eqb value "") then
      if String.eqb value (IdentifierConfig.Value config) then value else ""
    else if String.eqb (IdentifierConfig.Value config) "sk-unknown"
            || String.eqb (IdentifierConfig.Value config) "anonymous"
            || String.eqb (IdentifierConfig.Value config) "guest"
    then IdentifierConfig.Value config
    else ""
  else if String.eqb type "IP" then
    let ip := RemoteAddr req in
    let forwarded := Header_Get (Header req) "X-Forwarded-For" in
    let ip := if negb (String.eqb forwarded "")
              then GoStr.TrimSpace (GoStr.first_field forwarded) else ip in
    let realIP := Header_Get (Header req) "X-Real-IP" in
    let ip := if negb (String.eqb realIP "") then realIP else ip in
    match GoStr.before_last_colon ip with
    | Some prefix => prefix
    | None => ip
    end
  else if String.eqb type "Query" then
    let value := Values_Get (Query req) (IdentifierConfig.Name config) in
    if negb (String.eqb value "") then value else IdentifierConfig.Value config
  else if String.eqb type "Cookie" then
    match Cookie (Cookies req) (IdentifierConfig.Name config) with
    | Some value => value
    | None => IdentifierConfig.Value config
    end
  else IdentifierConfig.Value config.

(** [rw.Header().Set(key, value)]. *)
Definition Header_Set (key value : string) : M unit := fun w =>
  let k := GoStr.CanonicalMIMEHeaderKey key in
  (tt, mkWorld (db w) (faults w) (cmds w) (clock w) (ticks w) (<[k := value]> (header w))
         (status w) (body w) (trace w ++ [EvHeader k value])).

Definition StatusOK : Z := 200.

(** [checkWriteHeaderCode] of net/http accepts the codes from 100 to 999. *)
Definition validStatus (code : Z) : bool := (100 <=? code) && (code <=? 999).

(** A 1xx code other than 101 is sent as an informational header: the status line of
    the response is still to be written. *)
Definition informational (code : Z) : bool :=
  (100 <=? code) && (code <=? 199) && negb (code =? 101).

(** [rw.WriteHeader(code)] of net/http.  The first status written stands: a later call
    is ignored.  Otherwise a code that is not valid makes the call panic; the result
    [false] stands for that panic, which writes nothing. *)
Definition WriteHeader (code : Z) : M bool := fun w =>
  match status w with
  | Some _ => (true, logged (EvWriteHeader code) w)
  | None =>
      if validStatus code then
        (true, mkWorld (db w) (faults w) (cmds w) (clock w) (ticks w) (header w)
                 (if informational code then None else Some code) (body w)
                 (trace w ++ [EvWriteHeader code]))
      else (false, logged (EvWriteHeader code) w)
  end.

(** [rw.Write(data)]: when no status was written yet, the status is 200. *)
Definition Write (data : string) : M unit := fun w =>
  (tt, mkWorld (db w) (faults w) (cmds w) (clock w) (ticks w) (header w)
         (match status w with Some c => Some c | None => Some StatusOK end)
         (body w ++ data) (trace w ++ [EvWrite data])).

(** [q.next.ServeHTTP(rw, req)]: the downstream handler is outside the plugin; its
    invocation is recorded. *)
Definition next_ServeHTTP : M unit := emit EvNext.

Definition quote : string := String (ascii_of_nat 34) EmptyString.
Definition newline : string := String (ascii_of_nat 10) EmptyString.
Definition tab : string := String (ascii_of_nat 9) EmptyString.

(** The raw string literal written when no identifier matched. *)
Definition errorResponse : string :=
  "{" ++ newline
  ++ tab ++ tab ++ tab ++ quote ++ "error" ++ quote ++ ": " ++ quote ++ "Access denied" ++ quote
  ++ "," ++ newline
  ++ tab ++ tab ++ tab ++ quote ++ "message" ++ quote ++ ": " ++ quote
  ++ "No valid identifier found in request" ++ quote ++ newline
  ++ tab ++ tab ++ "}".

Section Middleware.
  Context {rt : GoRuntime}.

Definition newManager (identifierConfig : IdentifierConfig.t) : IdentifierManager :=
    mkManager identifierConfig
      (if RateLimitConfig.Enabled (IdentifierConfig.RateLimit identifierConfig)
       then Some (IdentifierConfig.RateLimit identifierConfig) else None)
      (IdentifierConfig.Quota identifierConfig).

Definition managerKey (c : IdentifierConfig.t) : string :=
    IdentifierConfig.Type_ c ++ ":" ++ IdentifierConfig.Name c ++ ":" ++ IdentifierConfig.Value c.

  (** The loop of [New] over [config.Identifiers]: validate, then [managers[key] = manager];
      [i] is the index of the head of [ids]. *)
Fixpoint loadManagers (ids : list IdentifierConfig.t) (i : Z)
    (managers : gmap string IdentifierManager) : gmap string IdentifierManager * error :=
    match ids with
    | [] => (managers, None)
    | identifierConfig :: rest =>
        match Validate identifierConfig with
        | Some e =>
            (managers, Some ("identifier " ++ GoStr.FormatInt i ++ " validation failed: " ++ e))
        | None =>
            loadManagers rest (i + 1)
              (<[managerKey identifierConfig := newManager identifierConfig]> managers)
        end
    end.

  (** [New], for a store that accepts the connection. *)
Definition New (config : Config) : option quotaPlugin * error :=
    if String.eqb (RedisAddress config) "" then (None, Some "redis address is required")
    else if (length (Identifiers config) =? 0)%nat
    then (None, Some "at least one identifier is required")
    else
      match loadManagers (Identifiers config) 0 ∅ with
      | (_, Some e) => (None, Some e)
      | (managers, None) => (Some (mkPlugin config managers), None)
      end.

Definition rateLimited (manager : IdentifierManager) : bool :=
    RateLimitConfig.Enabled (IdentifierConfig.RateLimit (config manager))
    && bool_decide (is_Some (rateLimiter manager)).

  (** The first block of [checkIdentifier]: the rate limiter, when the rule has one. *)
Definition limiterGate (manager : IdentifierManager) (identifier : string)
    : M (bool * RateLimitInfo) :=
    let rlc := IdentifierConfig.RateLimit (config manager) in
    match rateLimiter manager with
    | Some limiter =>
        if RateLimitConfig.Enabled rlc then
          let* (allowed, err) := Allow limiter identifier in
          let rateLimitAllowed := match err with Some _ => true | None => allowed end in
          let* (info, err) := GetLimitInfo limiter identifier in
          let rateLimitInfo := match err with Some _ => emptyRateLimitInfo | None => info end in
          ret (rateLimitAllowed, rateLimitInfo)
        else ret (true, emptyRateLimitInfo)
    | None => ret (true, emptyRateLimitInfo)
    end.

Definition checkIdentifier (manager : IdentifierManager) (identifier : string)
    : M (QuotaResponse * error) :=
    let rlc := IdentifierConfig.RateLimit (config manager) in
    let qs := IdentifierConfig.Quota (config manager) in
    let* (rateLimitAllowed, rateLimitInfo) := limiterGate manager identifier in
    if negb rateLimitAllowed then
      ret (mkResponse false (Some rateLimitInfo) None identifier
             (IdentifierConfig.Type_ (config manager)) "Rate limit exceeded"
             (RateLimitConfig.ResponseReachedLimitCode rlc)
             (RateLimitConfig.ResponseReachedLimitBody rlc), None)
    else
      let* (quotaAllowed, quotaInfo) :=
        (if IsQuotaEnabled (quotaManager manager) then
           let* (allowed, info, err) := CheckQuota (quotaManager manager) identifier in
           ret (match err with Some _ => true | None => allowed end, info)
         else ret (true, None)) in
      let rateLimit := if rateLimited manager then Some rateLimitInfo else None in
      if negb quotaAllowed then
        ret (mkResponse false rateLimit quotaInfo identifier
               (IdentifierConfig.Type_ (config manager)) "Quota exceeded"
               (QuotaSettings.ResponseReachedLimitCode qs)
               (QuotaSettings.ResponseReachedLimitBody qs), None)
      else
        ret (mkResponse true rateLimit quotaInfo identifier
               (IdentifierConfig.Type_ (config manager)) "Request allowed" 0 "", None).

Definition writeQuotaHeaders (response : QuotaResponse) : M unit :=
    let* u :=
      (match RateLimit response with
       | Some info =>
           let* u := Header_Set "X-RateLimit-Limit" (GoStr.FormatInt (rli_Limit info)) in
           let* u := Header_Set "X-RateLimit-Remaining" (GoStr.FormatInt (rli_Available info)) in
           let* u := Header_Set "X-RateLimit-Reset"
                       (GoStr.FormatInt (GoTime.Unix (rli_ResetTime info))) in
           if 0 <? rli_RetryAfter info then
             Header_Set "Retry-After"
               (GoStr.FormatInt (F64.int_of_float64 (GoTime.Seconds (rli_RetryAfter info))))
           else ret tt
       | None => ret tt
       end) in
    match Quota response with
    | Some info =>
        let* u := Header_Set "X-Quota-Limit" (GoStr.FormatInt (qi_Limit info)) in
        let* u := Header_Set "X-Quota-Used" (GoStr.FormatInt (qi_Used info)) in
        let* u := Header_Set "X-Quota-Remaining" (GoStr.FormatInt (qi_Remaining info)) in
        Header_Set "X-Quota-Reset" (GoStr.FormatInt (GoTime.Unix (qi_ResetTime info)))
    | None => ret tt
    end.

Definition withIdentifierType (resp : QuotaResponse) (key : string) : QuotaResponse :=
    mkResponse (Allowed resp) (RateLimit resp) (Quota resp) (Identifier resp) key (Reason resp)
      (ResponseCode resp) (ResponseBody resp).

  (** The [for key, manager := range q.managers] loop of [ServeHTTP], visiting the keys
      in the order [keys]. *)
Fixpoint findMatch (q : quotaPlugin) (req : Request) (keys : list string)
    : M (option (QuotaResponse * IdentifierManager)) :=
    match keys with
    | [] => ret None
    | key :: rest =>
        match managers q !! key with
        | None => findMatch q req rest
        | Some manager =>
            let identifier := extractIdentifier req (config manager) in
            if String.eqb identifier "" then findMatch q req rest
            else
              let* (resp, err) := checkIdentifier manager identifier in
              match err with
              | Some _ => findMatch q req rest
              | None => ret (Some (withIdentifierType resp key, manager))
              end
        end
    end.

  (** The status a denial is answered with. *)
Definition denyStatus (response : QuotaResponse) : Z :=
    let statusCode := ResponseCode response in
    if statusCode =? 0 then
      if String.eqb (Reason response) "Quota exceeded" then StatusForbidden
      else StatusTooManyRequests
    else statusCode.

  (** A panic of [WriteHeader] unwinds [ServeHTTP]: nothing that follows the call runs. *)
Definition ServeHTTP (order : list string) (q : quotaPlugin) (req : Request) : M unit :=
    let* found := findMatch q req order in
    match found with
    | None =>
        let* u := Header_Set "Content-Type" "application/json" in
        let* returned := WriteHeader StatusForbidden in
        if returned then Write errorResponse else ret tt
    | Some (response, matchedManager) =>
        let* u := writeQuotaHeaders response in
        if negb (Allowed response) then
          let statusCode := denyStatus response in
          let responseBody :=
            if String.eqb (ResponseBody response) "" then Reason response
            else ResponseBody response in
          let* u :=
            (if Contains responseBody "{" && Contains responseBody "}"
             then Header_Set "Content-Type" "application/json"
             else Header_Set "Content-Type" "text/plain") in
          let* returned := WriteHeader statusCode in
          if returned then Write responseBody else ret tt
        else
          let* u :=
            (if IsQuotaEnabled (quotaManager matchedManager) then
               let* r := ConsumeQuota (quotaManager matchedManager) (Identifier response) 1 in
               ret tt
             else ret tt) in
          next_ServeHTTP
    end.

  (** An order in which [range] may visit the map: every key once. *)
Definition range_order (q : quotaPlugin) (order : list string) : Prop :=
    Permutation order (map fst (map_to_list (managers q))).

End Middleware.

(** ** A concrete runtime for the examples

    The calendar is the proleptic Gregorian calendar in UTC.  The three conversions are
    given on the inputs the examples use, where they agree with the Go library: decimal
    integers for floats, and a few duration literals. *)

Module Sample.

Definition dayNanos : Z := 86400 * GoTime.Second.

Definition days_from_civil (y m d : Z) : Z :=
    let y := if m <=? 2 then y - 1 else y in
    let era := y / 400 in
    let yoe := y - era * 400 in
    let doy := (153 * (if 2 <? m then m - 3 else m + 9) + 2) / 5 + d - 1 in
    let doe := yoe * 365 + yoe / 4 - yoe / 100 + doy in
    era * 146097 + doe - 719468.

Definition civil_from_days (z : Z) : Z * Z * Z :=
    let z := z + 719468 in
    let era := z / 146097 in
    let doe := z - era * 146097 in
    let yoe := (doe - doe / 1460 + doe / 36524 - doe / 146096) / 365 in
    let doy := doe - (365 * yoe + yoe / 4 - yoe / 100) in
    let mp := (5 * doy + 2) / 153 in
    let d := doy - (153 * mp + 2) / 5 + 1 in
    let m := if mp <? 10 then mp + 3 else mp - 9 in
    ((if m <=? 2 then yoe + era * 400 + 1 else yoe + era * 400), m, d).

Definition days (t : Z) : Z := t / dayNanos.

Definition year (t : Z) : Z := fst (fst (civil_from_days (days t))).
Definition month (t : Z) : Z := snd (fst (civil_from_days (days t))).
Definition day (t : Z) : Z := snd (civil_from_days (days t)).
Definition weekday (t : Z) : Z := (days t + 4) mod 7.

Definition date (y m d : Z) : Z :=
    let y' := y + (m - 1) / 12 in
    let m' := (m - 1) mod 12 + 1 in
    (days_from_civil y' m' 1 + (d - 1)) * dayNanos.

Definition isoWeek (t : Z) : Z * Z :=
    let wd := weekday t in
    let d := if wd =? 0 then -3 else 4 - wd in
    let thursday := days t + d in
    let y := fst (fst (civil_from_days thursday)) in
    (y, (thursday - days_from_civil y 1 1) / 7 + 1).

Definition parseDuration (s : string) : option Z :=
    if String.eqb s "1s" then Some GoTime.Second
    else if String.eqb s "1m" then Some GoTime.Minute
    else if String.eqb s "1h" then Some GoTime.Hour
    else if String.eqb s "0s" then Some 0
    else if String.eqb s "-1s" then Some (- GoTime.Second)
    else if String.eqb s "-1m" then Some (- GoTime.Minute)
    else if String.eqb s "200ms" then Some (200 * 1000000)
    else None.

  (** The error text for a string that is no duration at all. *)
Definition durationError (s : string) : string :=
    "time: invalid duration " ++ quote ++ s ++ quote.

Definition parseFloat (s : string) : option float :=
    match GoStr.ParseInt s with
    | Some z => if Z.abs z <=? 2 ^ 53 then Some (F64.float64_of_int z) else None
    | None => None
    end.

Definition formatFloat (f : float) : string :=
    let z := F64.int_of_float64 f in
    if PrimFloat.eqb (F64.float64_of_int z) f && (Z.abs z <=? 2 ^ 53)
    then GoStr.FormatInt z else "NaN".

#[export] Instance runtime : GoRuntime := {|
    ParseDuration := parseDuration;
    DurationError := durationError;
    ParseFloat := parseFloat;
    FormatFloat := formatFloat;
    Year := year;
    Month := month;
    Day := day;
    Weekday := weekday;
    ISOWeek := isoWeek;
    Date := date
  |}.

  (** A world with an empty store and no failure, whose clock starts at [t0] and
      advances by [step] nanoseconds at every reading. *)
Definition world (t0 step : Z) : World :=
    mkWorld ∅ (fun _ => Redis.Healthy) 0 (fun n => t0 + step * Z.of_nat n) 0 ∅ None "" [].

  (** 2024-03-15 12:00:00 UTC, a Friday. *)
Definition noon : Z := 1710504000 * GoTime.Second.

Definition noHeaders : Request := mkRequest ∅ "10.0.0.1:51234" ∅ [].

End Sample.

(** ** Further functions of the plugin *)

Section Administration.
Context {rt : GoRuntime}.

(** *** The configuration file: [QuotaConfig.Validate] *)

(** The loop over [qc.Identifiers]; [i] is the index of the head of [ids]. *)
Fixpoint validateIdentifiers (ids : list IdentifierConfig.t) (i : Z) : error :=
  match ids with
  | [] => None
  | identifier :: rest =>
      match Validate identifier with
      | Some e => Some ("identifier " ++ GoStr.FormatInt i ++ " validation failed: " ++ e)
      | None => validateIdentifiers rest (i + 1)
      end
  end.

(** The struct [QuotaConfig] has the fields of [Config]. *)
Definition QuotaConfig_Validate (qc : Config) : error :=
  if String.eqb (RedisAddress qc) "" then Some "redis address is required"
  else if (length (Identifiers qc) =? 0)%nat then Some "at least one identifier is required"
  else validateIdentifiers (Identifiers qc) 0.

(** *** rate_limiter.go: [GetCurrentTokens] and [Reset] *)

Definition GetCurrentTokens (config : RateLimitConfig.t) (identifier : string)
  : M (float * error) :=
  let key := GetRateLimitKey identifier in
  let* (bucket, err) := getBucket config key in
  match err with
  | Some e => ret (0%float, Some ("failed to get bucket: " ++ e))
  | None =>
      let* now := Now in
      let bucket := refillBucket bucket now in
      ret (Tokens bucket, None)
  end.

Definition Reset (config : RateLimitConfig.t) (identifier : string) : M error :=
  let key := GetRateLimitKey identifier in
  match ParseRateLimitPeriod config with
  | None => ret (Some ("invalid period: " ++ DurationError (RateLimitConfig.Period config)))
  | Some period =>
      let* now := Now in
      saveBucket key
        (mkBucket (F64.float64_of_int (RateLimitConfig.Burst config)) now
           (RateLimitConfig.Rate config) (RateLimitConfig.Burst config) period)
  end.

(** *** quota_manager.go: [ResetQuota], [SetQuotaUsage] and [GetUsageHistory] *)

Definition SetQuotaUsage (config : QuotaSettings.t) (identifier : string) (usage : Z)
  : M error :=
  if negb (QuotaSettings.Enabled config) then ret None
  else
    let* periodKey := GetQuotaPeriodKey (QuotaSettings.Period config) in
    let key := GetQuotaKey identifier periodKey in
    Set_ key (VInt usage) 0.

Definition ResetQuota (config : QuotaSettings.t) (identifier : string) : M error :=
  if negb (QuotaSettings.Enabled config) then ret None
  else
    let* periodKey := GetQuotaPeriodKey (QuotaSettings.Period config) in
    let key := GetQuotaKey identifier periodKey in
    Set_ key (VInt 0) 0.

(** The loop of [GetUsageHistory] over [periods], filling the map [history]. *)
Fixpoint usageHistory (identifier : string) (periods : list string) (history : gmap string Z)
  : M (gmap string Z) :=
  match periods with
  | [] => ret history
  | period :: rest =>
      let key := GetQuotaKey identifier period in
      let* (usageStr, err) := Get key in
      match err with
      | Some _ => usageHistory identifier rest (<[period := 0]> history)
      | None =>
          match GoStr.ParseInt usageStr with
          | None => usageHistory identifier rest (<[period := 0]> history)
          | Some usage => usageHistory identifier rest (<[period := usage]> history)
          end
      end
  end.

Definition GetUsageHistory (config : QuotaSettings.t) (identifier : string)
    (periods : list string) : M (option (gmap string Z) * error) :=
  if negb (QuotaSettings.Enabled config) then ret (None, None)
  else
    let* history := usageHistory identifier periods ∅ in
    ret (Some history, None).

End Administration.

(** ** Statements of the specification that are compared with the code *)

(** The usage the store holds under [key], as [GetQuotaInfo] reads it: an absent key and
    a value that is no integer both count as 0. *)
Definition stored_usage (d : gmap string Redis.Entry) (key : string) : Z :=
  match d !! key with
  | Some e => match GoStr.ParseInt (Redis.value e) with Some v => v | None => 0 end
  | None => 0
  end.

(** The usage the next read of [key] yields in the world [w]: a read that fails counts
    as 0 too. *)
Definition usage_read (w : World) (key : string) : Z :=
  match faults w (cmds w) with
  | Redis.Healthy => stored_usage (db w) key
  | _ => 0
  end.

(** The entry a successful [Set] leaves in the store. *)
Definition savedEntry (value : string) (expiration : Z) : Redis.Entry :=
  {| Redis.value := value;
     Redis.ttl := if 0 <? expiration
                  then Some (F64.int_of_float64 (GoTime.Seconds expiration)) else None |}.

(** The store accepts the expiry of a [Set]: there is none, or it is of at least one
    whole second.  SETEX with seconds that are not positive is answered by an error. *)
Definition expiryAccepted (expiration : Z) : bool :=
  negb (0 <? expiration) || (0 <? F64.int_of_float64 (GoTime.Seconds expiration)).

(** The error [Set] returns when the store refuses the expiry. *)
Definition expiryRefused : string := "redis error: ERR invalid expire time in 'setex' command".

(** The command [Set] sends. *)
Definition setCommand (key value : string) (expiration : Z) : Redis.Cmd :=
  if 0 <? expiration
  then Redis.SETEX key (F64.int_of_float64 (GoTime.Seconds expiration)) value
  else Redis.SET key value.


Definition ttl_of (d : gmap string Redis.Entry) (key : string) : option Z :=
  match d !! key with
  | Some e => Redis.ttl e
  | None => None
  end.

(** What the next command does to the store, and what the client gets back. *)
Definition delivered (f : Redis.Fault) (c : Redis.Cmd) (d : gmap string Redis.Entry)
  : gmap string Redis.Entry :=
  match f with
  | Redis.RequestLost => d
  | _ => snd (Redis.exec c d)
  end.

Definition answer (f : Redis.Fault) (c : Redis.Cmd) (d : gmap string Redis.Entry)
  : string * error :=
  match f with
  | Redis.Healthy => readResponse (fst (Redis.exec c d))
  | Redis.RequestLost => ("", Some "write: broken pipe")
  | Redis.ReplyLost => ("", Some "read: connection reset")
  end.

(** A rule matches a request when the identifier extracted for it is not empty:
    [ServeHTTP] skips the empty ones. *)
Definition matches (req : Request) (c : IdentifierConfig.t) : Prop :=
  extractIdentifier req c <> "".

Definition is_sentinel (v : string) : bool :=
  String.eqb v "sk-unknown" || String.eqb v "anonymous" || String.eqb v "guest".

(** The Header rule as the specification words it: presence of the header decides
    which of the two cases applies. *)
Definition header_rule_as_specified (req : Request) (c : IdentifierConfig.t) : Prop :=
  match Header req !! GoStr.CanonicalMIMEHeaderKey (IdentifierConfig.Name c) with
  | Some (v :: _) =>
      (matches req c <-> v = IdentifierConfig.Value c)
      /\ (v = IdentifierConfig.Value c -> extractIdentifier req c = v)
  | _ =>
      (matches req c <-> is_sentinel (IdentifierConfig.Value c) = true)
      /\ (is_sentinel (IdentifierConfig.Value c) = true ->
          extractIdentifier req c = IdentifierConfig.Value c)
  end.

(** The invariant of a token bucket: [0 <= tokens <= burst], as the comparisons of
    the program's own [float64] values. *)
Definition within_burst (b : TokenBucket) : Prop :=
  (0 <=? Tokens b)%float = true
  /\ (Tokens b <=? F64.float64_of_int (Burst b))%float = true.

Section ReadError.
Context {rt : GoRuntime}.

(** The store fails one of the two reads of [getBucket]: the read of the tokens, or,
    when that one delivered a number, the read of the instant of the last refill. *)
Definition read_error (key : string) (w : World) : Prop :=
  match Get (key ++ ":tokens") w with
  | (_, Some _, _) => True
  | (data, None, w1) =>
      match ParseFloat data with
      | None => False
      | Some _ =>
          match Get (key ++ ":last_refill") w1 with
          | (_, Some _, _) => True
          | (_, None, _) => False
          end
      end
  end.

End ReadError.

(** ** Statements about the code beyond the specification *)

(** The last rule of [ids] whose manager key is [key]. *)
Fixpoint lastRule (key : string) (ids : list IdentifierConfig.t) : option IdentifierConfig.t :=
  match ids with
  | [] => None
  | ic :: rest =>
      match lastRule key rest with
      | Some r => Some r
      | None => if String.eqb (managerKey ic) key then Some ic else None
      end
  end.

(** No rule of the plugin yields an identifier for the request. *)
Definition unmatched (q : quotaPlugin) (req : Request) : bool :=
  forallb (fun km => String.eqb (extractIdentifier req (config (snd km))) "")
    (map_to_list (managers q)).

(** The events of a request that is not passed on: no counter is incremented, no
    expiry is set on one, the downstream handler is not invoked. *)
Definition inert (e : Event) : Prop :=
  match e with
  | EvCmd (Redis.INCRBY _ _) | EvCmd (Redis.EXPIRE _ _) | EvNext => False
  | _ => True
  end.


(** The decision [ServeHTTP] takes on what [findMatch] found: the request is passed on. *)
Definition passes (found : option (QuotaResponse * IdentifierManager)) : bool :=
  match found with
  | Some (response, _) => Allowed response
  | None => false
  end.

(** The headers [writeQuotaHeaders] sets for the rate limit, in the order it sets them. *)
Definition rateHeaders (info : RateLimitInfo) : list Event :=
  [EvHeader (GoStr.CanonicalMIMEHeaderKey "X-RateLimit-Limit") (GoStr.FormatInt (rli_Limit info));
   EvHeader (GoStr.CanonicalMIMEHeaderKey "X-RateLimit-Remaining")
     (GoStr.FormatInt (rli_Available info));
   EvHeader (GoStr.CanonicalMIMEHeaderKey "X-RateLimit-Reset")
     (GoStr.FormatInt (GoTime.Unix (rli_ResetTime info)))]
  ++ (if 0 <? rli_RetryAfter info
      then [EvHeader (GoStr.CanonicalMIMEHeaderKey "Retry-After")
              (GoStr.FormatInt (F64.int_of_float64 (GoTime.Seconds (rli_RetryAfter info))))]
      else []).

Definition rateHeaderEvents (response : QuotaResponse) : list Event :=
  match RateLimit response with Some info => rateHeaders info | None => [] end.

(** The headers it sets for the quota. *)
Definition quotaHeaders (info : QuotaInfo) : list Event :=
  [EvHeader (GoStr.CanonicalMIMEHeaderKey "X-Quota-Limit") (GoStr.FormatInt (qi_Limit info));
   EvHeader (GoStr.CanonicalMIMEHeaderKey "X-Quota-Used") (GoStr.FormatInt (qi_Used info));
   EvHeader (GoStr.CanonicalMIMEHeaderKey "X-Quota-Remaining")
     (GoStr.FormatInt (qi_Remaining info));
   EvHeader (GoStr.CanonicalMIMEHeaderKey "X-Quota-Reset")
     (GoStr.FormatInt (GoTime.Unix (qi_ResetTime info)))].

(** [WriteHeader code] returns in [w]: a status was written before (the call is then
    ignored), or the code is an HTTP status. *)
Definition headerReturns (code : Z) (w : World) : bool :=
  match status w with Some _ => true | None => validStatus code end.

(** The body of a denial. *)
Definition denialBody (response : QuotaResponse) : string :=
  if String.eqb (ResponseBody response) "" then Reason response else ResponseBody response.

(** The store can add [amount] to the counter under [key]: the key is absent, or holds
    a decimal integer, and the sum fits an int64. *)
Definition counter_accepts (d : gmap string Redis.Entry) (key : string) (amount : Z) : Prop :=
  match d !! key with
  | None => GoStr.in_int64 amount = true
  | Some e =>
      exists v, Redis.as_integer (Redis.value e) = Some v /\ GoStr.in_int64 (v + amount) = true
  end.

(** The store answers the next [n] commands. *)
Definition healthy (w : World) (n : nat) : Prop :=
  forall i, (i < n)%nat -> faults w (cmds w + i)%nat = Redis.Healthy.

Section Windows.
Context {rt : GoRuntime}.

(** The next [n] readings of the clock fall in the quota window the first one falls in. *)
Definition same_window (period : string) (w : World) (n : nat) : Prop :=
  forall i, (i < n)%nat ->
    periodLabel period (clock w (ticks w + i)%nat) = periodLabel period (clock w (ticks w)).

(** The seconds [ConsumeQuota] hands to EXPIRE when it creates a counter in [w]. *)
Definition expirySeconds (config : QuotaSettings.t) (w : World) : Z :=
  F64.int_of_float64
    (GoTime.Seconds (GoTime.Sub (nextReset config (clock w (S (ticks w))))
                       (clock w (S (S (ticks w)))))).

End Windows.

(** A counter that stood at [old] survives the EXPIRE of [ConsumeQuota]: none is sent
    for a counter that is not new, and the store deletes the counter when the seconds
    it is handed are not positive. *)
Definition counterKept (old secs : Z) : bool := negb (old =? 0) || (0 <? secs).

(** The keys outside [K] hold in [w'] what they hold in [w]. *)
Definition keeps (K : string -> Prop) (w w' : World) : Prop :=
  forall k, ~ K k -> db w' !! k = db w !! k.

(** The two keys of the bucket of an identifier. *)
Definition bucket_key (identifier k : string) : Prop :=
  k = (GetRateLimitKey identifier ++ ":tokens")%string
  \/ k = (GetRateLimitKey identifier ++ ":last_refill")%string.

Section Keys.
Context {rt : GoRuntime}.

(** The keys of an identifier: those of its bucket and its quota counters, one for
    each label that [GetQuotaPeriodKey] computes for some period at some instant. *)
Definition identifier_key (identifier k : string) : Prop :=
  bucket_key identifier k
  \/ exists period now, k = GetQuotaKey identifier (periodLabel period now).

(** The keys of the identifiers the rules of the plugin extract from the request. *)
Definition request_key (q : quotaPlugin) (req : Request) (k : string) : Prop :=
  exists key m,
    managers q !! key = Some m
    /\ extractIdentifier req (config m) <> ""
    /\ identifier_key (extractIdentifier req (config m)) k.

End Keys.

(** The bucket keys, of whatever identifier. *)
Definition any_bucket_key (k : string) : Prop := exists identifier, bucket_key identifier k.

(** ** Scenarios used by the examples *)

#[local] Existing Instance Sample.runtime.

Definition anonymousRule : IdentifierConfig.t :=
  IdentifierConfig.mk "Header" "X-User-ID" "anonymous"
    (RateLimitConfig.mk true 5 5 "1m" 0 "") (QuotaSettings.mk false 0 "" 0 "").

(** A request that carries [X-User-ID:] with an empty value. *)
Definition emptyUserHeader : Request :=
  mkRequest {[ "X-User-Id" := [""] ]} "10.0.0.1:51234" ∅ [].

(** The deny status as the specification words it: the configured one when positive. *)
Definition specified_status (configured fallback : Z) : Z :=
  if 0 <? configured then configured else fallback.

Definition storeWith (entries : list (string * string)) : gmap string Redis.Entry :=
  list_to_map (map (fun kv => (fst kv, {| Redis.value := snd kv; Redis.ttl := None |})) entries).

(** A world as [Sample.world], with the store holding [entries]. *)
Definition worldWith (entries : list (string * string)) (t0 step : Z) : World :=
  mkWorld (storeWith entries) (fun _ => Redis.Healthy) 0 (fun n => t0 + step * Z.of_nat n) 0
    ∅ None "" [].

Definition noRateLimit : RateLimitConfig.t := RateLimitConfig.mk false 0 0 "" 0 "".

(** An IP rule with a daily quota of one request and the deny status -1. *)
Definition ipQuotaRule : IdentifierConfig.t :=
  IdentifierConfig.mk "IP" "" "" noRateLimit (QuotaSettings.mk true 1 "Daily" (-1) "").

Definition ipQuotaPlugin : quotaPlugin :=
  mkPlugin (mkConfig "localhost:6379" [ipQuotaRule])
    {[ "IP::" := newManager ipQuotaRule ]}.

Definition quotaSpent : World :=
  worldWith [("quota:10.0.0.1:2024-03-15", "1")] Sample.noon 1000.



(** The same rule with the deny status 402. *)
Definition ipPaymentRule : IdentifierConfig.t :=
  IdentifierConfig.mk "IP" "" "" noRateLimit (QuotaSettings.mk true 1 "Daily" 402 "").

Definition ipPaymentPlugin : quotaPlugin :=
  mkPlugin (mkConfig "localhost:6379" [ipPaymentRule])
    {[ "IP::" := newManager ipPaymentRule ]}.

Definition paymentCheck : QuotaResponse * error * World :=
  checkIdentifier (newManager ipPaymentRule) "10.0.0.1" quotaSpent.

(** What a lookup resolved to: the rule key and the identifier. *)
Definition resolved (found : option (QuotaResponse * IdentifierManager))
  : option (string * string) :=
  option_map (fun rm => (IdentifierType (fst rm), Identifier (fst rm))) found.

(** The resolver as the specification words it: the rules in configured order, the
    first one that yields a non-empty identifier wins. *)
Fixpoint resolve_in_configured_order (rules : list IdentifierConfig.t) (req : Request)
  : option (string * string) :=
  match rules with
  | [] => None
  | rule :: rest =>
      let identifier := extractIdentifier req rule in
      if String.eqb identifier "" then resolve_in_configured_order rest req
      else Some (managerKey rule, identifier)
  end.

(** Two rules: a Header rule whose expected value is a sentinel, then an IP rule. *)
Definition dailyQuota : QuotaSettings.t := QuotaSettings.mk true 100 "Daily" 0 "".

Definition sentinelRule : IdentifierConfig.t :=
  IdentifierConfig.mk "Header" "X-User-ID" "anonymous" noRateLimit dailyQuota.

Definition ipRule : IdentifierConfig.t :=
  IdentifierConfig.mk "IP" "" "" noRateLimit dailyQuota.

Definition twoRules : Config := mkConfig "localhost:6379" [sentinelRule; ipRule].

Definition twoRulesPlugin : quotaPlugin :=
  match New twoRules with
  | (Some plugin, _) => plugin
  | (None, _) => mkPlugin twoRules ∅
  end.

(** Five tokens of burst, ten per minute. *)
Definition tenPerMinute : RateLimitConfig.t := RateLimitConfig.mk true 10 5 "1m" 0 "".


(** A bucket for alice that was emptied at [Sample.noon]. *)
Definition emptiedBucket : World :=
  worldWith [("ratelimit:alice:tokens", "0");
             ("ratelimit:alice:last_refill", "1710504000000000000")] Sample.noon 1000.

(** [occurs_before P Q t]: some event in [P] is followed, later in [t], by one in [Q]. *)
Fixpoint occurs_before (P Q : Event -> bool) (t : list Event) : bool :=
  match t with
  | [] => false
  | e :: rest => (P e && existsb Q rest) || occurs_before P Q rest
  end.

Definition is_downstream (e : Event) : bool :=
  match e with EvNext => true | _ => false end.

Definition is_consume (e : Event) : bool :=
  match e with EvCmd (Redis.INCRBY _ 1) => true | _ => false end.

(** The order of the last two steps as the specification words it: the quota is
    consumed after the downstream handler was invoked. *)
Definition consume_after_downstream (t : list Event) : bool :=
  occurs_before is_downstream is_consume t.

(** One rule with both engines enabled. *)
Definition limitedRule : IdentifierConfig.t :=
  IdentifierConfig.mk "Header" "X-User-ID" "anonymous" tenPerMinute dailyQuota.

Definition limitedPlugin : quotaPlugin :=
  mkPlugin (mkConfig "localhost:6379" [limitedRule])
    {[ "Header:X-User-ID:anonymous" := newManager limitedRule ]}.

Definition limitedRun : unit * World :=
  ServeHTTP ["Header:X-User-ID:anonymous"] limitedPlugin Sample.noHeaders
    (Sample.world Sample.noon 1000).

Definition limitedResponse : QuotaResponse :=
  withIdentifierType
    (fst (fst (checkIdentifier (newManager limitedRule) "anonymous"
                 (Sample.world Sample.noon 1000))))
    "Header:X-User-ID:anonymous".

Definition noQuota : QuotaSettings.t := QuotaSettings.mk false 0 "" 0 "".

(** [s] seconds after [Sample.noon]. *)
Definition later (s : Z) : Z := Sample.noon + s * GoTime.Second.

(** A bucket of the rule [tenPerMinute], full, last refilled at [Sample.noon]. *)
Definition fullBucket : TokenBucket := mkBucket 5 Sample.noon 10 5 GoTime.Minute.

(** A rule whose refill period is zero: [Validate] accepts it. *)
Definition zeroPeriod : RateLimitConfig.t := RateLimitConfig.mk true 10 20 "0s" 0 "".

Definition zeroPeriodRule : IdentifierConfig.t :=
  IdentifierConfig.mk "IP" "" "" zeroPeriod noQuota.

(** A bucket of that rule holding five tokens. *)
Definition stalledBucket : TokenBucket := mkBucket 5 Sample.noon 10 20 0.

(** A rule whose refill period is negative: [Validate] accepts it too. *)
Definition backwardPeriod : RateLimitConfig.t := RateLimitConfig.mk true 10 5 "-1m" 0 "".

Definition backwardRule : IdentifierConfig.t :=
  IdentifierConfig.mk "IP" "" "" backwardPeriod noQuota.

Definition backwardBucket : TokenBucket :=
  fst (fst (createNewBucket backwardPeriod (Sample.world Sample.noon 1000))).

(** A world whose store loses every request; the clock advances by a millisecond at
    every reading. *)
Definition storeDown : World :=
  mkWorld ∅ (fun _ => Redis.RequestLost) 0 (fun n => Sample.noon + 1000000 * Z.of_nat n) 0
    ∅ None "" [].

(** One token of burst and a refill period of minus one second. *)
Definition hastyLimit : RateLimitConfig.t := RateLimitConfig.mk true 1 1 "-1s" 0 "".

Definition hastyRule : IdentifierConfig.t := IdentifierConfig.mk "IP" "" "" hastyLimit noQuota.

(** A rule like [tenPerMinute] and no quota. *)
Definition steadyRule : IdentifierConfig.t := IdentifierConfig.mk "IP" "" "" tenPerMinute noQuota.

(** ** Scenarios of the further properties *)

(** Two rules that differ in their limits and share their key. *)
Definition strictRule : IdentifierConfig.t :=
  IdentifierConfig.mk "Header" "X-User-ID" "alice"
    (RateLimitConfig.mk true 1 1 "1m" 0 "") (QuotaSettings.mk false 0 "" 0 "").

Definition laxRule : IdentifierConfig.t :=
  IdentifierConfig.mk "Header" "X-User-ID" "alice"
    (RateLimitConfig.mk true 100 100 "1m" 0 "") (QuotaSettings.mk false 0 "" 0 "").

Definition duplicateRules : Config := mkConfig "localhost:6379" [strictRule; laxRule].

Definition duplicatePlugin : quotaPlugin :=
  match New duplicateRules with
  | (Some plugin, _) => plugin
  | (None, _) => mkPlugin duplicateRules ∅
  end.

(** A configuration whose third rule is not valid: it enables nothing. *)
Definition idleRule : IdentifierConfig.t :=
  IdentifierConfig.mk "IP" "" "" (RateLimitConfig.mk false 0 0 "" 0 "")
    (QuotaSettings.mk false 0 "" 0 "").

Definition thirdInvalid : Config :=
  mkConfig "localhost:6379" [strictRule; laxRule; idleRule; idleRule].

(** A plugin with the single rule [strictRule]. *)
Definition alicePlugin : quotaPlugin :=
  mkPlugin (mkConfig "localhost:6379" [strictRule])
    {[ "Header:X-User-ID:alice" := newManager strictRule ]}.

(** A Query rule with a default value, beside [strictRule]. *)
Definition queryRule : IdentifierConfig.t :=
  IdentifierConfig.mk "Query" "api_key" "public"
    (RateLimitConfig.mk true 5 5 "1m" 0 "") (QuotaSettings.mk false 0 "" 0 "").

Definition queryPlugin : quotaPlugin :=
  mkPlugin (mkConfig "localhost:6379" [strictRule; queryRule])
    {[ "Header:X-User-ID:alice" := newManager strictRule;
       "Query:api_key:public" := newManager queryRule ]}.

(** A daily quota of three requests, of which two are used. *)
Definition threeADay : QuotaSettings.t := QuotaSettings.mk true 3 "Daily" 0 "".

Definition twoUsed : World :=
  worldWith [("quota:10.0.0.1:2024-03-15", "2")] Sample.noon 1000.

(** The counters of two days. *)
Definition twoDays : World :=
  worldWith [("quota:10.0.0.1:2024-03-14", "7"); ("quota:10.0.0.1:2024-03-15", "2")]
    Sample.noon 1000.

(** A bucket of [tenPerMinute] with three tokens left. *)
Definition threeLeft : TokenBucket := mkBucket 3 Sample.noon 10 5 GoTime.Minute.

(** A request that names its address in X-Real-IP, without a port. *)
Definition realIPv6 : Request :=
  mkRequest {[ "X-Real-Ip" := ["2001:db8::1"] ]} "10.0.0.1:51234" ∅ [].

(** A request that came through a proxy which put a no-break space (U+00A0, the bytes
    C2 A0) before the address. *)
Definition forwardedNBSP : Request :=
  mkRequest {[ "X-Forwarded-For"
               := [String (ascii_of_nat 194) (String (ascii_of_nat 160) "203.0.113.7, 10.0.0.1")] ]}
    "10.0.0.1:51234" ∅ [].

(** A bucket with a refill period of 200 ms. *)
Definition blinkBucket : TokenBucket := mkBucket 3 Sample.noon 10 5 (200 * 1000000).

(** An IP rule with the quota [threeADay], and a world whose clock stands still. *)
Definition ipThreeRule : IdentifierConfig.t :=
  IdentifierConfig.mk "IP" "" "" noRateLimit threeADay.

Definition ipThreePlugin : quotaPlugin :=
  mkPlugin (mkConfig "localhost:6379" [ipThreeRule]) {[ "IP::" := newManager ipThreeRule ]}.

Definition stillNoon : World :=
  worldWith [("quota:10.0.0.1:2024-03-15", "2")] Sample.noon 0.

(** What the rule answers for the address 10.0.0.1 in that world. *)
Definition thirdRequest : QuotaResponse :=
  withIdentifierType
    (fst (fst (checkIdentifier (newManager ipThreeRule) "10.0.0.1" stillNoon))) "IP::".

(** A weekly quota. *)
Definition weeklyQuota : QuotaSettings.t := QuotaSettings.mk true 100 "Weekly" 0 "".

(** A bucket of [tenPerMinute] that the store reports as holding a thousand tokens. *)
Definition overfull : World :=
  worldWith [("ratelimit:alice:tokens", "1000");
             ("ratelimit:alice:last_refill", "1710504000000000000")] Sample.noon 1000.

(** * Proofs *)

Local Open Scope list_scope.

(** ** The identifier rules *)

Lemma string_eqb_false_iff (a b : string) : String.eqb a b = false <-> a <> b.
Proof. rewrite <- String.eqb_neq. reflexivity. Qed.

Lemma Header_Get_empty (h : gmap string (list string)) (key : string) :
  Header_Get h key = "" <->
  h !! GoStr.CanonicalMIMEHeaderKey key = None
  \/ h !! GoStr.CanonicalMIMEHeaderKey key = Some []
  \/ exists vs, h !! GoStr.CanonicalMIMEHeaderKey key = Some ("" :: vs).
Proof.
  unfold Header_Get.
  destruct (h !! GoStr.CanonicalMIMEHeaderKey key) as [[|v vs]|]; split; intros H; auto.
  - subst v. right. right. exists vs. reflexivity.
  - destruct H as [H|[H|[vs' H]]]; try discriminate. injection H as -> _. reflexivity.
Qed.

Lemma is_sentinel_nonempty (v : string) : is_sentinel v = true -> v <> "".
Proof. intros H ->. discriminate H. Qed.

(** C5 (as amended).  For a Header rule let [value] be what [req.Header.Get] returns
    for the rule's name, i.e. the first value of the header, or the empty string when
    the header is absent.  When [value] is not empty the rule matches exactly when
    [value] equals the expected value, and the identifier is [value]; when [value] is
    empty (header absent, or present with an empty first value) the rule matches
    exactly when the expected value is one of the three sentinels, and the identifier
    is the expected value. *)
Theorem extractIdentifier_header (req : Request) (c : IdentifierConfig.t) :
  IdentifierConfig.Type_ c = "Header" ->
  let value := Header_Get (Header req) (IdentifierConfig.Name c) in
  (value <> "" ->
     (matches req c <-> value = IdentifierConfig.Value c)
     /\ (value = IdentifierConfig.Value c -> extractIdentifier req c = value))
  /\ (value = "" ->
     (matches req c <-> is_sentinel (IdentifierConfig.Value c) = true)
     /\ (is_sentinel (IdentifierConfig.Value c) = true ->
         extractIdentifier req c = IdentifierConfig.Value c)).
Proof.
  intros HT value. unfold matches, extractIdentifier. rewrite HT. simpl String.eqb.
  fold value. fold (is_sentinel (IdentifierConfig.Value c)).
  split; intros Hv.
  - apply string_eqb_false_iff in Hv. rewrite Hv. simpl negb.
    destruct (String.eqb_spec value (IdentifierConfig.Value c)) as [E|E].
    + apply string_eqb_false_iff in Hv. split; [tauto|auto].
    + split; [split; intros; congruence|intros; congruence].
  - rewrite Hv. simpl.
    destruct (is_sentinel (IdentifierConfig.Value c)) eqn:S.
    + split; [split; auto; intros _; now apply is_sentinel_nonempty|auto].
    + split; [split; intros; congruence|intros; congruence].
Qed.

Lemma extractIdentifier_header_witness :
  matches emptyUserHeader anonymousRule
  /\ extractIdentifier emptyUserHeader anonymousRule = "anonymous".
Proof.
  destruct (extractIdentifier_header emptyUserHeader anonymousRule eq_refl) as [_ H].
  destruct (H eq_refl) as [[_ Hm] Hid].
  split; [apply Hm; reflexivity|apply Hid; reflexivity].
Defined.

(** C5, counterexample: the header is present, its value (empty) differs from the
    expected value, and yet the rule matches through the sentinel fallback. *)
Lemma header_rule_counterexample :
  ~ header_rule_as_specified emptyUserHeader anonymousRule.
Proof.
  unfold header_rule_as_specified.
  change (Header emptyUserHeader !! GoStr.CanonicalMIMEHeaderKey
            (IdentifierConfig.Name anonymousRule))
    with (({[ "X-User-Id" := [""] ]} : gmap string (list string)) !! "X-User-Id").
  rewrite lookup_singleton_eq.
  intros [[Hm _] _].
  assert (M : matches emptyUserHeader anonymousRule) by (unfold matches; vm_compute; discriminate).
  specialize (Hm M). discriminate Hm.
Qed.

(** ** Reasoning about computations in [M] *)

Lemma pair_eta_fst {A B} (x : A * B) (a : A) : fst x = a -> x = (a, snd x).
Proof. destruct x; simpl; congruence. Qed.

Lemma bind_eq {A B} (m : M A) (k : A -> M B) (w : World) :
  bind m k w = k (fst (m w)) (snd (m w)).
Proof. unfold bind. destruct (m w); reflexivity. Qed.

(** [frames R m]: whatever the initial world, [m] moves it along [R]. *)
Definition frames {A} (R : World -> World -> Prop) (m : M A) : Prop :=
  forall w, R w (snd (m w)).

Section Frames.
Variable R : World -> World -> Prop.
Hypothesis R_refl : forall w, R w w.
Hypothesis R_trans : forall a b c, R a b -> R b c -> R a c.

Lemma frames_ret {A} (a : A) : frames R (ret a).
Proof. intros w. apply R_refl. Qed.

Lemma frames_bind {A B} (m : M A) (k : A -> M B) :
  frames R m -> (forall a, frames R (k a)) -> frames R (bind m k).
Proof.
  intros Hm Hk w. rewrite bind_eq. eapply R_trans; [apply Hm|apply Hk].
Qed.

End Frames.

(** The events a step appends all satisfy [P]. *)
Definition appends (P : Event -> Prop) (w w' : World) : Prop :=
  exists l, trace w' = trace w ++ l /\ Forall P l.

Lemma appends_refl P w : appends P w w.
Proof. exists []. split; [symmetry; apply app_nil_r|constructor]. Qed.

Lemma appends_trans P a b c : appends P a b -> appends P b c -> appends P a c.
Proof.
  intros (l1 & E1 & F1) (l2 & E2 & F2). exists (l1 ++ l2). split.
  - rewrite E2, E1. symmetry. apply app_assoc.
  - apply Forall_app; auto.
Qed.

Lemma appends_weaken (P Q : Event -> Prop) w w' :
  (forall e, P e -> Q e) -> appends P w w' -> appends Q w w'.
Proof.
  intros H (l & E & F). exists l. split; [exact E|]. eapply Forall_impl; eauto.
Qed.

Lemma appends_one (P : Event -> Prop) w w' e :
  trace w' = trace w ++ [e] -> P e -> appends P w w'.
Proof. intros E H. exists [e]. split; [exact E|constructor; [exact H|constructor]]. Qed.

Lemma appends_nil (P : Event -> Prop) w w' : trace w' = trace w -> appends P w w'.
Proof. intros E. exists []. split; [rewrite E; symmetry; apply app_nil_r|constructor]. Qed.

(** The environment (fault oracle, clock) never changes, and counters only grow. *)
Definition same_env (w w' : World) : Prop :=
  faults w' = faults w /\ clock w' = clock w
  /\ (cmds w <= cmds w')%nat /\ (ticks w <= ticks w')%nat.

Definition same_response (w w' : World) : Prop :=
  header w' = header w /\ status w' = status w /\ body w' = body w.

(** A step that uses the store and the clock, and logs only events in [P]. *)
Definition step (P : Event -> Prop) (w w' : World) : Prop :=
  same_env w w' /\ same_response w w' /\ appends P w w'.

(** A step that moreover leaves the store as it is. *)
Definition quiet (P : Event -> Prop) (w w' : World) : Prop :=
  step P w w' /\ db w' = db w.

Definition is_header (e : Event) : Prop := exists k v, e = EvHeader k v.

(** A step that only touches the response headers. *)
Definition header_step (w w' : World) : Prop :=
  same_env w w' /\ db w' = db w /\ cmds w' = cmds w /\ ticks w' = ticks w
  /\ status w' = status w /\ body w' = body w
  /\ appends is_header w w'.

Lemma same_env_refl w : same_env w w.
Proof. unfold same_env. auto. Qed.

Lemma same_env_trans a b c : same_env a b -> same_env b c -> same_env a c.
Proof. unfold same_env. intros (?&?&?&?) (?&?&?&?). repeat split; try congruence; lia. Qed.

Lemma same_response_refl w : same_response w w.
Proof. unfold same_response. auto. Qed.

Lemma same_response_trans a b c : same_response a b -> same_response b c -> same_response a c.
Proof. unfold same_response. intros (?&?&?) (?&?&?). repeat split; congruence. Qed.

Lemma step_refl P w : step P w w.
Proof. split; [apply same_env_refl|split; [apply same_response_refl|apply appends_refl]]. Qed.

Lemma step_trans P a b c : step P a b -> step P b c -> step P a c.
Proof.
  intros (?&?&?) (?&?&?). split; [eapply same_env_trans; eauto|].
  split; [eapply same_response_trans; eauto|eapply appends_trans; eauto].
Qed.

Lemma quiet_refl P w : quiet P w w.
Proof. split; [apply step_refl|reflexivity]. Qed.

Lemma quiet_trans P a b c : quiet P a b -> quiet P b c -> quiet P a c.
Proof. intros [? ?] [? ?]. split; [eapply step_trans; eauto|congruence]. Qed.

Lemma header_step_refl w : header_step w w.
Proof. unfold header_step. repeat split; auto using same_env_refl, appends_refl; lia. Qed.

Lemma header_step_trans a b c : header_step a b -> header_step b c -> header_step a c.
Proof.
  intros (?&?&?&?&?&?&?) (?&?&?&?&?&?&?).
  split; [eapply same_env_trans; eauto|].
  repeat split; try congruence. eapply appends_trans; eauto.
Qed.

Lemma step_weaken (P Q : Event -> Prop) a b :
  (forall e, P e -> Q e) -> step P a b -> step Q a b.
Proof.
  intros H (?&?&?). split; [assumption|split; [assumption|]].
  eapply appends_weaken; eassumption.
Qed.

Lemma quiet_weaken (P Q : Event -> Prop) a b :
  (forall e, P e -> Q e) -> quiet P a b -> quiet Q a b.
Proof. intros H [? ?]. split; [eapply step_weaken; eassumption|assumption]. Qed.

Lemma quiet_step P a b : quiet P a b -> step P a b.
Proof. intros [? _]. assumption. Qed.

Lemma frames_weaken {A} (R S : World -> World -> Prop) (m : M A) :
  (forall a b, R a b -> S a b) -> frames R m -> frames S m.
Proof. intros H Hm w. apply H, Hm. Qed.

Create HintDb frames.

#[local] Hint Resolve step_refl step_trans quiet_refl quiet_trans
  header_step_refl header_step_trans : frames.

(** Structural steps of a frame proof: binds, returns, and the case analyses of the
    program text. *)
Ltac frame_step :=
  match goal with
  | |- frames _ (bind _ _) => apply frames_bind; [solve [eauto with frames] | | intros ?]
  | |- frames _ (ret _) => apply frames_ret; solve [eauto with frames]
  | |- frames _ (match ?x with _ => _ end) => destruct x eqn:?
  | |- frames _ (let (_, _) := ?x in _) => destruct x eqn:?
  | |- frames _ _ => solve [eauto with frames]
  end.

Ltac frame_auto := repeat frame_step.

Ltac world_step :=
  repeat split; simpl; auto using same_env_refl, same_response_refl; try lia.

Lemma frames_Now P : frames (quiet P) Now.
Proof.
  intros w. unfold Now, quiet, step, same_env, same_response. simpl.
  repeat split; auto; try lia. apply appends_nil. reflexivity.
Qed.

Lemma frames_roundtrip P (c : Redis.Cmd) : P (EvCmd c) -> frames (step P) (roundtrip c).
Proof.
  intros HP w. unfold roundtrip, bind, emit, next_fault, get_db, set_db, ret. simpl.
  destruct (faults w (cmds w)); simpl; try destruct (Redis.exec c (db w)); simpl;
    (split; [unfold same_env; simpl; repeat split; auto; lia|
     split; [unfold same_response; simpl; auto|
     eapply appends_one; [simpl; reflexivity|exact HP]]]).
Qed.

Lemma frames_roundtrip_GET P (k : string) :
  P (EvCmd (Redis.GET k)) -> frames (quiet P) (roundtrip (Redis.GET k)).
Proof.
  intros HP w. split; [apply frames_roundtrip; exact HP|].
  unfold roundtrip, bind, emit, next_fault, get_db, set_db, ret. simpl.
  destruct (faults w (cmds w)); simpl; try destruct (db w !! k); reflexivity.
Qed.

Lemma frames_Get P (k : string) : P (EvCmd (Redis.GET k)) -> frames (quiet P) (Get k).
Proof.
  intros HP. unfold Get. apply frames_bind; eauto with frames.
  - apply frames_roundtrip_GET, HP.
  - intros [resp [e|]]; [destruct (Contains e "key not found")|]; apply frames_ret; eauto with frames.
Qed.

Lemma frames_quiet_step {A} P (m : M A) : frames (quiet P) m -> frames (step P) m.
Proof. apply frames_weaken. apply quiet_step. Qed.

#[local] Hint Resolve frames_Now : frames.

(** The commands of the limiter for one bucket, and those among them that only read. *)
Definition limiter_ev (key : string) (e : Event) : Prop :=
  exists c, e = EvCmd c
            /\ (Redis.cmd_key c = (key ++ ":tokens")%string
                \/ Redis.cmd_key c = (key ++ ":last_refill")%string).

Definition limiter_get (key : string) (e : Event) : Prop :=
  e = EvCmd (Redis.GET (key ++ ":tokens")) \/ e = EvCmd (Redis.GET (key ++ ":last_refill")).

(** The commands of the quota manager for one identifier. *)
Definition quota_ev (identifier : string) (e : Event) : Prop :=
  exists c label, e = EvCmd c /\ Redis.cmd_key c = GetQuotaKey identifier label.

Definition quota_get (identifier : string) (e : Event) : Prop :=
  exists label, e = EvCmd (Redis.GET (GetQuotaKey identifier label)).

Definition is_cmd (e : Event) : Prop := exists c, e = EvCmd c.

Lemma limiter_get_ev key e : limiter_get key e -> limiter_ev key e.
Proof. intros [->| ->]; eexists; split; eauto. Qed.

Lemma limiter_ev_cmd key e : limiter_ev key e -> is_cmd e.
Proof. intros (c & -> & _). eexists; reflexivity. Qed.

Lemma quota_get_ev id e : quota_get id e -> quota_ev id e.
Proof. intros [label ->]. eexists _, label. split; reflexivity. Qed.

Lemma quota_ev_cmd id e : quota_ev id e -> is_cmd e.
Proof. intros (c & label & -> & _). eexists; reflexivity. Qed.

Section EngineFrames.
Context {rt : GoRuntime}.

Lemma frames_createNewBucket P config : frames (quiet P) (createNewBucket config).
Proof. unfold createNewBucket. frame_auto. Qed.

#[local] Hint Resolve frames_createNewBucket : frames.

Lemma frames_getBucket config key : frames (quiet (limiter_get key)) (getBucket config key).
Proof.
  unfold getBucket.
  assert (H1 : frames (quiet (limiter_get key)) (Get (key ++ ":tokens")))
    by (apply frames_Get; left; reflexivity).
  assert (H2 : frames (quiet (limiter_get key)) (Get (key ++ ":last_refill")))
    by (apply frames_Get; right; reflexivity).
  frame_auto.
Qed.

Lemma frames_Set_ P key value expiration :
  (forall c, Redis.cmd_key c = key -> P (EvCmd c)) ->
  frames (step P) (Set_ key value expiration).
Proof.
  intros HP. unfold Set_.
  apply frames_bind; eauto with frames.
  - destruct (0 <? expiration); apply frames_roundtrip, HP; reflexivity.
  - intros [resp [e|]]; frame_auto.
Qed.

Lemma frames_saveBucket key bucket : frames (step (limiter_ev key)) (saveBucket key bucket).
Proof.
  unfold saveBucket.
  assert (H1 : forall v e, frames (step (limiter_ev key)) (Set_ (key ++ ":tokens") v e))
    by (intros; apply frames_Set_; intros c Hc; exists c; auto).
  assert (H2 : forall v e, frames (step (limiter_ev key)) (Set_ (key ++ ":last_refill") v e))
    by (intros; apply frames_Set_; intros c Hc; exists c; auto).
  frame_auto.
Qed.

Lemma frames_getBucket_ev config key : frames (step (limiter_ev key)) (getBucket config key).
Proof.
  eapply frames_weaken; [|apply frames_getBucket].
  intros a b H. apply quiet_step. eapply quiet_weaken; [apply limiter_get_ev|exact H].
Qed.

#[local] Hint Resolve frames_getBucket frames_getBucket_ev frames_saveBucket : frames.

Lemma frames_Now_step P : frames (step P) Now.
Proof. apply frames_quiet_step, frames_Now. Qed.

#[local] Hint Resolve frames_Now_step : frames.

Lemma frames_allowTokens config identifier n :
  frames (step (limiter_ev (GetRateLimitKey identifier))) (allowTokens config identifier n).
Proof. unfold allowTokens. frame_auto. Qed.

Lemma frames_GetLimitInfo config identifier :
  frames (quiet (limiter_get (GetRateLimitKey identifier))) (GetLimitInfo config identifier).
Proof. unfold GetLimitInfo. frame_auto. Qed.

Lemma frames_GetQuotaPeriodKey P period : frames (quiet P) (GetQuotaPeriodKey period).
Proof. unfold GetQuotaPeriodKey. frame_auto. Qed.

Lemma frames_getNextResetTime P config : frames (quiet P) (getNextResetTime config).
Proof. unfold getNextResetTime. frame_auto. Qed.

Lemma frames_Until P t : frames (quiet P) (Until t).
Proof. unfold Until. frame_auto. Qed.

#[local] Hint Resolve frames_GetQuotaPeriodKey frames_getNextResetTime frames_Until : frames.

Lemma frames_GetQuotaInfo config identifier :
  frames (quiet (quota_get identifier)) (GetQuotaInfo config identifier).
Proof.
  unfold GetQuotaInfo.
  assert (H : forall label, frames (quiet (quota_get identifier)) (Get (GetQuotaKey identifier label)))
    by (intros; apply frames_Get; eexists; reflexivity).
  frame_auto.
Qed.

#[local] Hint Resolve frames_GetQuotaInfo : frames.

Lemma frames_CheckQuota config identifier :
  frames (quiet (quota_get identifier)) (CheckQuota config identifier).
Proof. unfold CheckQuota. frame_auto. Qed.

Lemma frames_IncrBy P key value :
  P (EvCmd (Redis.INCRBY key value)) -> frames (step P) (IncrBy key value).
Proof.
  intros HP. unfold IncrBy. apply frames_bind; eauto with frames.
  - apply frames_roundtrip, HP.
  - intros [resp [e|]]; frame_auto.
Qed.

Lemma frames_Expire P key expiration :
  (forall c, Redis.cmd_key c = key -> P (EvCmd c)) -> frames (step P) (Expire key expiration).
Proof.
  intros HP. unfold Expire. apply frames_bind; eauto with frames.
  - apply frames_roundtrip, HP. reflexivity.
  - intros [resp [e|]]; frame_auto.
Qed.

Lemma frames_quota_quiet {A} identifier (m : M A) :
  frames (quiet (quota_get identifier)) m -> frames (step (quota_ev identifier)) m.
Proof.
  apply frames_weaken. intros a b H. apply quiet_step.
  eapply quiet_weaken; [apply quota_get_ev|exact H].
Qed.

Lemma frames_ConsumeQuota config identifier amount :
  frames (step (quota_ev identifier)) (ConsumeQuota config identifier amount).
Proof.
  unfold ConsumeQuota.
  assert (H1 : forall label v,
             frames (step (quota_ev identifier)) (IncrBy (GetQuotaKey identifier label) v))
    by (intros; apply frames_IncrBy; eexists _, label; split; reflexivity).
  assert (H2 : forall label v,
             frames (step (quota_ev identifier)) (Expire (GetQuotaKey identifier label) v))
    by (intros; apply frames_Expire; intros c Hc; exists c, label; auto).
  assert (H3 := frames_quota_quiet identifier (GetQuotaInfo config identifier)
                  (frames_GetQuotaInfo config identifier)).
  assert (H4 : forall p, frames (step (quota_ev identifier)) (GetQuotaPeriodKey p))
    by (intros; apply frames_quiet_step; auto with frames).
  assert (H5 : forall c, frames (step (quota_ev identifier)) (getNextResetTime c))
    by (intros; apply frames_quiet_step; auto with frames).
  assert (H6 : forall t, frames (step (quota_ev identifier)) (Until t))
    by (intros; apply frames_quiet_step; auto with frames).
  frame_auto.
Qed.

Lemma frames_limiter_cmd {A} key (m : M A) :
  frames (step (limiter_ev key)) m -> frames (step is_cmd) m.
Proof. apply frames_weaken. intros a b. apply step_weaken, limiter_ev_cmd. Qed.

Lemma frames_quota_cmd {A} identifier (m : M A) :
  frames (step (quota_ev identifier)) m -> frames (step is_cmd) m.
Proof. apply frames_weaken. intros a b. apply step_weaken, quota_ev_cmd. Qed.

Lemma frames_checkIdentifier manager identifier :
  frames (step is_cmd) (checkIdentifier manager identifier).
Proof.
  unfold checkIdentifier, limiterGate, Allow.
  assert (H1 : forall c n, frames (step is_cmd) (allowTokens c identifier n))
    by (intros; eapply frames_limiter_cmd, frames_allowTokens).
  assert (H2 : forall c, frames (step is_cmd) (GetLimitInfo c identifier)).
  { intros. eapply frames_limiter_cmd. eapply frames_weaken; [|apply frames_GetLimitInfo].
    intros a b H. apply quiet_step. eapply quiet_weaken; [apply limiter_get_ev|exact H]. }
  assert (H3 : forall c, frames (step is_cmd) (CheckQuota c identifier))
    by (intros; eapply frames_quota_cmd, frames_quota_quiet, frames_CheckQuota).
  frame_auto.
Qed.

#[local] Hint Resolve frames_checkIdentifier : frames.

Lemma frames_findMatch q req keys : frames (step is_cmd) (findMatch q req keys).
Proof. induction keys as [|key rest IH]; simpl; frame_auto. Qed.

Lemma frames_Header_Set key value : frames header_step (Header_Set key value).
Proof.
  intros w. unfold Header_Set, header_step. simpl.
  repeat split; auto using same_env_refl.
  eapply appends_one; [reflexivity|]. eexists _, _. reflexivity.
Qed.

#[local] Hint Resolve frames_Header_Set : frames.

Lemma frames_writeQuotaHeaders response : frames header_step (writeQuotaHeaders response).
Proof. unfold writeQuotaHeaders. frame_auto. Qed.

End EngineFrames.

#[local] Hint Resolve frames_createNewBucket frames_getBucket frames_getBucket_ev
  frames_saveBucket frames_Now_step frames_GetQuotaPeriodKey frames_getNextResetTime
  frames_Until frames_GetQuotaInfo frames_checkIdentifier frames_Header_Set : frames.

(** ** The decision and the deny status *)

Section Decision.
Context {rt : GoRuntime}.

Lemma checkIdentifier_result manager identifier w :
  let '(resp, err, w') := checkIdentifier manager identifier w in
  err = None
  /\ Identifier resp = identifier
  /\ (Allowed resp = false ->
      (Reason resp = "Rate limit exceeded"
       /\ ResponseCode resp
          = RateLimitConfig.ResponseReachedLimitCode (IdentifierConfig.RateLimit (config manager)))
      \/ (Reason resp = "Quota exceeded"
          /\ ResponseCode resp
             = QuotaSettings.ResponseReachedLimitCode (IdentifierConfig.Quota (config manager)))).
Proof.
  unfold checkIdentifier. unfold bind at 1.
  match goal with |- context [?m w] => destruct (m w) as [[allowed info] w1] end.
  destruct allowed; simpl.
  - unfold bind at 1.
    match goal with |- context [?m w1] => destruct (m w1) as [[qallowed qinfo] w2] end.
    destruct qallowed; simpl.
    + repeat split; auto; intros; discriminate.
    + repeat split; auto.
  - repeat split; auto.
Qed.

Lemma findMatch_Some q req keys w resp m w1 :
  findMatch q req keys w = (Some (resp, m), w1) ->
  exists key resp0,
    In key keys /\ managers q !! key = Some m
    /\ extractIdentifier req (config m) <> ""
    /\ checkIdentifier m (extractIdentifier req (config m)) w = (resp0, None, w1)
    /\ resp = withIdentifierType resp0 key.
Proof.
  induction keys as [|key rest IH]; simpl; [discriminate|].
  destruct (managers q !! key) as [manager|] eqn:Hk.
  - destruct (String.eqb_spec (extractIdentifier req (config manager)) "") as [E|E].
    + intros H. destruct (IH H) as (k & r & ? & ?). exists k, r. tauto.
    + unfold bind.
      destruct (checkIdentifier manager (extractIdentifier req (config manager)) w)
        as [[resp0 err] w'] eqn:Hc.
      pose proof (checkIdentifier_result manager (extractIdentifier req (config manager)) w) as R.
      rewrite Hc in R. destruct R as [-> _]. unfold ret. intros [= <- <- <-].
      exists key, resp0. repeat split; auto.
  - intros H. destruct (IH H) as (k & r & ? & ?). exists k, r. tauto.
Qed.

(** The status written by [WriteHeader code] followed by a body, on a response that
    has no status yet. *)
Definition written (code : Z) : option Z :=
  if validStatus code then Some (if informational code then StatusOK else code) else None.

Lemma WriteHeader_Write code data w :
  status w = None ->
  let w' := snd ((let* returned := WriteHeader code in
                  if returned then Write data else ret tt) w) in
  status w' = written code
  /\ body w' = (if validStatus code then (body w ++ data)%string else body w).
Proof.
  intros Hs. rewrite bind_eq. unfold WriteHeader, written. rewrite Hs.
  destruct (validStatus code); cbn [fst snd]; [|split; [exact Hs|reflexivity]].
  unfold Write. cbn [snd status body].
  destruct (informational code); split; reflexivity.
Qed.

Lemma ServeHTTP_denied order q req w resp m w1 :
  status w = None ->
  findMatch q req order w = (Some (resp, m), w1) ->
  Allowed resp = false ->
  let w' := snd (ServeHTTP order q req w) in
  status w' = written (denyStatus resp)
  /\ (validStatus (denyStatus resp) = false -> body w' = body w).
Proof.
  intros Hs Hf Ha w'. subst w'. unfold ServeHTTP. rewrite bind_eq, Hf. simpl fst. simpl snd.
  rewrite bind_eq, Ha. cbn [negb].
  pose proof (frames_findMatch q req order w) as (_ & (_ & S1 & B1) & _).
  rewrite Hf in S1, B1. simpl in S1, B1.
  pose proof (frames_writeQuotaHeaders resp w1) as (_ & _ & _ & _ & S2 & B2 & _).
  set (w2 := snd (writeQuotaHeaders resp w1)) in *.
  assert (S : status w2 = None) by congruence.
  rewrite bind_eq.
  match goal with |- context [snd (?m w2)] =>
    assert (S3 : status (snd (m w2)) = None /\ body (snd (m w2)) = body w);
      [|set (w3 := snd (m w2)) in *]
  end.
  { destruct (_ && _); simpl; split; congruence. }
  destruct S3 as [S3 B3].
  match goal with |- context [snd (bind (WriteHeader ?c) ?k w3)] =>
    destruct (WriteHeader_Write c
                (if String.eqb (ResponseBody resp) "" then Reason resp else ResponseBody resp)
                w3 S3) as [HS HB]
  end.
  split; [exact HS|]. intros Hv. rewrite HB, Hv. exact B3.
Qed.

(** C9 (as amended).  When the matched rule denies the request on a response that has
    no status yet, the status written is the deny status configured for the kind of
    denial whenever that value is an HTTP status from 200 to 999; when it is zero the
    status is 429 for a rate-limit denial and 403 for a quota denial.  A configured
    value from 100 to 199 other than 101 is sent as an informational header, and the
    body that follows carries the status 200.  A configured value other than zero
    outside 100..999 is handed to [WriteHeader] as it is: the call panics, and neither
    a status nor a body is written. *)
Theorem denial_status order q req w resp m w1 :
  status w = None ->
  findMatch q req order w = (Some (resp, m), w1) ->
  Allowed resp = false ->
  let w' := snd (ServeHTTP order q req w) in
  exists configured fallback,
    ((Reason resp = "Rate limit exceeded"
      /\ configured
         = RateLimitConfig.ResponseReachedLimitCode (IdentifierConfig.RateLimit (config m))
      /\ fallback = StatusTooManyRequests)
     \/ (Reason resp = "Quota exceeded"
         /\ configured
            = QuotaSettings.ResponseReachedLimitCode (IdentifierConfig.Quota (config m))
         /\ fallback = StatusForbidden))
    /\ (configured = 0 -> status w' = Some fallback)
    /\ (200 <= configured <= 999 -> status w' = Some configured)
    /\ (100 <= configured <= 199 ->
        status w' = Some (if configured =? 101 then configured else StatusOK))
    /\ (configured <> 0 -> configured < 100 \/ 999 < configured ->
        status w' = None /\ body w' = body w).
Proof.
  intros Hs Hf Ha w'.
  destruct (ServeHTTP_denied order q req w resp m w1 Hs Hf Ha) as [HS HB]. fold w' in HS, HB.
  destruct (findMatch_Some _ _ _ _ _ _ _ Hf) as (key & resp0 & _ & _ & _ & Hc & ->).
  pose proof (checkIdentifier_result m (extractIdentifier req (config m)) w) as R.
  rewrite Hc in R. destruct R as (_ & _ & R). specialize (R Ha).
  assert (Hd : forall configured fallback,
            ResponseCode (withIdentifierType resp0 key) = configured ->
            denyStatus (withIdentifierType resp0 key)
            = (if configured =? 0 then fallback else configured) ->
            (fallback = StatusTooManyRequests \/ fallback = StatusForbidden) ->
            (configured = 0 -> status w' = Some fallback)
            /\ (200 <= configured <= 999 -> status w' = Some configured)
            /\ (100 <= configured <= 199 ->
                status w' = Some (if configured =? 101 then configured else StatusOK))
            /\ (configured <> 0 -> configured < 100 \/ 999 < configured ->
                status w' = None /\ body w' = body w)).
  { intros configured fallback _ E Hfb. rewrite E in HS, HB. unfold written in HS.
    split; [|split; [|split]].
    - intros ->. rewrite HS. destruct Hfb as [-> | ->]; reflexivity.
    - intros Hr. rewrite HS.
      destruct (Z.eqb_spec configured 0) as [|_]; [lia|].
      unfold validStatus, informational.
      destruct (Z.leb_spec 100 configured); [|lia].
      destruct (Z.leb_spec configured 999); [|lia].
      destruct (Z.leb_spec configured 199); [lia|]. reflexivity.
    - intros Hr. rewrite HS.
      destruct (Z.eqb_spec configured 0) as [|_]; [lia|].
      unfold validStatus, informational.
      destruct (Z.leb_spec 100 configured); [|lia].
      destruct (Z.leb_spec configured 999); [|lia].
      destruct (Z.leb_spec configured 199); [|lia].
      destruct (configured =? 101); reflexivity.
    - intros Hnz Hr.
      destruct (Z.eqb_spec configured 0) as [|_]; [contradiction|].
      assert (Hv : validStatus configured = false).
      { unfold validStatus. destruct Hr.
        - destruct (Z.leb_spec 100 configured); [lia|reflexivity].
        - destruct (Z.leb_spec configured 999); [lia|apply andb_false_r]. }
      rewrite Hv in HS. split; [exact HS|exact (HB Hv)]. }
  unfold denyStatus in Hd. cbn [ResponseCode Reason withIdentifierType] in Hd |- *.
  destruct R as [[HR HC]|[HR HC]]; rewrite HR, HC in *; cbn [String.eqb Ascii.eqb Bool.eqb] in Hd.
  - exists (RateLimitConfig.ResponseReachedLimitCode (IdentifierConfig.RateLimit (config m))),
      StatusTooManyRequests.
    split; [left; auto|]. apply Hd; auto.
  - exists (QuotaSettings.ResponseReachedLimitCode (IdentifierConfig.Quota (config m))),
      StatusForbidden.
    split; [right; auto|]. apply Hd; auto.
Qed.

End Decision.

Lemma denial_status_witness :
  status (snd (ServeHTTP ["IP::"] ipPaymentPlugin Sample.noHeaders quotaSpent)) = Some 402.
Proof.
  assert (Hs : status quotaSpent = None) by reflexivity.
  assert (Hf : findMatch ipPaymentPlugin Sample.noHeaders ["IP::"] quotaSpent
               = (Some (withIdentifierType (fst (fst paymentCheck)) "IP::",
                        newManager ipPaymentRule),
                  snd (findMatch ipPaymentPlugin Sample.noHeaders ["IP::"] quotaSpent)))
    by (apply pair_eta_fst; vm_compute; reflexivity).
  assert (Ha : Allowed (withIdentifierType (fst (fst paymentCheck)) "IP::") = false)
    by (vm_compute; reflexivity).
  destruct (denial_status ["IP::"] ipPaymentPlugin Sample.noHeaders quotaSpent _ _ _ Hs Hf Ha)
    as (configured & fallback & [(HR & _)|(_ & Hc & _)] & _ & H2 & _).
  - vm_compute in HR. discriminate HR.
  - rewrite H2; rewrite Hc; [reflexivity|]. vm_compute. split; discriminate.
Defined.

(** C9, counterexample: with the quota spent and the configured deny status -1, the
    value -1 is handed to the response writer, which panics: no status is written, and
    so not the 403 the sentence promises for a value that is not positive. *)
Lemma denial_status_counterexample :
  status (snd (ServeHTTP ["IP::"] ipQuotaPlugin Sample.noHeaders quotaSpent)) = None
  /\ In (EvWriteHeader (-1))
       (trace (snd (ServeHTTP ["IP::"] ipQuotaPlugin Sample.noHeaders quotaSpent)))
  /\ specified_status (-1) StatusForbidden = 403.
Proof.
  split; [vm_compute; reflexivity|split; [|reflexivity]].
  vm_compute. repeat (try (left; reflexivity); right).
Qed.

(** ** Decimal integers *)

Lemma string_of_uint_head (d : Decimal.uint) :
  d <> Decimal.Nil ->
  exists c r, NilEmpty.string_of_uint d = String c r
              /\ Ascii.eqb c "-" = false /\ Ascii.eqb c "+" = false.
Proof.
  destruct d; intros H; try congruence; simpl; eexists _, _; repeat split; reflexivity.
Qed.

Lemma pos_to_uint_nonnil (p : positive) : Pos.to_uint p <> Decimal.Nil.
Proof.
  intros H. pose proof (DecimalPos.Unsigned.of_to p) as E. rewrite H in E. discriminate E.
Qed.

Lemma ParseInt_FormatInt (z : Z) :
  GoStr.in_int64 z = true -> GoStr.ParseInt (GoStr.FormatInt z) = Some z.
Proof.
  intros Hr. unfold GoStr.FormatInt.
  pose proof (DecimalZ.of_to z) as Hz.
  destruct z as [|p|p]; simpl Z.to_int in *.
  - reflexivity.
  - simpl. unfold NilZero.string_of_uint.
    destruct (string_of_uint_head (Pos.to_uint p) (pos_to_uint_nonnil p)) as (c & r & E & E1 & E2).
    assert (Hn : NilZero.string_of_uint (Pos.to_uint p) = NilEmpty.string_of_uint (Pos.to_uint p)).
    { unfold NilZero.string_of_uint. destruct (Pos.to_uint p) eqn:Ep; try reflexivity.
      exfalso. eapply pos_to_uint_nonnil; eauto. }
    fold (NilZero.string_of_uint (Pos.to_uint p)). rewrite Hn, E.
    unfold GoStr.ParseInt. rewrite E1, E2. rewrite <- E, NilEmpty.usu.
    simpl in Hz. rewrite Hz, Hr. reflexivity.
  - simpl.
    destruct (string_of_uint_head (Pos.to_uint p) (pos_to_uint_nonnil p)) as (c & r & E & E1 & E2).
    assert (Hn : NilZero.string_of_uint (Pos.to_uint p) = NilEmpty.string_of_uint (Pos.to_uint p)).
    { unfold NilZero.string_of_uint. destruct (Pos.to_uint p) eqn:Ep; try reflexivity.
      exfalso. eapply pos_to_uint_nonnil; eauto. }
    rewrite Hn. unfold GoStr.ParseInt. simpl Ascii.eqb. cbv iota. rewrite E at 1.
    rewrite NilEmpty.usu.
    simpl in Hz. assert (Hv : Z.of_uint (Pos.to_uint p) = Zpos p) by lia.
    rewrite Hv. change (- Z.pos p) with (Z.neg p). rewrite Hr. reflexivity.
Qed.

Lemma as_integer_FormatInt (z : Z) :
  GoStr.in_int64 z = true -> Redis.as_integer (GoStr.FormatInt z) = Some z.
Proof.
  intros H. unfold Redis.as_integer. rewrite ParseInt_FormatInt by exact H.
  rewrite String.eqb_refl. reflexivity.
Qed.

Lemma as_integer_ParseInt (s : string) (z : Z) :
  Redis.as_integer s = Some z -> GoStr.ParseInt s = Some z.
Proof.
  unfold Redis.as_integer. destruct (GoStr.ParseInt s) as [v|]; [|discriminate].
  destruct (String.eqb _ _); congruence.
Qed.

(** ** One command, exactly *)

Lemma roundtrip_eq (c : Redis.Cmd) (w : World) :
  roundtrip c w
  = (answer (faults w (cmds w)) c (db w),
     stored (delivered (faults w (cmds w)) c (db w)) (counted (logged (EvCmd c) w))).
Proof.
  unfold roundtrip, bind, emit, next_fault, get_db, set_db, ret. simpl.
  destruct (faults w (cmds w)); simpl; try reflexivity.
  destruct (Redis.exec c (db w)); reflexivity.
Qed.

Lemma Get_eq (key : string) (w : World) :
  Get key w
  = (match faults w (cmds w) with
     | Redis.Healthy =>
         match db w !! key with
         | Some e => (Redis.value e, None)
         | None => ("", Some "key not found")
         end
     | Redis.RequestLost => ("", Some "write: broken pipe")
     | Redis.ReplyLost => ("", Some "read: connection reset")
     end,
     stored (db w) (counted (logged (EvCmd (Redis.GET key)) w))).
Proof.
  unfold Get, bind. rewrite roundtrip_eq.
  destruct (faults w (cmds w)); simpl; try reflexivity.
  - destruct (db w !! key); reflexivity.
  - destruct (db w !! key); reflexivity.
Qed.

(** ** The quota counter *)

Section QuotaProofs.
Context {rt : GoRuntime}.

Lemma usage_of_Get (key : string) (w : World) :
  (let '(usageStr, err) := fst (Get key w) in
   match err with
   | None => match GoStr.ParseInt usageStr with Some v => v | None => 0 end
   | Some _ => 0
   end) = usage_read w key.
Proof.
  rewrite Get_eq. unfold usage_read, stored_usage. simpl.
  destruct (faults w (cmds w)); try reflexivity.
  destruct (db w !! key); reflexivity.
Qed.

Lemma GetQuotaInfo_eq config identifier w :
  QuotaSettings.Enabled config = true ->
  let key := GetQuotaKey identifier (periodLabel (QuotaSettings.Period config) (clock w (ticks w))) in
  let used := usage_read w key in
  let remaining := GoStr.wrap64 (QuotaSettings.Limit config - used) in
  let resetTime := nextReset config (clock w (S (ticks w))) in
  GetQuotaInfo config identifier w
  = (mkQuotaInfo (QuotaSettings.Limit config) used (if remaining <? 0 then 0 else remaining)
       (QuotaSettings.Period config) resetTime
       (GoTime.Sub resetTime (clock w (S (S (ticks w))))), None,
     ticked (ticked (stored (db w) (counted (logged (EvCmd (Redis.GET key)) (ticked w)))))).
Proof.
  intros He key used remaining resetTime.
  unfold GetQuotaInfo. rewrite He. cbn [negb].
  unfold GetQuotaPeriodKey, getNextResetTime, Until, bind, Now, ret. fold key.
  rewrite Get_eq. subst remaining used. unfold usage_read, stored_usage.
  change (faults (ticked w)) with (faults w). change (cmds (ticked w)) with (cmds w).
  change (db (ticked w)) with (db w).
  destruct (faults w (cmds w)); try reflexivity.
  destruct (db w !! key) as [e|]; reflexivity.
Qed.

Lemma GetQuotaInfo_enabled config identifier w :
  QuotaSettings.Enabled config = true ->
  let key := GetQuotaKey identifier (periodLabel (QuotaSettings.Period config) (clock w (ticks w))) in
  let r := GetQuotaInfo config identifier w in
  snd (fst r) = None
  /\ qi_Limit (fst (fst r)) = QuotaSettings.Limit config
  /\ qi_Used (fst (fst r)) = usage_read w key
  /\ trace (snd r) = trace w ++ [EvCmd (Redis.GET key)]
  /\ db (snd r) = db w
  /\ cmds (snd r) = S (cmds w)
  /\ ticks (snd r) = S (S (S (ticks w)))
  /\ faults (snd r) = faults w /\ clock (snd r) = clock w.
Proof.
  intros He key r. subst r. rewrite (GetQuotaInfo_eq config identifier w He).
  repeat split; reflexivity.
Qed.

(** C6.  With quota enabled, [CheckQuota] reads the counter of the current period (an
    absent counter, like a failed or unparsable read, counts as 0) and allows the
    request exactly when the usage read is below the limit: a counter at [limit - 1]
    is allowed, a counter that has reached [limit] is denied.  The check returns the
    info record, reports no error and leaves the store as it was. *)
Theorem CheckQuota_decides config identifier w :
  QuotaSettings.Enabled config = true ->
  let key := GetQuotaKey identifier (periodLabel (QuotaSettings.Period config) (clock w (ticks w))) in
  let used := usage_read w key in
  let limit := QuotaSettings.Limit config in
  exists info,
    fst (CheckQuota config identifier w) = (bool_decide (used < limit), Some info, None)
    /\ qi_Used info = used /\ qi_Limit info = limit
    /\ (db w !! key = None -> used = 0)
    /\ (used = limit - 1 -> bool_decide (used < limit) = true)
    /\ (used = limit -> bool_decide (used < limit) = false)
    /\ db (snd (CheckQuota config identifier w)) = db w.
Proof.
  intros He key used limit.
  destruct (GetQuotaInfo_enabled config identifier w He) as (E1 & E2 & E3 & _ & E5 & _).
  fold key in E3.
  unfold CheckQuota. rewrite He. cbn [negb]. unfold bind.
  destruct (GetQuotaInfo config identifier w) as [[info err] w1]. simpl in *. subst err.
  exists info. fold used in E3. fold limit in E2. rewrite E2, E3.
  repeat split; auto.
  - destruct (Z.leb_spec limit used); simpl;
      [rewrite bool_decide_eq_false_2 by lia|rewrite bool_decide_eq_true_2 by lia]; reflexivity.
  - intros Hn. unfold used, usage_read, stored_usage. rewrite Hn.
    destruct (faults w (cmds w)); reflexivity.
  - intros ->. apply bool_decide_eq_true_2. lia.
  - intros ->. apply bool_decide_eq_false_2. lia.
  - destruct (limit <=? used); simpl; exact E5.
Qed.

Lemma Expire_healthy (key : string) (expiration : Z) (e : Redis.Entry) (w : World) :
  faults w (cmds w) = Redis.Healthy ->
  db w !! key = Some e ->
  let secs := F64.int_of_float64 (GoTime.Seconds expiration) in
  Expire key expiration w
  = (None,
     stored (if 0 <? secs
             then <[key := {| Redis.value := Redis.value e; Redis.ttl := Some secs |}]> (db w)
             else delete key (db w))
       (counted (logged (EvCmd (Redis.EXPIRE key secs)) w))).
Proof.
  intros Hf Hk secs. unfold Expire. rewrite bind_eq, roundtrip_eq, Hf. fold secs.
  simpl. rewrite Hk. destruct (0 <? secs); reflexivity.
Qed.

Lemma stored_usage_insert (d : gmap string Redis.Entry) (key : string) (v : Z) (t : option Z) :
  GoStr.in_int64 v = true ->
  stored_usage (<[key := {| Redis.value := GoStr.FormatInt v; Redis.ttl := t |}]> d) key = v.
Proof.
  intros Hr. unfold stored_usage. rewrite lookup_insert_eq. simpl.
  rewrite ParseInt_FormatInt by exact Hr. reflexivity.
Qed.

Lemma IncrBy_trace (key : string) (v : Z) (w : World) :
  trace (snd (IncrBy key v w)) = trace w ++ [EvCmd (Redis.INCRBY key v)].
Proof.
  unfold IncrBy. rewrite bind_eq, roundtrip_eq.
  destruct (answer _ _ _) as [resp [e|]]; cbn [fst snd]; [reflexivity|].
  destruct (GoStr.ParseInt resp); reflexivity.
Qed.

Lemma ConsumeQuota_first_command config identifier amount w :
  QuotaSettings.Enabled config = true ->
  let key := GetQuotaKey identifier (periodLabel (QuotaSettings.Period config) (clock w (ticks w))) in
  exists tail,
    trace (snd (ConsumeQuota config identifier amount w))
    = trace w ++ EvCmd (Redis.INCRBY key (if amount <=? 0 then 1 else amount)) :: tail
    /\ Forall (quota_ev identifier) tail.
Proof.
  intros He key. unfold ConsumeQuota. rewrite He. cbn [negb].
  unfold GetQuotaPeriodKey. rewrite bind_eq.
  change (fst (bind Now (fun now => ret (periodLabel (QuotaSettings.Period config) now)) w))
    with (periodLabel (QuotaSettings.Period config) (clock w (ticks w))).
  change (snd (bind Now (fun now => ret (periodLabel (QuotaSettings.Period config) now)) w))
    with (ticked w).
  fold key. rewrite bind_eq.
  set (amount' := if amount <=? 0 then 1 else amount).
  pose proof (IncrBy_trace key amount' (ticked w)) as Ht.
  destruct (IncrBy key amount' (ticked w)) as [[newUsage err] w1]. cbn [fst snd] in *.
  match goal with |- context [snd (?m w1)] =>
    assert (HK : frames (step (quota_ev identifier)) m) end.
  { assert (H2 : forall v, frames (step (quota_ev identifier)) (Expire key v))
      by (intros; apply frames_Expire; intros c Hc;
          exists c, (periodLabel (QuotaSettings.Period config) (clock w (ticks w)));
          split; [reflexivity|exact Hc]).
    assert (H3 := frames_quota_quiet identifier (GetQuotaInfo config identifier)
                    (frames_GetQuotaInfo config identifier)).
    assert (H5 : forall c, frames (step (quota_ev identifier)) (getNextResetTime c))
      by (intros; apply frames_quiet_step; auto with frames).
    assert (H6 : forall t, frames (step (quota_ev identifier)) (Until t))
      by (intros; apply frames_quiet_step; auto with frames).
    frame_auto. }
  destruct (HK w1) as (_ & _ & l & El & Fl).
  exists l. split; [|exact Fl]. etransitivity; [exact El|]. rewrite Ht. simpl.
  rewrite <- app_assoc. reflexivity.
Qed.

Lemma healthy_at (w : World) (n i : nat) :
  healthy w n -> (i < n)%nat -> faults w (i + cmds w)%nat = Redis.Healthy.
Proof. intros H Hi. rewrite Nat.add_comm. exact (H i Hi). Qed.

Lemma same_window_at (period : string) (w : World) (n i : nat) :
  same_window period w n -> (i < n)%nat ->
  periodLabel period (clock w (i + ticks w)%nat) = periodLabel period (clock w (ticks w)).
Proof. intros H Hi. rewrite Nat.add_comm. exact (H i Hi). Qed.

Lemma IncrBy_healthy (key : string) (amount : Z) (w : World) :
  faults w (cmds w) = Redis.Healthy ->
  counter_accepts (db w) key amount ->
  IncrBy key amount w
  = (stored_usage (db w) key + amount, None,
     stored (<[key := {| Redis.value := GoStr.FormatInt (stored_usage (db w) key + amount);
                         Redis.ttl := ttl_of (db w) key |}]> (db w))
       (counted (logged (EvCmd (Redis.INCRBY key amount)) w))).
Proof.
  intros Hf Hc. unfold IncrBy. rewrite bind_eq, roundtrip_eq, Hf.
  unfold counter_accepts, stored_usage, ttl_of in *. simpl.
  destruct (db w !! key) as [e|] eqn:Hk; simpl.
  - destruct Hc as (v & Hv & Hr). rewrite Hv, Hr. simpl.
    rewrite (as_integer_ParseInt _ _ Hv).
    rewrite ParseInt_FormatInt by exact Hr. reflexivity.
  - rewrite ParseInt_FormatInt by exact Hc. reflexivity.
Qed.

Lemma counter_accepts_range (d : gmap string Redis.Entry) (key : string) (amount : Z) :
  counter_accepts d key amount -> GoStr.in_int64 (stored_usage d key + amount) = true.
Proof.
  unfold counter_accepts, stored_usage. destruct (d !! key) as [e|].
  - intros (v & Hv & Hr). rewrite (as_integer_ParseInt _ _ Hv). exact Hr.
  - intros H. exact H.
Qed.

Lemma first_iff (old amount : Z) : (old + amount =? amount) = (old =? 0).
Proof. destruct (Z.eqb_spec (old + amount) amount), (Z.eqb_spec old 0); try reflexivity; lia. Qed.


Lemma stored_usage_delete (d : gmap string Redis.Entry) (key : string) :
  stored_usage (delete key d) key = 0.
Proof. unfold stored_usage. rewrite lookup_delete_eq. reflexivity. Qed.

(** What [ConsumeQuota] does when the store answers.  A counter that it creates gets
    its expiry from EXPIRE; the store deletes the counter when the seconds handed to
    EXPIRE are not positive. *)
Lemma ConsumeQuota_healthy (config : QuotaSettings.t) (identifier : string) (amount : Z)
    (w : World) :
  QuotaSettings.Enabled config = true ->
  0 < amount ->
  let period := QuotaSettings.Period config in
  let key := GetQuotaKey identifier (periodLabel period (clock w (ticks w))) in
  let old := stored_usage (db w) key in
  let first := old + amount =? amount in
  let kept := negb first || (0 <? expirySeconds config w) in
  healthy w 3 -> same_window period w 4 -> counter_accepts (db w) key amount ->
  exists info w',
    ConsumeQuota config identifier amount w = (Some info, None, w')
    /\ qi_Used info = (if kept then old + amount else 0)
    /\ db w' = (if kept
                then <[key := {| Redis.value := GoStr.FormatInt (old + amount);
                                 Redis.ttl := if first then Some (expirySeconds config w)
                                              else ttl_of (db w) key |}]> (db w)
                else delete key (db w))
    /\ trace w' = trace w ++ [EvCmd (Redis.INCRBY key amount)]
                  ++ (if first then [EvCmd (Redis.EXPIRE key (expirySeconds config w))] else [])
                  ++ [EvCmd (Redis.GET key)]
    /\ faults w' = faults w /\ clock w' = clock w
    /\ cmds w' = (if first then 3 + cmds w else 2 + cmds w)%nat
    /\ ticks w' = (if first then 6 + ticks w else 4 + ticks w)%nat.
Proof.
  intros He Ha period key old first kept Hh Hw Hc.
  pose proof (healthy_at w 3 0 Hh ltac:(lia)) as Hf0.
  pose proof (healthy_at w 3 1 Hh ltac:(lia)) as Hf1.
  pose proof (healthy_at w 3 2 Hh ltac:(lia)) as Hf2.
  pose proof (same_window_at period w 4 1 Hw ltac:(lia)) as Hw1.
  pose proof (same_window_at period w 4 3 Hw ltac:(lia)) as Hw3.
  cbn [Nat.add] in *.
  pose proof (counter_accepts_range _ _ _ Hc) as Hr.
  unfold ConsumeQuota. rewrite He. cbn [negb].
  replace (amount <=? 0) with false by (symmetry; apply Z.leb_gt; exact Ha). cbv iota.
  unfold GetQuotaPeriodKey, getNextResetTime, Until.
  unfold bind. unfold Now at 1. unfold ret at 1. fold period. fold key.
  rewrite (IncrBy_healthy key amount (ticked w) Hf0 Hc).
  change (db (ticked w)) with (db w). fold old. fold first. subst kept.
  set (db1 := <[key := {| Redis.value := GoStr.FormatInt (old + amount);
                          Redis.ttl := ttl_of (db w) key |}]> (db w)).
  set (w1 := stored db1 (counted (logged (EvCmd (Redis.INCRBY key amount)) (ticked w)))).
  destruct first eqn:Hnew; cbn [negb orb].
  - unfold Now at 1 2. unfold ret at 1 2.
    match goal with |- context [Expire key ?d ?ww] =>
      rewrite (Expire_healthy key d
                 {| Redis.value := GoStr.FormatInt (old + amount);
                    Redis.ttl := ttl_of (db w) key |}
                 ww Hf1 (lookup_insert_eq _ _ _))
    end.
    cbn [Redis.value].
    match goal with |- context [Redis.EXPIRE key ?s] =>
      change s with (expirySeconds config w) end.
    match goal with |- context [GetQuotaInfo config identifier ?w2] =>
      pose proof (GetQuotaInfo_eq config identifier w2 He) as E; set (w2' := w2) in * end.
    cbv zeta in E.
    change (clock w2' (ticks w2')) with (clock w (S (S (S (ticks w))))) in E.
    fold period in E. rewrite Hw3 in E. fold key in E.
    rewrite E. eexists _, _. split; [reflexivity|]. cbn [qi_Used].
    unfold usage_read. change (faults w2' (cmds w2')) with (faults w (S (S (cmds w)))).
    rewrite Hf2. subst w2' w1.
    cbn [db stored ticked counted logged trace faults clock cmds ticks].
    destruct (0 <? expirySeconds config w).
    + split; [apply stored_usage_insert, Hr|].
      split; [subst db1; apply insert_insert_eq|].
      split; [rewrite <- !app_assoc; reflexivity|].
      repeat split; reflexivity.
    + split; [apply stored_usage_delete|].
      split; [subst db1; apply delete_insert_eq|].
      split; [rewrite <- !app_assoc; reflexivity|].
      repeat split; reflexivity.
  - unfold ret at 1.
    pose proof (GetQuotaInfo_eq config identifier w1 He) as E. cbv zeta in E.
    change (clock w1 (ticks w1)) with (clock w (S (ticks w))) in E.
    fold period in E. rewrite Hw1 in E. fold key in E.
    rewrite E. eexists _, _. split; [reflexivity|]. cbn [qi_Used].
    unfold usage_read. change (faults w1 (cmds w1)) with (faults w (S (cmds w))).
    rewrite Hf1. subst w1. cbn [db stored ticked counted logged trace faults clock cmds ticks].
    split; [apply stored_usage_insert, Hr|].
    split; [reflexivity|].
    split; [rewrite <- !app_assoc; reflexivity|].
    repeat split; reflexivity.
Qed.


End QuotaProofs.



Lemma CheckQuota_decides_witness :
  exists info,
    fst (CheckQuota (IdentifierConfig.Quota ipQuotaRule) "10.0.0.1" quotaSpent)
    = (false, Some info, None)
    /\ qi_Used info = 1.
Proof.
  destruct (CheckQuota_decides (IdentifierConfig.Quota ipQuotaRule) "10.0.0.1" quotaSpent eq_refl)
    as (info & E & U & _).
  exists info. split.
  - rewrite E. vm_compute. reflexivity.
  - rewrite U. vm_compute. reflexivity.
Defined.

(** ** The limiter *)

Section LimiterProofs.
Context {rt : GoRuntime}.

Lemma Set__healthy (key : string) (value : GoValue) (expiration : Z) (w : World) :
  faults w (cmds w) = Redis.Healthy ->
  expiryAccepted expiration = true ->
  Set_ key value expiration w
  = (None,
     stored (<[key := savedEntry (Sprint value) expiration]> (db w))
       (counted (logged (EvCmd (setCommand key (Sprint value) expiration)) w))).
Proof.
  intros Hf. unfold Set_, savedEntry, setCommand, expiryAccepted.
  destruct (0 <? expiration); cbn [negb orb]; intros Hx;
    rewrite bind_eq, roundtrip_eq, Hf; [|reflexivity].
  cbn [answer delivered Redis.exec]. rewrite Hx. reflexivity.
Qed.

Lemma Set__refused (key : string) (value : GoValue) (expiration : Z) (w : World) :
  faults w (cmds w) = Redis.Healthy ->
  expiryAccepted expiration = false ->
  Set_ key value expiration w
  = (Some expiryRefused,
     stored (db w) (counted (logged (EvCmd (setCommand key (Sprint value) expiration)) w))).
Proof.
  intros Hf. unfold Set_, savedEntry, setCommand, expiryAccepted.
  destruct (0 <? expiration); cbn [negb orb]; intros Hx; [|discriminate Hx].
  rewrite bind_eq, roundtrip_eq, Hf.
  cbn [answer delivered Redis.exec]. rewrite Hx. reflexivity.
Qed.

Lemma saveBucket_healthy (key : string) (bucket : TokenBucket) (w : World) :
  faults w (cmds w) = Redis.Healthy ->
  faults w (S (cmds w)) = Redis.Healthy ->
  let expiration := GoStr.wrap64 (RefillPeriod bucket * 2) in
  expiryAccepted expiration = true ->
  fst (saveBucket key bucket w) = None
  /\ db (snd (saveBucket key bucket w))
     = <[(key ++ ":last_refill")%string
           := savedEntry (GoStr.FormatInt (LastRefill bucket)) expiration]>
         (<[(key ++ ":tokens")%string
              := savedEntry (FormatFloat (Tokens bucket)) expiration]> (db w)).
Proof.
  intros H0 H1 expiration Hx. unfold saveBucket. fold expiration.
  rewrite bind_eq, (Set__healthy _ _ _ w H0 Hx). cbn [fst snd].
  rewrite bind_eq.
  match goal with |- context [Set_ ?k ?v ?e ?ww] => rewrite (Set__healthy k v e ww H1 Hx) end.
  split; reflexivity.
Qed.

Lemma saveBucket_refused (key : string) (bucket : TokenBucket) (w : World) :
  faults w (cmds w) = Redis.Healthy ->
  let expiration := GoStr.wrap64 (RefillPeriod bucket * 2) in
  expiryAccepted expiration = false ->
  saveBucket key bucket w
  = (Some ("failed to save tokens: " ++ expiryRefused)%string,
     stored (db w)
       (counted (logged (EvCmd (setCommand (key ++ ":tokens") (FormatFloat (Tokens bucket))
                                  expiration)) w))).
Proof.
  intros H0 expiration Hx. unfold saveBucket. fold expiration.
  rewrite bind_eq, (Set__refused _ _ _ w H0 Hx). reflexivity.
Qed.

Lemma allowTokens_eq config identifier n w :
  let key := GetRateLimitKey identifier in
  let got := getBucket config key w in
  let w1 := snd got in
  let refilled := refillBucket (fst (fst got)) (clock w1 (ticks w1)) in
  snd (fst got) = None ->
  allowTokens config identifier n w
  = if (n <=? Tokens refilled)%float
    then (match fst (saveBucket key (consume refilled n) (ticked w1)) with
          | Some e => (false, Some ("failed to save bucket: " ++ e)%string)
          | None => (true, None)
          end, snd (saveBucket key (consume refilled n) (ticked w1)))
    else (false, None, ticked w1).
Proof.
  intros key got w1 refilled Herr. unfold allowTokens. fold key. unfold bind at 1.
  subst refilled w1. fold got. destruct got as [[bucket err] w1]. cbn [fst snd] in *. subst err.
  unfold bind at 1. unfold Now at 1.
  destruct (n <=? Tokens (refillBucket bucket (clock w1 (ticks w1))))%float; [|reflexivity].
  unfold bind. destruct (saveBucket _ _ _) as [[e|] w2]; reflexivity.
Qed.


End LimiterProofs.



(** ** The order of the steps of a passing request *)

Section Order.
Context {rt : GoRuntime}.

Lemma first_event_bind {A B} P (m : M A) (k : A -> M B) e w :
  (exists rest, trace (snd (m w)) = trace w ++ e :: rest) ->
  (forall a, frames (step P) (k a)) ->
  exists rest, trace (snd (bind m k w)) = trace w ++ e :: rest.
Proof.
  intros (r & E) Hk. rewrite bind_eq.
  destruct (Hk (fst (m w)) (snd (m w))) as (_ & _ & l & El & _).
  exists (r ++ l). rewrite El, E, <- app_assoc. reflexivity.
Qed.

Lemma getBucket_first config key w :
  exists rest,
    trace (snd (getBucket config key w)) = trace w ++ EvCmd (Redis.GET (key ++ ":tokens")) :: rest.
Proof.
  unfold getBucket. apply (first_event_bind (limiter_ev key)).
  - exists []. rewrite Get_eq. reflexivity.
  - intros [bucketData err].
    assert (H2 : frames (step (limiter_ev key)) (Get (key ++ ":last_refill")))
      by (apply frames_quiet_step, frames_Get; eexists; split; [reflexivity|right; reflexivity]).
    assert (H3 : frames (step (limiter_ev key)) (createNewBucket config))
      by (apply frames_quiet_step, frames_createNewBucket).
    frame_auto.
Qed.

(** [Allow] begins by reading the tokens of the bucket. *)
Lemma Allow_first config identifier w :
  exists rest,
    trace (snd (Allow config identifier w))
    = trace w ++ EvCmd (Redis.GET (GetRateLimitKey identifier ++ ":tokens")) :: rest.
Proof.
  unfold Allow, allowTokens. apply (first_event_bind (limiter_ev (GetRateLimitKey identifier))).
  - apply getBucket_first.
  - intros [bucket err]. frame_auto.
Qed.

(** The limiter of a rule that lets the request pass: [Allow] has answered Allowed or
    failed, and [GetLimitInfo] has read the bucket after it. *)
Lemma limiterGate_pass manager identifier w :
  let key := GetRateLimitKey identifier in
  let wl := snd (limiterGate manager identifier w) in
  fst (fst (limiterGate manager identifier w)) = true ->
  exists limiter,
    trace wl = trace w ++ limiter
    /\ Forall (limiter_ev key) limiter
    /\ (forall cfg,
          rateLimiter manager = Some cfg ->
          RateLimitConfig.Enabled (IdentifierConfig.RateLimit (config manager)) = true ->
          (fst (Allow cfg identifier w) = (true, None)
           \/ exists e, snd (fst (Allow cfg identifier w)) = Some e)
          /\ exists rest reads,
               trace (snd (Allow cfg identifier w))
               = trace w ++ EvCmd (Redis.GET (key ++ ":tokens")) :: rest
               /\ limiter = EvCmd (Redis.GET (key ++ ":tokens")) :: rest ++ reads
               /\ Forall (limiter_get key) reads
               /\ db wl = db (snd (Allow cfg identifier w)))
    /\ (rateLimited manager = false -> limiter = []).
Proof.
  intros key wl. subst wl. unfold limiterGate, rateLimited.
  destruct (rateLimiter manager) as [cfg|] eqn:Hl;
    [destruct (RateLimitConfig.Enabled (IdentifierConfig.RateLimit (config manager))) eqn:He|].
  - pose proof (frames_allowTokens cfg identifier 1%float w) as (_ & _ & la & Ea & Fa).
    fold (Allow cfg identifier) in Ea.
    destruct (Allow_first cfg identifier w) as (rest & Er).
    pose proof (frames_GetLimitInfo cfg identifier (snd (Allow cfg identifier w)))
      as ((_ & _ & lg & Eg & Fg) & Dg).
    unfold bind.
    destruct (Allow cfg identifier w) as [[allowed err] wa] eqn:EA. cbn [fst snd] in *.
    destruct (GetLimitInfo cfg identifier wa) as [[info err'] wg]. unfold ret.
    cbn [fst snd] in *.
    intros Hp. exists (la ++ lg). split; [rewrite Eg, Ea; symmetry; apply app_assoc|].
    split; [apply Forall_app; split;
            [exact Fa|eapply Forall_impl; [exact Fg|apply limiter_get_ev]]|].
    split.
    + intros cfg' [= <-] _. rewrite EA. cbn [fst snd]. split.
      * destruct err as [e|]; [right; exists e; reflexivity|left; rewrite Hp; reflexivity].
      * exists rest, lg. split; [exact Er|]. split; [|split; [exact Fg|exact Dg]].
        rewrite Er in Ea. apply app_inv_head in Ea. rewrite <- Ea. reflexivity.
    + cbn [andb]. rewrite bool_decide_eq_true_2 by eauto. discriminate.
  - unfold ret. cbn [fst snd]. intros _. exists []. split; [symmetry; apply app_nil_r|].
    split; [constructor|]. split; [intros cfg' _ H; discriminate H|reflexivity].
  - unfold ret. cbn [fst snd]. intros _. exists []. split; [symmetry; apply app_nil_r|].
    split; [constructor|]. split; [intros cfg' H; discriminate H|reflexivity].
Qed.

Lemma checkIdentifier_pass manager identifier w resp err w1 :
  IsQuotaEnabled (quotaManager manager) = true ->
  checkIdentifier manager identifier w = (resp, err, w1) ->
  Allowed resp = true ->
  let wl := snd (limiterGate manager identifier w) in
  let label := periodLabel (QuotaSettings.Period (quotaManager manager)) (clock wl (ticks wl)) in
  fst (fst (limiterGate manager identifier w)) = true
  /\ exists info,
       Quota resp = Some info
       /\ trace w1 = trace wl ++ [EvCmd (Redis.GET (GetQuotaKey identifier label))]
       /\ db w1 = db wl.
Proof.
  intros Hq. unfold checkIdentifier. unfold bind at 1.
  destruct (limiterGate manager identifier w) as [[allowed info] wl]. cbn [fst snd].
  destruct allowed; cbn [negb]; [|unfold ret; intros [= <- _ _]; discriminate].
  rewrite Hq. unfold bind at 1. unfold bind at 1.
  unfold IsQuotaEnabled in Hq.
  destruct (GetQuotaInfo_enabled (quotaManager manager) identifier wl Hq)
    as (He & _ & _ & Ht & Hd & _).
  unfold CheckQuota. rewrite Hq. cbn [negb]. unfold bind at 1.
  destruct (GetQuotaInfo (quotaManager manager) identifier wl) as [[qinfo qerr] w2].
  cbn [fst snd] in He, Ht, Hd. subst qerr.
  intros H Ha. split; [reflexivity|]. exists qinfo.
  assert (E : w1 = w2 /\ Quota resp = Some qinfo).
  { destruct (qi_Limit qinfo <=? qi_Used qinfo);
      unfold ret in H; cbn in H; injection H as Hr _ Hw; subst resp;
      solve [split; [exact (eq_sym Hw)|reflexivity] | discriminate Ha]. }
  destruct E as [-> E]. split; [exact E|]. split; [exact Ht|exact Hd].
Qed.

Lemma Header_Set_trace key value w :
  trace (snd (Header_Set key value w))
  = trace w ++ [EvHeader (GoStr.CanonicalMIMEHeaderKey key) value].
Proof. reflexivity. Qed.

Lemma writeQuotaHeaders_trace response w :
  trace (snd (writeQuotaHeaders response w))
  = trace w ++ rateHeaderEvents response
    ++ match Quota response with Some info => quotaHeaders info | None => [] end.
Proof.
  unfold writeQuotaHeaders, rateHeaderEvents, rateHeaders, quotaHeaders.
  destruct (RateLimit response) as [ri|]; [destruct (0 <? rli_RetryAfter ri)|];
    destruct (Quota response) as [qi|];
    repeat first [rewrite bind_eq | rewrite Header_Set_trace
                 | progress (unfold ret; cbn [snd])];
    rewrite <- ?app_assoc; cbn [app]; rewrite ?app_nil_r; reflexivity.
Qed.

(** C2 (as amended).  When the matched rule lets the request pass and its quota is
    enabled, the events of the request come in this order.  First the limiter: when the
    rule has one, [Allow] runs from the world the request found, beginning with the
    read of the tokens, and answers Allowed or fails, and [GetLimitInfo] reads the
    bucket after it; a rule without limiter sends nothing here.  Then the read of the
    quota counter of the current period, which leaves the store as the limiter left
    it.  Then the response headers: those of the rate limit when the rule has a
    limiter, and the four quota headers of the info the check returned.  Then
    [INCRBY key 1] on the counter of the period and the other commands of
    [ConsumeQuota], and last the call of the downstream handler. *)
Theorem pass_order order q req w resp m w1 :
  findMatch q req order w = (Some (resp, m), w1) ->
  Allowed resp = true ->
  IsQuotaEnabled (quotaManager m) = true ->
  let identifier := Identifier resp in
  let key := GetRateLimitKey identifier in
  let period := QuotaSettings.Period (quotaManager m) in
  let wl := snd (limiterGate m identifier w) in
  let w2 := snd (writeQuotaHeaders resp w1) in
  exists limiter info tail,
    trace (snd (ServeHTTP order q req w))
    = trace w ++ limiter
      ++ [EvCmd (Redis.GET (GetQuotaKey identifier (periodLabel period (clock wl (ticks wl)))))]
      ++ (rateHeaderEvents resp ++ quotaHeaders info)
      ++ [EvCmd (Redis.INCRBY (GetQuotaKey identifier (periodLabel period (clock w2 (ticks w2))))
                   1)]
      ++ tail ++ [EvNext]
    /\ trace wl = trace w ++ limiter
    /\ Forall (limiter_ev key) limiter
    /\ (forall cfg,
          rateLimiter m = Some cfg ->
          RateLimitConfig.Enabled (IdentifierConfig.RateLimit (config m)) = true ->
          (fst (Allow cfg identifier w) = (true, None)
           \/ exists e, snd (fst (Allow cfg identifier w)) = Some e)
          /\ exists rest reads,
               trace (snd (Allow cfg identifier w))
               = trace w ++ EvCmd (Redis.GET (key ++ ":tokens")) :: rest
               /\ limiter = EvCmd (Redis.GET (key ++ ":tokens")) :: rest ++ reads
               /\ Forall (limiter_get key) reads
               /\ db wl = db (snd (Allow cfg identifier w)))
    /\ (rateLimited m = false -> limiter = [])
    /\ db w1 = db wl
    /\ Quota resp = Some info
    /\ Forall (quota_ev identifier) tail.
Proof.
  intros Hf Ha Hq identifier key period wl w2.
  destruct (findMatch_Some _ _ _ _ _ _ _ Hf) as (mkey & resp0 & _ & _ & _ & Hc & ->).
  pose proof (checkIdentifier_result m (extractIdentifier req (config m)) w) as R.
  rewrite Hc in R. destruct R as (_ & Hid & _).
  change (Identifier (withIdentifierType resp0 mkey)) with (Identifier resp0) in identifier.
  subst key wl identifier. rewrite Hid.
  destruct (checkIdentifier_pass m _ w resp0 None w1 Hq Hc Ha)
    as (Hp & info & Hi & Et & Ed).
  destruct (limiterGate_pass m (extractIdentifier req (config m)) w Hp)
    as (limiter & El & Fl & Hcfg & Hno).
  pose proof (writeQuotaHeaders_trace (withIdentifierType resp0 mkey) w1) as Eh.
  change (Quota (withIdentifierType resp0 mkey)) with (Quota resp0) in Eh |- *.
  rewrite Hi in Eh. fold w2 in Eh.
  destruct (ConsumeQuota_first_command (quotaManager m) (Identifier resp0) 1 w2 Hq)
    as (tail & Ec & Fc).
  change (1 <=? 0) with false in Ec. cbv iota in Ec. rewrite Hid in Ec, Fc.
  fold period in Ec, Et.
  exists limiter, info, tail.
  split; [|split; [exact El|]; split; [exact Fl|]; split; [exact Hcfg|];
           split; [exact Hno|]; split; [exact Ed|]; split; [exact Hi|exact Fc]].
  unfold ServeHTTP. rewrite bind_eq, Hf. cbn [fst snd]. rewrite bind_eq.
  rewrite Ha. cbn [negb]. rewrite Hq. fold w2.
  rewrite !bind_eq. unfold ret at 1. cbn [snd]. unfold next_ServeHTTP, emit. cbn [snd logged trace].
  change (Identifier (withIdentifierType resp0 mkey)) with (Identifier resp0).
  rewrite Hid, Ec, Eh, Et, El.
  rewrite <- !app_assoc. reflexivity.
Qed.

End Order.

Lemma pass_order_witness :
  exists limiter info tail,
    trace (snd (ServeHTTP ["Header:X-User-ID:anonymous"] limitedPlugin Sample.noHeaders
                  (Sample.world Sample.noon 1000)))
    = limiter
      ++ [EvCmd (Redis.GET "quota:anonymous:2024-03-15")]
      ++ (rateHeaderEvents limitedResponse ++ quotaHeaders info)
      ++ [EvCmd (Redis.INCRBY "quota:anonymous:2024-03-15" 1)]
      ++ tail ++ [EvNext]
    /\ (exists rest, limiter = EvCmd (Redis.GET "ratelimit:anonymous:tokens") :: rest)
    /\ Quota limitedResponse = Some info
    /\ db (snd (findMatch limitedPlugin Sample.noHeaders ["Header:X-User-ID:anonymous"]
                  (Sample.world Sample.noon 1000)))
       = db (snd (limiterGate (newManager limitedRule) "anonymous"
                    (Sample.world Sample.noon 1000))).
Proof.
  assert (Hf : findMatch limitedPlugin Sample.noHeaders ["Header:X-User-ID:anonymous"]
                 (Sample.world Sample.noon 1000)
               = (Some (limitedResponse, newManager limitedRule),
                  snd (findMatch limitedPlugin Sample.noHeaders ["Header:X-User-ID:anonymous"]
                         (Sample.world Sample.noon 1000))))
    by (apply pair_eta_fst; vm_compute; reflexivity).
  assert (Ha : Allowed limitedResponse = true) by (vm_compute; reflexivity).
  assert (Hq : IsQuotaEnabled (quotaManager (newManager limitedRule)) = true) by reflexivity.
  assert (Hid : Identifier limitedResponse = "anonymous") by (vm_compute; reflexivity).
  assert (K1 : GetQuotaKey "anonymous"
                 (periodLabel (QuotaSettings.Period (quotaManager (newManager limitedRule)))
                    (clock (snd (limiterGate (newManager limitedRule) "anonymous"
                                   (Sample.world Sample.noon 1000)))
                       (ticks (snd (limiterGate (newManager limitedRule) "anonymous"
                                      (Sample.world Sample.noon 1000))))))
               = "quota:anonymous:2024-03-15") by (vm_compute; reflexivity).
  assert (K2 : GetQuotaKey "anonymous"
                 (periodLabel (QuotaSettings.Period (quotaManager (newManager limitedRule)))
                    (clock (snd (writeQuotaHeaders limitedResponse
                                   (snd (findMatch limitedPlugin Sample.noHeaders
                                           ["Header:X-User-ID:anonymous"]
                                           (Sample.world Sample.noon 1000)))))
                       (ticks (snd (writeQuotaHeaders limitedResponse
                                      (snd (findMatch limitedPlugin Sample.noHeaders
                                              ["Header:X-User-ID:anonymous"]
                                              (Sample.world Sample.noon 1000))))))))
               = "quota:anonymous:2024-03-15") by (vm_compute; reflexivity).
  pose proof (pass_order ["Header:X-User-ID:anonymous"] limitedPlugin Sample.noHeaders
                (Sample.world Sample.noon 1000) limitedResponse (newManager limitedRule)
                _ Hf Ha Hq) as H.
  cbv zeta in H. rewrite Hid in H. rewrite K1, K2 in H.
  destruct H as (limiter & info & tail & E & _ & _ & Hcfg & _ & Ed & Hi & _).
  destruct (Hcfg (IdentifierConfig.RateLimit limitedRule) eq_refl eq_refl)
    as (_ & rest & reads & _ & Hl & _).
  exists limiter, info, tail.
  split; [exact E|]. split; [exists (rest ++ reads); exact Hl|]. split; [exact Hi|exact Ed].
Defined.

(** C2, counterexample: in the run of one passing request the quota is consumed before
    the downstream handler is called, not after it. *)
Lemma pass_order_counterexample :
  consume_after_downstream (trace (snd limitedRun)) = false
  /\ occurs_before is_consume is_downstream (trace (snd limitedRun)) = true.
Proof. split; vm_compute; reflexivity. Qed.

(** ** The visiting order of the rules *)

(** C1, at the failing input.  The two-rule configuration is accepted by [New]; both
    lists below are orders in which [range] may visit the resulting map; on a request
    without headers the first order resolves to the sentinel rule, the second to the IP
    rule, while the resolver of the specification (configured order, first match)
    yields the sentinel rule. *)
Theorem range_order_decides_rule :
  New twoRules = (Some twoRulesPlugin, None)
  /\ range_order twoRulesPlugin ["Header:X-User-ID:anonymous"; "IP::"]
  /\ range_order twoRulesPlugin ["IP::"; "Header:X-User-ID:anonymous"]
  /\ resolved (fst (findMatch twoRulesPlugin Sample.noHeaders
                      ["Header:X-User-ID:anonymous"; "IP::"] (Sample.world Sample.noon 1000)))
     = Some ("Header:X-User-ID:anonymous", "anonymous")
  /\ resolved (fst (findMatch twoRulesPlugin Sample.noHeaders
                      ["IP::"; "Header:X-User-ID:anonymous"] (Sample.world Sample.noon 1000)))
     = Some ("IP::", "10.0.0.1")
  /\ resolve_in_configured_order (Identifiers twoRules) Sample.noHeaders
     = Some ("Header:X-User-ID:anonymous", "anonymous").
Proof.
  assert (K : map fst (map_to_list (managers twoRulesPlugin))
              = ["IP::"; "Header:X-User-ID:anonymous"]) by (vm_compute; reflexivity).
  split; [vm_compute; reflexivity|].
  split; [unfold range_order; rewrite K; apply perm_swap|].
  split; [unfold range_order; rewrite K; reflexivity|].
  repeat split; vm_compute; reflexivity.
Qed.

(** * The arithmetic of the token bucket *)

(** ** Binary digits *)

Lemma digits2_pos_log2 (p : positive) : Zpos (digits2_pos p) = Z.log2 (Zpos p) + 1.
Proof.
  induction p as [p IH|p IH|]; simpl digits2_pos.
  - rewrite Pos2Z.inj_succ, IH. change (Zpos p~1) with (2 * Zpos p + 1).
    rewrite Z.log2_succ_double by lia. lia.
  - rewrite Pos2Z.inj_succ, IH. change (Zpos p~0) with (2 * Zpos p).
    rewrite Z.log2_double by lia. lia.
  - reflexivity.
Qed.

Lemma digits_bounds (m : Z) :
  0 < m -> 2 ^ (Zdigits2 m - 1) <= m < 2 ^ Zdigits2 m.
Proof.
  intros Hm. destruct m as [|p|p]; try lia. simpl Zdigits2.
  rewrite digits2_pos_log2. replace (Z.log2 (Zpos p) + 1 - 1) with (Z.log2 (Zpos p)) by lia.
  apply Z.log2_spec. lia.
Qed.

Lemma digits_unique (m d : Z) : 2 ^ (d - 1) <= m < 2 ^ d -> 0 < m -> Zdigits2 m = d.
Proof.
  intros H Hm. destruct m as [|p|p]; try lia. simpl Zdigits2. rewrite digits2_pos_log2.
  assert (0 <= d - 1).
  { destruct (Z_lt_le_dec (d - 1) 0) as [Hd|Hd]; [|exact Hd].
    exfalso. assert (d <= 0) by lia.
    destruct (Z.eq_dec d 0) as [->|Hne]; [simpl in H; lia|].
    rewrite (Z.pow_neg_r 2 d) in H by lia. lia. }
  rewrite (Z.log2_unique (Zpos p) (d - 1)); try lia.
  replace (Z.succ (d - 1)) with d by lia. exact H.
Qed.

Lemma digits_pos (m : Z) : 0 < m -> 1 <= Zdigits2 m.
Proof. destruct m; simpl; lia. Qed.

Lemma digits_lt_pow (m d : Z) : 0 < m -> m < 2 ^ d -> Zdigits2 m <= d.
Proof.
  intros Hm H. destruct (Z_le_gt_dec (Zdigits2 m) d) as [|Hgt]; [assumption|exfalso].
  pose proof (digits_bounds m Hm) as [Hlo _].
  assert (2 ^ d <= 2 ^ (Zdigits2 m - 1)).
  { apply Z.pow_le_mono_r; try lia.  }
  lia.
Qed.

Lemma digits_ge_pow (m d : Z) : 0 < m -> 2 ^ (d - 1) <= m -> d <= Zdigits2 m.
Proof.
  intros Hm H. destruct (Z_le_gt_dec d (Zdigits2 m)) as [|Hgt]; [assumption|exfalso].
  pose proof (digits_bounds m Hm) as [_ Hhi].
  pose proof (digits_pos m Hm).
  assert (2 ^ Zdigits2 m <= 2 ^ (d - 1)) by (apply Z.pow_le_mono_r; lia).
  lia.
Qed.

Lemma digits_le (a b : Z) : 0 < a -> a <= b -> Zdigits2 a <= Zdigits2 b.
Proof.
  intros Ha Hab. apply digits_ge_pow; [lia|].
  pose proof (digits_bounds a Ha). lia.
Qed.

Lemma digits_mul_pow (m k : Z) : 0 < m -> 0 <= k -> Zdigits2 (m * 2 ^ k) = Zdigits2 m + k.
Proof.
  intros Hm Hk. pose proof (digits_bounds m Hm) as [Hlo Hhi]. pose proof (digits_pos m Hm).
  assert (0 < 2 ^ k) by (apply Z.pow_pos_nonneg; lia).
  apply digits_unique; [|nia].
  replace (Zdigits2 m + k - 1) with ((Zdigits2 m - 1) + k) by lia.
  rewrite !Z.pow_add_r by lia. split; nia.
Qed.

Lemma pow2_pos (k : Z) : 0 <= k -> 0 < 2 ^ k.
Proof. intros. apply Z.pow_pos_nonneg; lia. Qed.

(** ** Shifting a mantissa to the right *)

Lemma shr_1_m (r : shr_record) : 0 <= shr_m r -> shr_m (shr_1 r) = shr_m r / 2.
Proof.
  destruct r as [[|[p|p|]|[p|p|]] a b]; simpl; intros H; try lia; try reflexivity.
  - change (Zpos p~1) with (2 * Zpos p + 1). apply Z.div_unique with 1; lia.
  - change (Zpos p~0) with (2 * Zpos p). apply Z.div_unique with 0; lia.
Qed.

Lemma shr_1_nonneg (r : shr_record) : 0 <= shr_m r -> 0 <= shr_m (shr_1 r).
Proof. intros H. rewrite shr_1_m by assumption. apply Z.div_pos; lia. Qed.

Lemma iter_pos_shr_m (n : positive) (r : shr_record) :
  0 <= shr_m r ->
  shr_m (SpecFloat.iter_pos shr_1 n r) = shr_m r / 2 ^ Zpos n /\ 0 <= shr_m (SpecFloat.iter_pos shr_1 n r).
Proof.
  revert r. induction n as [n IH|n IH|]; intros r Hr; simpl SpecFloat.iter_pos.
  - pose proof (shr_1_nonneg r Hr) as H1. pose proof (shr_1_m r Hr) as E1.
    destruct (IH (shr_1 r) H1) as [E2 H2].
    destruct (IH (SpecFloat.iter_pos shr_1 n (shr_1 r)) H2) as [E3 H3].
    split; [|assumption]. rewrite E3, E2, E1.
    rewrite !Z.div_div by (try apply pow2_pos; lia).
    f_equal. rewrite Pos2Z.inj_xI.
    replace (2 * Zpos n + 1) with (1 + Zpos n + Zpos n) by lia.
    rewrite !Z.pow_add_r by lia. lia.
  - destruct (IH r Hr) as [E2 H2].
    destruct (IH (SpecFloat.iter_pos shr_1 n r) H2) as [E3 H3].
    split; [|assumption]. rewrite E3, E2.
    rewrite !Z.div_div by (try apply pow2_pos; lia).
    f_equal. rewrite <- Z.pow_add_r by lia. f_equal. lia.
  - split; [|apply shr_1_nonneg; assumption]. rewrite shr_1_m by assumption. reflexivity.
Qed.

Lemma round_nearest_even_bounds (q : Z) (l : location) :
  q <= round_nearest_even q l <= q + 1.
Proof. destruct l as [|[]]; simpl; try lia. destruct (Z.even q); lia. Qed.

Lemma loc_of_shr_record_of_loc (m : Z) (l : location) :
  loc_of_shr_record (shr_record_of_loc m l) = l.
Proof. destruct l as [|[]]; reflexivity. Qed.

Lemma shr_m_of_loc (m : Z) (l : location) : shr_m (shr_record_of_loc m l) = m.
Proof. destruct l as [|[]]; reflexivity. Qed.

(** ** The shape of a rounded result *)

Lemma fexp_eq (mu : Z) : fexp prec emax mu = Z.max (mu - 53) (-1074).
Proof. reflexivity. Qed.

Lemma fexp_mono (a b : Z) : a <= b -> fexp prec emax a <= fexp prec emax b.
Proof. rewrite !fexp_eq. lia. Qed.

(** The last step of a rounding: a mantissa of at most 53 digits (or the carry
    [2^53]) with its exponent becomes a float, or overflows. *)
Definition pack (s : bool) (m e : Z) : spec_float :=
  match m with
  | Z0 => S754_zero s
  | Zpos p =>
      if m =? 2 ^ 53 then
        if e + 1 <=? 971 then S754_finite s (2 ^ 52)%positive (e + 1) else S754_infinity s
      else if e <=? 971 then S754_finite s p e else S754_infinity s
  | Zneg _ => S754_nan
  end.

Definition finish (s : bool) (m e : Z) : spec_float :=
  let '(mrs, e') := shr_fexp prec emax m e loc_Exact in
  match shr_m mrs with
  | Z0 => S754_zero s
  | Zpos p => if e' <=? emax - prec then S754_finite s p e' else S754_infinity s
  | Zneg _ => S754_nan
  end.

Lemma finish_pack (s : bool) (m e : Z) :
  0 <= m <= 2 ^ 53 -> -1074 <= e -> finish s m e = pack s m e.
Proof.
  intros Hm He. unfold finish, shr_fexp. rewrite fexp_eq.
  destruct (Z.eq_dec m 0) as [->|Hnz].
  { simpl Zdigits2. replace (Z.max (0 + e - 53) (-1074) - e) with (Z.max (-53) (-1074 - e)) by lia.
    destruct (Z.max (-53) (-1074 - e)) eqn:E; try lia; reflexivity. }
  destruct (Z.eq_dec m (2 ^ 53)) as [->|Hne].
  { change (Zdigits2 (2 ^ 53)) with 54.
    replace (Z.max (54 + e - 53) (-1074) - e) with 1 by lia.
    unfold pack. change (2 ^ 53 =? 2 ^ 53) with true. cbv iota.
    simpl shr. change (emax - prec) with 971. reflexivity. }
  assert (Hd : Zdigits2 m <= 53) by (apply digits_lt_pow; lia).
  destruct (Z.max (Zdigits2 m + e - 53) (-1074) - e) as [|k|k] eqn:E; try lia;
    simpl shr; simpl shr_m; unfold pack; destruct m as [|p|p]; try lia;
    (destruct (Z.eqb_spec (Zpos p) (2 ^ 53)); [contradiction|]); reflexivity.
Qed.

Lemma binary_round_aux_finish (s : bool) (m e : Z) (l : location) :
  binary_round_aux prec emax s m e l =
  let '(mrs, e') := shr_fexp prec emax m e l in
  finish s (round_nearest_even (shr_m mrs) (loc_of_shr_record mrs)) e'.
Proof. reflexivity. Qed.

Lemma round_aux_shape (s : bool) (m e : Z) (l : location) :
  0 < m ->
  let e' := Z.max e (fexp prec emax (Zdigits2 m + e)) in
  exists m',
    m / 2 ^ (e' - e) <= m' <= m / 2 ^ (e' - e) + 1 /\
    (l = loc_Exact -> e' = e -> m' = m) /\
    m / 2 ^ (e' - e) < 2 ^ 53 /\
    binary_round_aux prec emax s m e l = pack s m' e'.
Proof.
  intros Hm e'. rewrite binary_round_aux_finish. unfold shr_fexp.
  pose proof (digits_bounds m Hm) as [Hlo Hhi]. pose proof (digits_pos m Hm) as Hd.
  assert (Hf : fexp prec emax (Zdigits2 m + e) = Z.max (Zdigits2 m + e - 53) (-1074)) by apply fexp_eq.
  destruct (fexp prec emax (Zdigits2 m + e) - e) as [|n|n] eqn:En.
  - (* no shift *)
    assert (He' : e' = e) by (unfold e'; lia).
    unfold shr; cbv beta iota. rewrite shr_m_of_loc, loc_of_shr_record_of_loc.
    exists (round_nearest_even m l). rewrite He'. replace (e - e) with 0 by lia.
    rewrite Z.pow_0_r, Z.div_1_r.
    pose proof (round_nearest_even_bounds m l) as Hr.
    assert (Hm53 : m < 2 ^ 53).
    { apply Z.lt_le_trans with (2 ^ Zdigits2 m); [assumption|].
      apply Z.pow_le_mono_r; lia. }
    split; [exact Hr|]. split; [intros -> _; reflexivity|]. split; [lia|].
    apply finish_pack; lia.
  - (* shift to the right *)
    assert (He' : e' = e + Zpos n) by (unfold e'; lia).
    unfold shr; cbv beta iota.
    destruct (iter_pos_shr_m n (shr_record_of_loc m l)) as [Eq Hq];
      [rewrite shr_m_of_loc; lia|]. rewrite shr_m_of_loc in Eq.
    set (r := SpecFloat.iter_pos shr_1 n (shr_record_of_loc m l)) in *.
    exists (round_nearest_even (shr_m r) (loc_of_shr_record r)).
    rewrite He'. replace (e + Zpos n - e) with (Zpos n) by lia. rewrite <- Eq.
    pose proof (round_nearest_even_bounds (shr_m r) (loc_of_shr_record r)) as Hr.
    assert (Hq53 : shr_m r < 2 ^ 53).
    { rewrite Eq. apply Z.div_lt_upper_bound; [apply pow2_pos; lia|].
      rewrite <- Z.pow_add_r by lia.
      apply Z.lt_le_trans with (2 ^ Zdigits2 m); [assumption|].
      apply Z.pow_le_mono_r; lia. }
    split; [exact Hr|]. split; [intros _ Habs; lia|]. split; [lia|].
    apply finish_pack; lia.
  - (* the exponent already exceeds the target *)
    assert (He' : e' = e) by (unfold e'; lia).
    unfold shr; cbv beta iota. rewrite shr_m_of_loc, loc_of_shr_record_of_loc.
    exists (round_nearest_even m l). rewrite He'. replace (e - e) with 0 by lia.
    rewrite Z.pow_0_r, Z.div_1_r.
    pose proof (round_nearest_even_bounds m l) as Hr.
    assert (Hm53 : m < 2 ^ 53).
    { apply Z.lt_le_trans with (2 ^ Zdigits2 m); [assumption|].
      apply Z.pow_le_mono_r; lia. }
    split; [exact Hr|]. split; [intros -> _; reflexivity|]. split; [lia|].
    apply finish_pack; lia.
Qed.

Lemma digits_div_pow (m k : Z) :
  0 < m -> 0 <= k < Zdigits2 m ->
  0 < m / 2 ^ k /\ Zdigits2 (m / 2 ^ k) = Zdigits2 m - k.
Proof.
  intros Hm Hk. pose proof (digits_bounds m Hm) as [Hlo Hhi].
  pose proof (pow2_pos k (proj1 Hk)) as Hp.
  assert (Hq : 2 ^ (Zdigits2 m - k - 1) <= m / 2 ^ k < 2 ^ (Zdigits2 m - k)).
  { split.
    - apply Z.div_le_lower_bound; [assumption|].
      rewrite <- Z.pow_add_r by lia.
      replace (k + (Zdigits2 m - k - 1)) with (Zdigits2 m - 1) by lia. assumption.
    - apply Z.div_lt_upper_bound; [assumption|].
      rewrite <- Z.pow_add_r by lia.
      replace (k + (Zdigits2 m - k)) with (Zdigits2 m) by lia. assumption. }
  assert (0 < 2 ^ (Zdigits2 m - k - 1)) by (apply pow2_pos; lia).
  split; [lia|]. apply digits_unique; [exact Hq|lia].
Qed.

Lemma digits_succ (q : Z) : 0 < q -> Zdigits2 q <= Zdigits2 (q + 1) <= Zdigits2 q + 1.
Proof.
  intros Hq. split; [apply digits_le; lia|].
  apply digits_lt_pow; [lia|]. pose proof (digits_bounds q Hq) as [_ Hhi].
  pose proof (digits_pos q Hq).
  rewrite Z.pow_add_r by lia. change (2 ^ 1) with 2. lia.
Qed.

Lemma digits_mul (a b : Z) :
  0 < a -> 0 < b ->
  Zdigits2 a + Zdigits2 b - 1 <= Zdigits2 (a * b) <= Zdigits2 a + Zdigits2 b.
Proof.
  intros Ha Hb.
  pose proof (digits_bounds a Ha) as [Ha1 Ha2]. pose proof (digits_bounds b Hb) as [Hb1 Hb2].
  pose proof (digits_pos a Ha). pose proof (digits_pos b Hb).
  assert (0 < 2 ^ (Zdigits2 a - 1)) by (apply pow2_pos; lia).
  assert (0 < 2 ^ (Zdigits2 b - 1)) by (apply pow2_pos; lia).
  split.
  - apply digits_ge_pow; [nia|].
    replace (Zdigits2 a + Zdigits2 b - 1 - 1) with ((Zdigits2 a - 1) + (Zdigits2 b - 1)) by lia.
    rewrite Z.pow_add_r by lia. nia.
  - apply digits_lt_pow; [nia|]. rewrite Z.pow_add_r by lia. nia.
Qed.

(** ** Magnitudes *)

(** [fin_in s lo hi x]: [x] is finite and not zero, has sign [s], and its absolute
    value lies in [[2^(lo-1), 2^hi)]. *)
Definition fin_in (s : bool) (lo hi : Z) (x : spec_float) : Prop :=
  exists m e, x = S754_finite s m e /\ lo <= Zdigits2 (Zpos m) + e <= hi.

Lemma fin_in_weaken (s : bool) (lo hi lo' hi' : Z) (x : spec_float) :
  fin_in s lo hi x -> lo' <= lo -> hi <= hi' -> fin_in s lo' hi' x.
Proof. intros (m & e & -> & H) ? ?. exists m, e. split; [reflexivity|lia]. Qed.

Lemma round_aux_fin (s : bool) (m e : Z) (l : location) :
  0 < m -> -1074 < Zdigits2 m + e -> Zdigits2 m + e <= 1023 -> e <= 971 ->
  fin_in s (Zdigits2 m + e) (Zdigits2 m + e + 1) (binary_round_aux prec emax s m e l).
Proof.
  intros Hm Hlo Hhi He.
  destruct (round_aux_shape s m e l Hm) as (m' & Hq & _ & Hm' & ->).
  pose proof (fexp_eq (Zdigits2 m + e)) as Hf.
  set (e' := Z.max e (fexp prec emax (Zdigits2 m + e))) in *.
  pose proof (digits_pos m Hm) as Hd.
  assert (Hk : 0 <= e' - e < Zdigits2 m) by (unfold e'; lia).
  destruct (digits_div_pow m (e' - e) Hm Hk) as [Hq0 Hdq].
  set (q := m / 2 ^ (e' - e)) in *.
  assert (Hdm' : Zdigits2 q <= Zdigits2 m' <= Zdigits2 q + 1).
  { destruct (Z.eq_dec m' q) as [->|Hne]; [lia|].
    replace m' with (q + 1) by lia. apply digits_succ. exact Hq0. }
  unfold pack. destruct m' as [|p|p]; try lia.
  destruct (Z.eqb_spec (Zpos p) (2 ^ 53)) as [E|NE].
  - rewrite E in Hdm'. change (Zdigits2 (2 ^ 53)) with 54 in Hdm'.
    assert (Hdq53 : Zdigits2 q <= 53).
    { apply digits_lt_pow; [lia|]. exact Hm'. }
    destruct (Z.leb_spec (e' + 1) 971); [|unfold e' in *; lia].
    exists (2 ^ 52)%positive, (e' + 1). split; [reflexivity|].
    change (Zdigits2 (Zpos (2 ^ 52))) with 53. lia.
  - destruct (Z.leb_spec e' 971); [|unfold e' in *; lia].
    exists p, e'. split; [reflexivity|]. lia.
Qed.

Lemma round_aux_nonzero (s s' : bool) (m e : Z) (l : location) :
  0 < m -> -1074 < Zdigits2 m + e ->
  binary_round_aux prec emax s m e l <> S754_zero s'.
Proof.
  intros Hm Hlo.
  destruct (round_aux_shape s m e l Hm) as (m' & Hq & _ & Hm' & ->).
  pose proof (fexp_eq (Zdigits2 m + e)) as Hf.
  set (e' := Z.max e (fexp prec emax (Zdigits2 m + e))) in *.
  pose proof (digits_pos m Hm) as Hd.
  assert (Hk : 0 <= e' - e < Zdigits2 m) by (unfold e'; lia).
  destruct (digits_div_pow m (e' - e) Hm Hk) as [Hq0 _].
  unfold pack. destruct m' as [|p|p]; try lia.
  destruct (Zpos p =? 2 ^ 53); [destruct (e' + 1 <=? 971)|destruct (e' <=? 971)]; discriminate.
Qed.

(** [signed s x]: [x] is not a NaN and its sign bit is [s]. *)
Definition signed (s : bool) (x : spec_float) : Prop :=
  match x with
  | S754_zero s' | S754_finite s' _ _ | S754_infinity s' => s' = s
  | S754_nan => False
  end.

Lemma pack_signed (s : bool) (m e : Z) : 0 <= m -> signed s (pack s m e).
Proof.
  intros Hm. unfold pack. destruct m as [|p|p]; try lia; [reflexivity|].
  destruct (Zpos p =? 2 ^ 53); [destruct (e + 1 <=? 971)|destruct (e <=? 971)]; reflexivity.
Qed.

Lemma fin_in_signed (s : bool) (lo hi : Z) (x : spec_float) : fin_in s lo hi x -> signed s x.
Proof. intros (m & e & -> & _). reflexivity. Qed.

(** ** Rounding after alignment *)

Lemma iter_xO (m d : positive) : Zpos (Pos.iter xO m d) = Zpos m * 2 ^ Zpos d.
Proof.
  change (Pos.iter xO m d) with (shift_pos d m). rewrite shift_pos_correct.
  change (Z.pow_pos 2 d) with (2 ^ Zpos d). lia.
Qed.

Lemma shl_align_spec (mx : positive) (ex ex' : Z) :
  exists m e, shl_align mx ex ex' = (m, e) /\ e = Z.min ex ex' /\
              Zpos m = Zpos mx * 2 ^ (ex - e).
Proof.
  unfold shl_align. destruct (ex' - ex) as [|d|d] eqn:E.
  - exists mx, ex. split; [reflexivity|]. split; [lia|].
    replace (ex - ex) with 0 by lia. simpl. lia.
  - exists mx, ex. split; [reflexivity|]. split; [lia|].
    replace (ex - ex) with 0 by lia. simpl. lia.
  - exists (Pos.iter xO mx d), ex'. split; [reflexivity|]. split; [lia|].
    rewrite iter_xO. replace (ex - ex') with (Zpos d) by lia. reflexivity.
Qed.

Lemma binary_round_shape (s : bool) (m : positive) (e : Z) :
  let f := fexp prec emax (Zdigits2 (Zpos m) + e) in
  exists m',
    binary_round prec emax s m e = pack s m' f /\ 0 <= m' <= 2 ^ 53 /\
    (f <= e -> m' = Zpos m * 2 ^ (e - f)) /\
    (e < f -> Zpos m / 2 ^ (f - e) <= m' <= Zpos m / 2 ^ (f - e) + 1).
Proof.
  intros f. unfold binary_round.
  change (Zpos (digits2_pos m)) with (Zdigits2 (Zpos m)). fold f.
  destruct (shl_align_spec m e f) as (m1 & e1 & -> & He1 & Hm1).
  assert (Hd1 : Zdigits2 (Zpos m1) + e1 = Zdigits2 (Zpos m) + e).
  { rewrite Hm1, digits_mul_pow by lia. lia. }
  destruct (round_aux_shape s (Zpos m1) e1 loc_Exact) as (m' & Hq & Hex & Hm' & ->); [lia|].
  rewrite Hd1. fold f. rewrite Hd1 in Hq, Hex, Hm'. fold f in Hq, Hex, Hm'.
  replace (Z.max e1 f) with f in * by lia.
  exists m'. split; [reflexivity|].
  assert (0 <= Zpos m1 / 2 ^ (f - e1)).
  { apply Z.div_pos; [lia|]. apply pow2_pos. lia. }
  split; [lia|]. split.
  - intros Hfe. rewrite (Hex eq_refl) by lia. rewrite Hm1. f_equal. f_equal. lia.
  - intros Hef. assert (E1 : e1 = e) by lia.
    assert (Em : Zpos m1 = Zpos m).
    { rewrite Hm1, E1. replace (e - e) with 0 by lia. apply Z.mul_1_r. }
    rewrite <- Em, <- E1. exact Hq.
Qed.

Lemma binary_round_fin (s : bool) (m : positive) (e : Z) :
  -1074 < Zdigits2 (Zpos m) + e -> Zdigits2 (Zpos m) + e <= 1023 ->
  fin_in s (Zdigits2 (Zpos m) + e) (Zdigits2 (Zpos m) + e + 1) (binary_round prec emax s m e).
Proof.
  intros Hlo Hhi. unfold binary_round.
  change (Zpos (digits2_pos m)) with (Zdigits2 (Zpos m)).
  pose proof (fexp_eq (Zdigits2 (Zpos m) + e)) as Hf.
  destruct (shl_align_spec m e (fexp prec emax (Zdigits2 (Zpos m) + e)))
    as (m1 & e1 & -> & He1 & Hm1).
  assert (Hd1 : Zdigits2 (Zpos m1) + e1 = Zdigits2 (Zpos m) + e).
  { rewrite Hm1, digits_mul_pow by lia. lia. }
  rewrite <- Hd1. apply round_aux_fin; lia.
Qed.

Lemma binary_round_nonzero (s s' : bool) (m : positive) (e : Z) :
  -1074 < Zdigits2 (Zpos m) + e -> binary_round prec emax s m e <> S754_zero s'.
Proof.
  intros Hlo. unfold binary_round.
  change (Zpos (digits2_pos m)) with (Zdigits2 (Zpos m)).
  destruct (shl_align_spec m e (fexp prec emax (Zdigits2 (Zpos m) + e)))
    as (m1 & e1 & -> & He1 & Hm1).
  assert (Hd1 : Zdigits2 (Zpos m1) + e1 = Zdigits2 (Zpos m) + e).
  { rewrite Hm1, digits_mul_pow by lia. lia. }
  apply round_aux_nonzero; lia.
Qed.

Lemma binary_round_signed (s : bool) (m : positive) (e : Z) :
  signed s (binary_round prec emax s m e).
Proof.
  destruct (binary_round_shape s m e) as (m' & -> & Hm' & _). apply pack_signed. lia.
Qed.

(** ** Magnitudes of products, quotients and sums *)

Lemma SFmul_fin (sx sy : bool) (a b c d : Z) (x y : spec_float) :
  fin_in sx a b x -> fin_in sy c d y ->
  -1074 < a + c - 1 -> b + d <= 973 ->
  fin_in (xorb sx sy) (a + c - 1) (b + d + 1) (SFmul prec emax x y).
Proof.
  intros (mx & ex & -> & Hx) (my & ey & -> & Hy) Hlo Hhi. simpl SFmul.
  pose proof (digits_mul (Zpos mx) (Zpos my) eq_refl eq_refl) as Hd.
  pose proof (digits_pos (Zpos mx) eq_refl). pose proof (digits_pos (Zpos my) eq_refl).
  change (Zpos (mx * my)) with (Zpos mx * Zpos my).
  eapply fin_in_weaken; [apply round_aux_fin| |]; lia.
Qed.

Lemma SFdiv_fin (sx sy : bool) (a b c d : Z) (x y : spec_float) :
  fin_in sx a b x -> fin_in sy c d y ->
  -1074 <= a - d - 53 -> b - c <= 1022 ->
  fin_in (xorb sx sy) (a - d) (b - c + 2) (SFdiv prec emax x y).
Proof.
  intros (mx & ex & -> & Hx) (my & ey & -> & Hy) Hlo Hhi. simpl SFdiv.
  unfold SFdiv_core_binary.
  set (dx := Zdigits2 (Zpos mx)) in *. set (dy := Zdigits2 (Zpos my)) in *.
  pose proof (fexp_eq (dx + ex - (dy + ey))) as Hf.
  set (e' := Z.min (fexp prec emax (dx + ex - (dy + ey))) (ex - ey)) in *.
  assert (Hs : 53 + dy - dx <= ex - ey - e') by (unfold e'; lia).
  assert (Hs0 : 0 <= ex - ey - e') by (unfold e'; lia).
  set (sh := ex - ey - e') in *.
  pose proof (digits_bounds (Zpos mx) eq_refl) as [Hx1 Hx2]. fold dx in Hx1, Hx2.
  pose proof (digits_bounds (Zpos my) eq_refl) as [Hy1 Hy2]. fold dy in Hy1, Hy2.
  pose proof (digits_pos (Zpos mx) eq_refl) as Hdx. fold dx in Hdx.
  pose proof (digits_pos (Zpos my) eq_refl) as Hdy. fold dy in Hdy.
  assert (Hm' : match sh with
                | 0 => Zpos mx | Zpos _ => Z.shiftl (Zpos mx) sh | Zneg _ => 0 end
                = Zpos mx * 2 ^ sh).
  { clearbody sh. destruct sh as [|p|p]; try lia.
    rewrite Z.shiftl_mul_pow2 by lia. reflexivity. }
  rewrite Hm'. clear Hm'.
  set (n := Zpos mx * 2 ^ sh).
  assert (Hn : Zdigits2 n = dx + sh) by (apply digits_mul_pow; lia).
  assert (Hn0 : 0 < n) by (pose proof (pow2_pos sh Hs0); unfold n; nia).
  pose proof (digits_bounds n Hn0) as [Hn1 Hn2]. rewrite Hn in Hn1, Hn2.
  destruct (Z.div_eucl n (Zpos my)) as [q r] eqn:Ediv.
  assert (Eq : q = n / Zpos my) by (unfold Z.div; rewrite Ediv; reflexivity).
  assert (Hqlo : 2 ^ (dx + sh - dy - 1) <= q).
  { rewrite Eq. apply Z.div_le_lower_bound; [lia|].
    apply Z.le_trans with (2 ^ dy * 2 ^ (dx + sh - dy - 1)).
    - apply Z.mul_le_mono_nonneg_r; [apply Z.lt_le_incl, pow2_pos; lia|lia].
    - rewrite <- Z.pow_add_r by lia.
      replace (dy + (dx + sh - dy - 1)) with (dx + sh - 1) by lia. exact Hn1. }
  assert (Hqhi : q < 2 ^ (dx + sh - dy + 1)).
  { rewrite Eq. apply Z.div_lt_upper_bound; [lia|].
    apply Z.lt_le_trans with (2 ^ (dx + sh)); [exact Hn2|].
    apply Z.le_trans with (2 ^ (dy - 1) * 2 ^ (dx + sh - dy + 1)).
    - rewrite <- Z.pow_add_r by lia. apply Z.pow_le_mono_r; lia.
    - apply Z.mul_le_mono_nonneg_r; [apply Z.lt_le_incl, pow2_pos; lia|lia]. }
  assert (Hq0 : 0 < q).
  { pose proof (pow2_pos (dx + sh - dy - 1)). lia. }
  assert (Hdq : dx + sh - dy <= Zdigits2 q <= dx + sh - dy + 1).
  { split; [apply digits_ge_pow|apply digits_lt_pow]; assumption. }
  eapply fin_in_weaken; [apply round_aux_fin| |]; unfold sh, e' in *; lia.
Qed.

Lemma cond_Zopp_sum (s : bool) (a b : positive) :
  cond_Zopp s (Zpos a) + cond_Zopp s (Zpos b) = cond_Zopp s (Zpos (a + b)).
Proof. destruct s; reflexivity. Qed.

Lemma binary_normalize_signed (s : bool) (m : positive) (e : Z) (sz : bool) :
  binary_normalize prec emax (cond_Zopp s (Zpos m)) e sz = binary_round prec emax s m e.
Proof. destruct s; reflexivity. Qed.

Lemma SFadd_fin (s : bool) (a b c d : Z) (x y : spec_float) :
  fin_in s a b x -> fin_in s c d y ->
  -1074 < Z.max a c -> Z.max b d <= 1022 ->
  fin_in s (Z.max a c) (Z.max b d + 2) (SFadd prec emax x y).
Proof.
  intros (mx & ex & -> & Hx) (my & ey & -> & Hy) Hlo Hhi. simpl SFadd.
  destruct (shl_align_spec mx ex (Z.min ex ey)) as (mx' & ex' & Ex & Hex' & Hmx').
  destruct (shl_align_spec my ey (Z.min ex ey)) as (my' & ey' & Ey & Hey' & Hmy').
  rewrite Ex, Ey. simpl fst.
  rewrite cond_Zopp_sum, binary_normalize_signed.
  assert (Hdx : Zdigits2 (Zpos mx') = Zdigits2 (Zpos mx) + (ex - ex')).
  { rewrite Hmx'. apply digits_mul_pow; lia. }
  assert (Hdy : Zdigits2 (Zpos my') = Zdigits2 (Zpos my) + (ey - ey')).
  { rewrite Hmy'. apply digits_mul_pow; lia. }
  assert (Hsum : Z.max (Zdigits2 (Zpos mx')) (Zdigits2 (Zpos my'))
                 <= Zdigits2 (Zpos (mx' + my'))
                 <= Z.max (Zdigits2 (Zpos mx')) (Zdigits2 (Zpos my')) + 1).
  { change (Zpos (mx' + my')) with (Zpos mx' + Zpos my').
    pose proof (digits_le (Zpos mx') (Zpos mx' + Zpos my') eq_refl ltac:(lia)).
    pose proof (digits_le (Zpos my') (Zpos mx' + Zpos my') eq_refl ltac:(lia)).
    split; [lia|].
    apply digits_lt_pow; [lia|].
    pose proof (digits_bounds (Zpos mx') eq_refl) as [_ H1].
    pose proof (digits_bounds (Zpos my') eq_refl) as [_ H2].
    pose proof (digits_pos (Zpos mx') eq_refl). pose proof (digits_pos (Zpos my') eq_refl).
    rewrite Z.pow_add_r by lia. change (2 ^ 1) with 2.
    assert (2 ^ Zdigits2 (Zpos mx') <= 2 ^ Z.max (Zdigits2 (Zpos mx')) (Zdigits2 (Zpos my')))
      by (apply Z.pow_le_mono_r; lia).
    assert (2 ^ Zdigits2 (Zpos my') <= 2 ^ Z.max (Zdigits2 (Zpos mx')) (Zdigits2 (Zpos my')))
      by (apply Z.pow_le_mono_r; lia).
    lia. }
  set (dz := Zdigits2 (Zpos (mx' + my'))) in *.
  assert (Hmu : Z.max (Zdigits2 (Zpos mx) + ex) (Zdigits2 (Zpos my) + ey)
                <= dz + Z.min ex ey
                <= Z.max (Zdigits2 (Zpos mx) + ex) (Zdigits2 (Zpos my) + ey) + 1) by lia.
  apply fin_in_weaken with (lo := dz + Z.min ex ey) (hi := dz + Z.min ex ey + 1); try lia.
  apply binary_round_fin; fold dz; lia.
Qed.

(** ** Conversions of integers *)

Lemma float64_of_int_zero : Prim2SF (F64.float64_of_int 0) = S754_zero false.
Proof. reflexivity. Qed.

Lemma float64_of_int_pos (z : Z) :
  0 < z < 2 ^ 63 ->
  fin_in false (Zdigits2 z) (Zdigits2 z + 1) (Prim2SF (F64.float64_of_int z)).
Proof.
  intros Hz. unfold F64.float64_of_int.
  destruct (Z.eqb_spec z GoStr.minInt64) as [E|_]; [unfold GoStr.minInt64 in E; lia|].
  destruct (Z.ltb_spec z 0) as [|_]; [lia|].
  rewrite of_uint63_spec, of_Z_spec.
  change wB with (2 ^ 63). rewrite Z.mod_small by lia.
  destruct z as [|p|p]; try lia. simpl binary_normalize.
  assert (Zdigits2 (Zpos p) <= 63) by (apply digits_lt_pow; lia).
  pose proof (digits_pos (Zpos p) eq_refl).
  replace (Zdigits2 (Zpos p)) with (Zdigits2 (Zpos p) + 0) by lia.
  apply binary_round_fin; lia.
Qed.

Lemma float64_of_int_neg (z : Z) :
  - 2 ^ 63 < z < 0 ->
  fin_in true (Zdigits2 (- z)) (Zdigits2 (- z) + 1) (Prim2SF (F64.float64_of_int z)).
Proof.
  intros Hz. unfold F64.float64_of_int.
  destruct (Z.eqb_spec z GoStr.minInt64) as [E|_]; [unfold GoStr.minInt64 in E; lia|].
  destruct (Z.ltb_spec z 0) as [_|]; [|lia].
  rewrite FloatAxioms.opp_spec, of_uint63_spec, of_Z_spec.
  change wB with (2 ^ 63). rewrite Z.mod_small by lia.
  destruct z as [|p|p]; try lia. simpl Z.opp. simpl binary_normalize.
  assert (Zdigits2 (Zpos p) <= 63) by (apply digits_lt_pow; lia).
  pose proof (digits_pos (Zpos p) eq_refl).
  destruct (binary_round_fin false p 0) as (m & e & E & Hm); [lia|lia|].
  rewrite E. exists m, e. split; [reflexivity|].
  change (Zdigits2 (- Z.neg p)) with (Zdigits2 (Zpos p)). lia.
Qed.

Lemma float64_of_int_fin (z : Z) :
  z <> 0 -> - 2 ^ 63 < z < 2 ^ 63 ->
  fin_in (z <? 0) (Zdigits2 (Z.abs z)) (Zdigits2 (Z.abs z) + 1)
    (Prim2SF (F64.float64_of_int z)).
Proof.
  intros Hnz Hz. destruct (Z.ltb_spec z 0) as [Hneg|Hpos].
  - replace (Z.abs z) with (- z) by lia. apply float64_of_int_neg. lia.
  - replace (Z.abs z) with z by lia. apply float64_of_int_pos. lia.
Qed.

(** ** Durations in seconds *)

Lemma Seconds_zero : Prim2SF (GoTime.Seconds 0) = S754_zero false.
Proof. reflexivity. Qed.

Lemma quot_rem_second (d : Z) :
  d <> 0 -> - 2 ^ 63 <= d < 2 ^ 63 ->
  let q := Z.quot d GoTime.Second in
  let r := Z.rem d GoTime.Second in
  Z.abs q < 2 ^ 34 /\ Z.abs r < 2 ^ 30 /\
  (q <> 0 -> (q <? 0) = (d <? 0)) /\ (r <> 0 -> (r <? 0) = (d <? 0)) /\
  (q = 0 -> r <> 0).
Proof.
  intros Hnz Hd q r. unfold GoTime.Second in *.
  destruct (Z.ltb_spec d 0) as [Hneg|Hpos].
  - assert (Eq : q = - Z.quot (- d) 1000000000).
    { unfold q. rewrite Z.quot_opp_l by lia. lia. }
    assert (Er : r = - Z.rem (- d) 1000000000).
    { unfold r. rewrite Z.rem_opp_l by lia. lia. }
    pose proof (Z.quot_rem' (- d) 1000000000) as H1.
    pose proof (Z.rem_bound_pos (- d) 1000000000) as H2.
    pose proof (Z.quot_pos (- d) 1000000000) as H3.
    rewrite Eq, Er. clear Eq Er.
    repeat split; try lia;
      intros ?; symmetry; apply Z.ltb_lt; lia.
  - pose proof (Z.quot_rem' d 1000000000) as H1.
    pose proof (Z.rem_bound_pos d 1000000000) as H2.
    pose proof (Z.quot_pos d 1000000000) as H3.
    fold q in H1, H3. fold r in H1, H2.
    repeat split; try lia;
      intros ?; symmetry; apply Z.ltb_ge; lia.
Qed.

Lemma billion_fin : fin_in false 30 30 (Prim2SF 1e9).
Proof. exists 8388608000000000%positive, (-23). split; [reflexivity|]. vm_compute. split; discriminate. Qed.

Lemma Seconds_fin (d : Z) :
  d <> 0 -> - 2 ^ 63 <= d < 2 ^ 63 ->
  fin_in (d <? 0) (-29) 37 (Prim2SF (GoTime.Seconds d)).
Proof.
  intros Hnz Hd. unfold GoTime.Seconds.
  destruct (quot_rem_second d Hnz Hd) as (Hq & Hr & Hsq & Hsr & Hqr).
  set (q := Z.quot d GoTime.Second) in *. set (r := Z.rem d GoTime.Second) in *.
  rewrite FloatAxioms.add_spec, FloatAxioms.div_spec.
  assert (Hfrac : r <> 0 ->
                  fin_in (d <? 0) (-29) 3
                    (SFdiv prec emax (Prim2SF (F64.float64_of_int r)) (Prim2SF 1e9))).
  { intros Hr0.
    pose proof (float64_of_int_fin r Hr0 ltac:(lia)) as Hfr. rewrite (Hsr Hr0) in Hfr.
    assert (Hdr : 1 <= Zdigits2 (Z.abs r) <= 30).
    { split; [apply digits_pos; lia|apply digits_lt_pow; lia]. }
    pose proof (SFdiv_fin _ _ _ _ _ _ _ _ Hfr billion_fin ltac:(lia) ltac:(lia)) as H.
    rewrite xorb_false_r in H. eapply fin_in_weaken; [exact H|lia|lia]. }
  assert (Hint : q <> 0 -> fin_in (d <? 0) 1 35 (Prim2SF (F64.float64_of_int q))).
  { intros Hq0.
    pose proof (float64_of_int_fin q Hq0 ltac:(lia)) as Hfq. rewrite (Hsq Hq0) in Hfq.
    assert (Hdq : 1 <= Zdigits2 (Z.abs q) <= 34).
    { split; [apply digits_pos; lia|apply digits_lt_pow; lia]. }
    eapply fin_in_weaken; [exact Hfq|lia|lia]. }
  destruct (Z.eq_dec q 0) as [Eq|Nq]; destruct (Z.eq_dec r 0) as [Er|Nr].
  - exfalso. exact (Hqr Eq Er).
  - rewrite Eq, float64_of_int_zero.
    destruct (Hfrac Nr) as (m & e & E & Hm). unfold SF64add, SF64div. rewrite E. simpl.
    exists m, e. split; [reflexivity|lia].
  - rewrite Er, float64_of_int_zero.
    destruct (Hint Nq) as (m & e & E & Hm). unfold SF64add, SF64div. rewrite E.
    destruct billion_fin as (m9 & e9 & E9 & _). rewrite E9. simpl.
    exists m, e. split; [reflexivity|lia].
  - pose proof (SFadd_fin _ _ _ _ _ _ _ (Hint Nq) (Hfrac Nr) ltac:(lia) ltac:(lia)) as H.
    eapply fin_in_weaken; [exact H|lia|lia].
Qed.

Lemma Sub_range (t u : Z) : - 2 ^ 63 <= GoTime.Sub t u < 2 ^ 63.
Proof.
  unfold GoTime.Sub, GoStr.minInt64, GoStr.maxInt64.
  destruct (Z.ltb_spec (t - u) (- 2 ^ 63)); [lia|].
  destruct (Z.ltb_spec (2 ^ 63 - 1) (t - u)); lia.
Qed.

Lemma Sub_nonneg (t u : Z) : u <= t -> 0 <= GoTime.Sub t u.
Proof.
  intros H. unfold GoTime.Sub, GoStr.minInt64, GoStr.maxInt64.
  destruct (Z.ltb_spec (t - u) (- 2 ^ 63)); [lia|].
  destruct (Z.ltb_spec (2 ^ 63 - 1) (t - u)); lia.
Qed.

Lemma Sub_diag (t : Z) : GoTime.Sub t t = 0.
Proof. unfold GoTime.Sub. rewrite Z.sub_diag. reflexivity. Qed.

(** ** The tokens a refill adds *)

Section Refill.
Context {rt : GoRuntime}.

Lemma tokensToAdd_zero (b : TokenBucket) (now : Z) :
  0 < Rate b < 2 ^ 63 -> 0 < RefillPeriod b < 2 ^ 63 ->
  GoTime.Sub now (LastRefill b) = 0 ->
  tokensToAdd b now = 0%float.
Proof.
  intros Hrate Hper Hel. unfold tokensToAdd. rewrite Hel.
  apply Prim2SF_inj. rewrite FloatAxioms.div_spec, FloatAxioms.mul_spec, Seconds_zero.
  destruct (float64_of_int_pos (Rate b) Hrate) as (m & e & -> & _).
  destruct (Seconds_fin (RefillPeriod b) ltac:(lia) ltac:(lia)) as (mp & ep & -> & _).
  replace (RefillPeriod b <? 0) with false by (symmetry; apply Z.ltb_ge; lia).
  reflexivity.
Qed.

Lemma tokensToAdd_fin (b : TokenBucket) (now : Z) :
  0 < Rate b < 2 ^ 63 -> 0 < RefillPeriod b < 2 ^ 63 ->
  GoTime.Sub now (LastRefill b) <> 0 ->
  fin_in (GoTime.Sub now (LastRefill b) <? 0) (-66) 133 (Prim2SF (tokensToAdd b now)).
Proof.
  intros Hrate Hper Hel. unfold tokensToAdd.
  rewrite FloatAxioms.div_spec, FloatAxioms.mul_spec.
  pose proof (float64_of_int_pos (Rate b) Hrate) as Hr.
  assert (Hdr : 1 <= Zdigits2 (Rate b) <= 63).
  { split; [apply digits_pos; lia|apply digits_lt_pow; lia]. }
  pose proof (Seconds_fin _ Hel (Sub_range now (LastRefill b))) as He.
  pose proof (Seconds_fin (RefillPeriod b) ltac:(lia) ltac:(lia)) as Hp.
  replace (RefillPeriod b <? 0) with false in Hp by (symmetry; apply Z.ltb_ge; lia).
  pose proof (SFmul_fin _ _ _ _ _ _ _ _ Hr He ltac:(lia) ltac:(lia)) as Hm.
  rewrite xorb_false_l in Hm.
  pose proof (SFdiv_fin _ _ _ _ _ _ _ _ Hm Hp ltac:(lia) ltac:(lia)) as Hd.
  rewrite xorb_false_r in Hd. eapply fin_in_weaken; [exact Hd|lia|lia].
Qed.

End Refill.

(** ** Valid floats *)

Lemma valid_finite (s : bool) (m : positive) (e : Z) :
  valid_binary (S754_finite s m e) = true ->
  -1074 <= e <= 971 /\ Zdigits2 (Zpos m) <= 53 /\ (-1074 < e -> Zdigits2 (Zpos m) = 53).
Proof.
  unfold valid_binary, bounded, canonical_mantissa. intros H.
  apply andb_prop in H as [H1 H2]. apply Z.eqb_eq in H1. apply Z.leb_le in H2.
  change (Zpos (digits2_pos m)) with (Zdigits2 (Zpos m)) in H1.
  rewrite fexp_eq in H1. change (emax - prec) with 971 in H2. lia.
Qed.

Lemma Prim2SF_finite_valid (x : float) (s : bool) (m : positive) (e : Z) :
  Prim2SF x = S754_finite s m e ->
  -1074 <= e <= 971 /\ Zdigits2 (Zpos m) <= 53 /\ (-1074 < e -> Zdigits2 (Zpos m) = 53).
Proof. intros E. apply (valid_finite s). rewrite <- E. apply Prim2SF_valid. Qed.

(** ** Sums and the negative zero *)

Lemma binary_normalize_not_negzero (z e : Z) :
  -1074 <= e -> binary_normalize prec emax z e false <> S754_zero true.
Proof.
  intros He. destruct z as [|p|p]; simpl.
  - discriminate.
  - apply binary_round_nonzero. pose proof (digits_pos (Zpos p) eq_refl). lia.
  - apply binary_round_nonzero. pose proof (digits_pos (Zpos p) eq_refl). lia.
Qed.

Lemma SFadd_not_negzero (x y : spec_float) :
  valid_binary x = true -> valid_binary y = true ->
  y <> S754_zero true -> SFadd prec emax x y <> S754_zero true.
Proof.
  intros Vx Vy Hy.
  destruct x as [sx|sx| |sx mx ex], y as [sy|sy| |sy my ey]; simpl;
    try discriminate; try assumption.
  - destruct sx, sy; try discriminate. contradiction.
  - destruct sx, sy; discriminate.
  - apply binary_normalize_not_negzero.
    apply valid_finite in Vx, Vy. lia.
Qed.

Lemma add_zero_r (x : float) : Prim2SF x <> S754_zero true -> (x + 0)%float = x.
Proof.
  intros H. apply Prim2SF_inj. rewrite FloatAxioms.add_spec.
  change (Prim2SF 0) with (S754_zero false).
  destruct (Prim2SF x) as [[]|[]| |]; try reflexivity. contradiction.
Qed.

Lemma float64_of_int_not_negzero (z : Z) :
  - 2 ^ 63 <= z < 2 ^ 63 -> Prim2SF (F64.float64_of_int z) <> S754_zero true.
Proof.
  intros Hz. destruct (Z.eq_dec z 0) as [->|Hnz]; [discriminate|].
  destruct (Z.eq_dec z (- 2 ^ 63)) as [->|Hmin]; [discriminate|].
  destruct (float64_of_int_fin z Hnz ltac:(lia)) as (m & e & -> & _). discriminate.
Qed.

(** ** math.Min *)

Lemma Min_cases (x y : float) :
  F64.Min x y = neg_infinity \/ F64.Min x y = nan \/ F64.Min x y = x \/ F64.Min x y = y.
Proof.
  unfold F64.Min.
  destruct (F64.IsInf x (-1) || F64.IsInf y (-1)); [tauto|].
  destruct (F64.IsNaN x || F64.IsNaN y); [tauto|].
  destruct ((x =? 0) && (x =? y))%float; [destruct (F64.Signbit x); tauto|].
  destruct (x <? y)%float; tauto.
Qed.

Lemma Min_same (y : float) :
  F64.IsInf y (-1) = false -> F64.IsNaN y = false -> F64.Min y y = y.
Proof.
  intros Iy Ny. unfold F64.Min. rewrite Iy, Ny. cbn [orb].
  destruct ((y =? 0) && (y =? y))%float; [destruct (F64.Signbit y); reflexivity|].
  destruct (y <? y)%float; reflexivity.
Qed.

Lemma Min_idempotent (x y : float) : F64.Min (F64.Min x y) y = F64.Min x y.
Proof.
  destruct (F64.IsInf x (-1)) eqn:Ix.
  { assert (E : F64.Min x y = neg_infinity) by (unfold F64.Min; rewrite Ix; reflexivity).
    rewrite E. reflexivity. }
  destruct (F64.IsInf y (-1)) eqn:Iy.
  { assert (E : F64.Min x y = neg_infinity) by (unfold F64.Min; rewrite Ix, Iy; reflexivity).
    rewrite E. reflexivity. }
  destruct (F64.IsNaN x) eqn:Nx.
  { assert (E : F64.Min x y = nan) by (unfold F64.Min; rewrite Ix, Iy, Nx; reflexivity).
    rewrite E. unfold F64.Min. rewrite Iy. reflexivity. }
  destruct (F64.IsNaN y) eqn:Ny.
  { assert (E : F64.Min x y = nan) by (unfold F64.Min; rewrite Ix, Iy, Nx, Ny; reflexivity).
    rewrite E. unfold F64.Min. rewrite Iy. reflexivity. }
  assert (Hc : F64.Min x y = x \/ F64.Min x y = y).
  { unfold F64.Min. rewrite Ix, Iy, Nx, Ny. cbn [orb].
    destruct ((x =? 0) && (x =? y))%float; [destruct (F64.Signbit x); tauto|].
    destruct (x <? y)%float; tauto. }
  destruct Hc as [E|E]; rewrite E; [exact E|apply Min_same; assumption].
Qed.

Lemma tokensToAdd_not_negzero (b : TokenBucket) (now : Z) :
  0 < Rate b < 2 ^ 63 -> 0 < RefillPeriod b < 2 ^ 63 ->
  Prim2SF (tokensToAdd b now) <> S754_zero true.
Proof.
  intros Hrate Hper. destruct (Z.eq_dec (GoTime.Sub now (LastRefill b)) 0) as [E|NE].
  - rewrite (tokensToAdd_zero b now Hrate Hper E). discriminate.
  - destruct (tokensToAdd_fin b now Hrate Hper NE) as (m & e & -> & _). discriminate.
Qed.

Lemma refilled_not_negzero (b : TokenBucket) (now : Z) :
  0 < Rate b < 2 ^ 63 -> 0 < RefillPeriod b < 2 ^ 63 -> - 2 ^ 63 <= Burst b < 2 ^ 63 ->
  Prim2SF (Tokens (refillBucket b now)) <> S754_zero true.
Proof.
  intros Hrate Hper Hburst. unfold refillBucket. cbn [Tokens].
  destruct (Min_cases (Tokens b + tokensToAdd b now) (F64.float64_of_int (Burst b)))
    as [E|[E|[E|E]]]; rewrite E.
  - discriminate.
  - discriminate.
  - rewrite FloatAxioms.add_spec. apply SFadd_not_negzero; try apply Prim2SF_valid.
    apply tokensToAdd_not_negzero; assumption.
  - apply float64_of_int_not_negzero. assumption.
Qed.

(** C8 (amended).  For a bucket whose rate and refill period are positive, refilling
    at an instant [t] the bucket that was just refilled at [t] changes nothing: no
    token is added and the instant of the last refill stays [t].  This holds for every
    token count the bucket may hold and for every instant [t]. *)
Theorem refillBucket_idempotent (b : TokenBucket) (t : Z) :
  0 < Rate b < 2 ^ 63 -> 0 < RefillPeriod b < 2 ^ 63 -> - 2 ^ 63 <= Burst b < 2 ^ 63 ->
  tokensToAdd (refillBucket b t) t = 0%float
  /\ refillBucket (refillBucket b t) t = refillBucket b t.
Proof.
  intros Hrate Hper Hburst.
  assert (Hadd : tokensToAdd (refillBucket b t) t = 0%float).
  { apply tokensToAdd_zero; try assumption. apply Sub_diag. }
  split; [exact Hadd|].
  unfold refillBucket at 1. rewrite Hadd.
  rewrite (add_zero_r _ (refilled_not_negzero b t Hrate Hper Hburst)).
  unfold refillBucket. cbn [Tokens Rate Burst RefillPeriod LastRefill].
  rewrite Min_idempotent. reflexivity.
Qed.

(** ** The order of positive floats *)

(** Finite positive floats compare by exponent, then by mantissa. *)
Definition lex_le (m1 : positive) (e1 : Z) (m2 : positive) (e2 : Z) : Prop :=
  e1 < e2 \/ (e1 = e2 /\ Zpos m1 <= Zpos m2).

Lemma lex_le_refl (m : positive) (e : Z) : lex_le m e m e.
Proof. right. split; [reflexivity|lia]. Qed.

Lemma lex_le_trans (m1 : positive) (e1 : Z) (m2 : positive) (e2 : Z) (m3 : positive) (e3 : Z) :
  lex_le m1 e1 m2 e2 -> lex_le m2 e2 m3 e3 -> lex_le m1 e1 m3 e3.
Proof. unfold lex_le. lia. Qed.

Lemma SFcompare_finite (m1 : positive) (e1 : Z) (m2 : positive) (e2 : Z) :
  SFcompare (S754_finite false m1 e1) (S754_finite false m2 e2)
  = Some (match e1 ?= e2 with Eq => Zpos m1 ?= Zpos m2 | c => c end).
Proof. simpl. destruct (e1 ?= e2); reflexivity. Qed.

Lemma SFleb_finite (m1 : positive) (e1 : Z) (m2 : positive) (e2 : Z) :
  SFleb (S754_finite false m1 e1) (S754_finite false m2 e2) = true <-> lex_le m1 e1 m2 e2.
Proof.
  unfold SFleb, lex_le. rewrite SFcompare_finite.
  destruct (Z.compare_spec e1 e2); [destruct (Z.compare_spec (Zpos m1) (Zpos m2))| |];
    split; intros H'; try reflexivity; try discriminate; lia.
Qed.

Lemma SFltb_finite (m1 : positive) (e1 : Z) (m2 : positive) (e2 : Z) :
  lex_le m2 e2 m1 e1 -> SFltb (S754_finite false m1 e1) (S754_finite false m2 e2) = false.
Proof.
  unfold SFltb, lex_le. rewrite SFcompare_finite. intros H.
  destruct (Z.compare_spec e1 e2); [destruct (Z.compare_spec (Zpos m1) (Zpos m2))| |];
    try reflexivity; lia.
Qed.

Lemma pack_cases (s : bool) (m f : Z) :
  0 <= m <= 2 ^ 53 ->
  (m = 0 /\ pack s m f = S754_zero s)
  \/ (m = 2 ^ 53
      /\ pack s m f = if f + 1 <=? 971 then S754_finite s (2 ^ 52) (f + 1) else S754_infinity s)
  \/ (0 < m < 2 ^ 53
      /\ pack s m f = if f <=? 971 then S754_finite s (Z.to_pos m) f else S754_infinity s).
Proof.
  intros Hm. unfold pack. destruct m as [|p|p]; try lia.
  - left. split; reflexivity.
  - destruct (Z.eqb_spec (Zpos p) (2 ^ 53)) as [E|NE].
    + right. left. split; [exact E|reflexivity].
    + right. right. split; [lia|reflexivity].
Qed.

(** Rounding never crosses a float: a value at least (less than) a float [T] rounds
    to a float at least (at most) [T]. *)
Lemma round_ge (m mT : positive) (e eT : Z) :
  valid_binary (S754_finite false mT eT) = true ->
  e <= eT -> Zpos mT * 2 ^ (eT - e) <= Zpos m ->
  binary_round prec emax false m e = S754_infinity false
  \/ exists mr er, binary_round prec emax false m e = S754_finite false mr er
                   /\ lex_le mT eT mr er.
Proof.
  intros HT He Hm. pose proof HT as Hcan.
  unfold valid_binary, bounded, canonical_mantissa in Hcan.
  apply andb_prop in Hcan as [Hcan _]. apply Z.eqb_eq in Hcan.
  change (Zpos (digits2_pos mT)) with (Zdigits2 (Zpos mT)) in Hcan.
  apply valid_finite in HT. destruct HT as (HeT & HdT & HnT).
  pose proof (digits_bounds (Zpos mT) eq_refl) as [HT1 HT2].
  pose proof (digits_pos (Zpos mT) eq_refl) as HdT1.
  pose proof (digits_pos (Zpos m) eq_refl) as Hdm1.
  assert (Hk : 0 < 2 ^ (eT - e)) by (apply pow2_pos; lia).
  assert (Hdm : Zdigits2 (Zpos mT) + (eT - e) <= Zdigits2 (Zpos m)).
  { apply digits_ge_pow; [lia|].
    replace (Zdigits2 (Zpos mT) + (eT - e) - 1) with ((Zdigits2 (Zpos mT) - 1) + (eT - e)) by lia.
    rewrite Z.pow_add_r by lia. nia. }
  destruct (binary_round_shape false m e) as (m' & -> & Hm' & Hle & Hlt).
  pose proof (fexp_eq (Zdigits2 (Zpos m) + e)) as Hf.
  pose proof (fexp_mono (Zdigits2 (Zpos mT) + eT) (Zdigits2 (Zpos m) + e) ltac:(lia)) as Hmono.
  rewrite Hcan in Hmono.
  set (f := fexp prec emax (Zdigits2 (Zpos m) + e)) in *.
  assert (Hm1 : 1 <= m' /\ (f = eT -> Zpos mT <= m')).
  { destruct (Z_le_gt_dec f e) as [Hfe|Hfe].
    - rewrite (Hle Hfe). assert (e = eT) by lia. subst eT.
      replace (e - f) with 0 by lia. replace (e - e) with 0 in Hm by lia.
      rewrite Z.pow_0_r in *. lia.
    - destruct (Hlt ltac:(lia)) as [Hq _].
      destruct (Z.eq_dec f eT) as [E|NE].
      + assert (Zpos mT <= Zpos m / 2 ^ (f - e)).
        { apply Z.div_le_lower_bound; [apply pow2_pos; lia|]. rewrite E. lia. }
        lia.
      + destruct (digits_div_pow (Zpos m) (f - e) eq_refl ltac:(lia)) as [Hq0 _]. lia. }
  destruct Hm1 as [Hm1 HmT].
  destruct (pack_cases false m' f Hm') as [[E _]|[[E ->]|[Hr ->]]]; [lia| |].
  - destruct (f + 1 <=? 971); [right|left; reflexivity].
    exists (2 ^ 52)%positive, (f + 1). split; [reflexivity|]. left. lia.
  - destruct (f <=? 971); [right|left; reflexivity].
    exists (Z.to_pos m'), f. split; [reflexivity|].
    unfold lex_le. rewrite Z2Pos.id by lia.
    destruct (Z.eq_dec f eT) as [E|NE]; [right; split; [lia|apply HmT; exact E]|left; lia].
Qed.

Lemma round_le (m mT : positive) (e eT : Z) :
  valid_binary (S754_finite false mT eT) = true ->
  e <= eT -> Zpos m < Zpos mT * 2 ^ (eT - e) ->
  binary_round prec emax false m e = S754_zero false
  \/ exists mr er, binary_round prec emax false m e = S754_finite false mr er
                   /\ lex_le mr er mT eT.
Proof.
  intros HT He Hm. pose proof HT as Hcan.
  unfold valid_binary, bounded, canonical_mantissa in Hcan.
  apply andb_prop in Hcan as [Hcan _]. apply Z.eqb_eq in Hcan.
  change (Zpos (digits2_pos mT)) with (Zdigits2 (Zpos mT)) in Hcan.
  apply valid_finite in HT. destruct HT as (HeT & HdT & HnT).
  pose proof (digits_bounds (Zpos mT) eq_refl) as [HT1 HT2].
  pose proof (digits_pos (Zpos mT) eq_refl) as HdT1.
  pose proof (digits_pos (Zpos m) eq_refl) as Hdm1.
  pose proof (digits_bounds (Zpos m) eq_refl) as [Hm1 Hm2].
  assert (Hk : 0 < 2 ^ (eT - e)) by (apply pow2_pos; lia).
  assert (H53 : 2 ^ Zdigits2 (Zpos mT) <= 2 ^ 53) by (apply Z.pow_le_mono_r; lia).
  assert (Hdm : Zdigits2 (Zpos m) <= Zdigits2 (Zpos mT) + (eT - e)).
  { apply digits_lt_pow; [lia|]. rewrite Z.pow_add_r by lia. nia. }
  destruct (binary_round_shape false m e) as (m' & -> & Hm' & Hle & Hlt).
  pose proof (fexp_eq (Zdigits2 (Zpos m) + e)) as Hf.
  pose proof (fexp_mono (Zdigits2 (Zpos m) + e) (Zdigits2 (Zpos mT) + eT) ltac:(lia)) as Hmono.
  rewrite Hcan in Hmono.
  set (f := fexp prec emax (Zdigits2 (Zpos m) + e)) in *.
  destruct (Z_le_gt_dec f e) as [Hfe|Hfe].
  - (* the value is a float already *)
    specialize (Hle Hfe).
    assert (Hd' : Zdigits2 m' = Zdigits2 (Zpos m) + (e - f)).
    { rewrite Hle. apply digits_mul_pow; lia. }
    assert (Hm0 : 0 < m') by (rewrite Hle; pose proof (pow2_pos (e - f)); nia).
    pose proof (digits_bounds m' Hm0) as [_ Hhi'].
    assert (2 ^ Zdigits2 m' <= 2 ^ 53) by (apply Z.pow_le_mono_r; lia).
    destruct (pack_cases false m' f Hm') as [[E _]|[[E _]|[Hr ->]]]; try lia.
    destruct (Z.leb_spec f 971); [|lia]. right.
    exists (Z.to_pos m'), f. split; [reflexivity|].
    unfold lex_le. rewrite Z2Pos.id by lia.
    destruct (Z.eq_dec f eT) as [E|NE]; [right|left; lia].
    split; [exact E|].
    assert (Ee : eT - e = 0) by lia. assert (Ef : e - f = 0) by lia.
    rewrite Ee in Hm. rewrite Ef in Hle. rewrite Z.pow_0_r in Hm, Hle. lia.
  - destruct (Hlt ltac:(lia)) as [_ Hq].
    assert (Hqm : 2 ^ (f - e) * (Zpos m / 2 ^ (f - e)) <= Zpos m).
    { apply Z.mul_div_le. apply pow2_pos. lia. }
    assert (HfT : f = eT -> m' <= Zpos mT).
    { intros E. rewrite E in *. 
      assert (Zpos m / 2 ^ (eT - e) < Zpos mT) by nia. lia. }
    destruct (pack_cases false m' f Hm') as [[_ ->]|[[E ->]|[Hr ->]]].
    + left. reflexivity.
    + right. destruct (Z.eq_dec f eT) as [E'|NE]; [specialize (HfT E'); lia|].
      destruct (Z.leb_spec (f + 1) 971); [|lia].
      exists (2 ^ 52)%positive, (f + 1). split; [reflexivity|].
      unfold lex_le. destruct (Z.eq_dec (f + 1) eT) as [E1|NE1]; [right|left; lia].
      split; [exact E1|]. rewrite HnT in HT1 by lia. exact HT1.
    + right. destruct (Z.leb_spec f 971); [|lia].
      exists (Z.to_pos m'), f. split; [reflexivity|].
      unfold lex_le. rewrite Z2Pos.id by lia.
      destruct (Z.eq_dec f eT) as [E|NE]; [right; split; [exact E|apply HfT; exact E]|left; lia].
Qed.

Lemma SFadd_ge (mx : positive) (ex : Z) (my : positive) (ey : Z) :
  valid_binary (S754_finite false mx ex) = true ->
  let r := SFadd prec emax (S754_finite false mx ex) (S754_finite false my ey) in
  r = S754_infinity false
  \/ exists mr er, r = S754_finite false mr er /\ lex_le mx ex mr er.
Proof.
  intros Vx. simpl SFadd.
  destruct (shl_align_spec mx ex (Z.min ex ey)) as (mx' & ex' & Ex & Hex' & Hmx').
  destruct (shl_align_spec my ey (Z.min ex ey)) as (my' & ey' & Ey & Hey' & Hmy').
  rewrite Ex, Ey. simpl fst.
  change (cond_Zopp false (Zpos mx') + cond_Zopp false (Zpos my')) with (Zpos (mx' + my')).
  simpl binary_normalize.
  apply round_ge; [exact Vx|lia|].
  replace (ex - Z.min ex ey) with (ex - ex') by lia. rewrite <- Hmx'. lia.
Qed.

Lemma lex_le_aligned (mx : positive) (ex : Z) (my : positive) (ey : Z) :
  valid_binary (S754_finite false mx ex) = true ->
  valid_binary (S754_finite false my ey) = true ->
  lex_le my ey mx ex ->
  Zpos my * 2 ^ (ey - Z.min ex ey) <= Zpos mx * 2 ^ (ex - Z.min ex ey).
Proof.
  intros Vx Vy Hle. apply valid_finite in Vx, Vy.
  destruct Vx as (Hex & Hdx & Hnx). destruct Vy as (Hey & Hdy & Hny).
  destruct Hle as [Hlt|[-> Hm]].
  - replace (Z.min ex ey) with ey by lia. replace (ey - ey) with 0 by lia.
    rewrite Z.pow_0_r, Z.mul_1_r.
    pose proof (digits_bounds (Zpos mx) eq_refl) as [Hx1 _]. rewrite Hnx in Hx1 by lia.
    pose proof (digits_bounds (Zpos my) eq_refl) as [_ Hy2].
    assert (2 ^ Zdigits2 (Zpos my) <= 2 ^ 53) by (apply Z.pow_le_mono_r; lia).
    assert (2 ^ 1 <= 2 ^ (ex - ey)) by (apply Z.pow_le_mono_r; lia).
    change (2 ^ 1) with 2 in *. change (2 ^ (53 - 1)) with 4503599627370496 in Hx1.
    change (2 ^ 53) with 9007199254740992 in *. nia.
  - replace (Z.min ex ex) with ex by lia. replace (ex - ex) with 0 by lia.
    rewrite Z.pow_0_r. lia.
Qed.

Lemma SFsub_le (mx : positive) (ex : Z) (my : positive) (ey : Z) :
  valid_binary (S754_finite false mx ex) = true ->
  valid_binary (S754_finite false my ey) = true ->
  lex_le my ey mx ex ->
  let r := SFsub prec emax (S754_finite false mx ex) (S754_finite false my ey) in
  r = S754_zero false
  \/ exists mr er, r = S754_finite false mr er /\ lex_le mr er mx ex.
Proof.
  intros Vx Vy Hle. simpl SFsub.
  pose proof (lex_le_aligned mx ex my ey Vx Vy Hle) as Hal.
  destruct (shl_align_spec mx ex (Z.min ex ey)) as (mx' & ex' & Ex & Hex' & Hmx').
  destruct (shl_align_spec my ey (Z.min ex ey)) as (my' & ey' & Ey & Hey' & Hmy').
  rewrite Ex, Ey. simpl fst.
  replace (ex - Z.min ex ey) with (ex - ex') in Hal by lia.
  replace (ey - Z.min ex ey) with (ey - ey') in Hal by lia.
  rewrite <- Hmx', <- Hmy' in Hal.
  change (cond_Zopp false (Zpos mx') - cond_Zopp false (Zpos my'))
    with (Zpos mx' - Zpos my').
  destruct (Zpos mx' - Zpos my') as [|p|p] eqn:Ed; try lia; simpl binary_normalize.
  - left. reflexivity.
  - apply round_le; [exact Vx|lia|].
    replace (ex - Z.min ex ey) with (ex - ex') by lia. rewrite <- Hmx'. lia.
Qed.

(** [nonneg x]: [x] is a zero or is positive, possibly infinite. *)
Definition nonneg (x : spec_float) : Prop :=
  match x with
  | S754_zero _ | S754_finite false _ _ | S754_infinity false => True
  | _ => False
  end.

Lemma fin_in_nonneg (lo hi : Z) (x : spec_float) : fin_in false lo hi x -> nonneg x.
Proof. intros (m & e & -> & _). exact I. Qed.

Lemma SFadd_nonneg (x y : spec_float) :
  nonneg x -> nonneg y -> nonneg (SFadd prec emax x y).
Proof.
  destruct x as [sx|[]| |[] mx ex], y as [sy|[]| |[] my ey]; simpl; try tauto.
  - destruct sx, sy; tauto.
  - intros _ _.
    destruct (shl_align mx ex (Z.min ex ey)) as [mx' ex'].
    destruct (shl_align my ey (Z.min ex ey)) as [my' ey']. simpl.
    pose proof (binary_round_signed false (mx' + my') (Z.min ex ey)) as H.
    destruct (binary_round prec emax false (mx' + my') (Z.min ex ey)) as [s|s| |s m e];
      simpl in H; subst; simpl; tauto.
Qed.

(** ** Comparisons and [math.Min] on ordinary values *)

Lemma SFcompare_refl (x : spec_float) : x <> S754_nan -> SFcompare x x = Some Eq.
Proof.
  destruct x as [s|[]| |[] m e]; simpl; intros H; try reflexivity; try contradiction.
  - rewrite Z.compare_refl, Pos.compare_cont_refl. reflexivity.
  - rewrite Z.compare_refl. change (Pos.compare_cont Eq m m) with (Pos.compare m m).
    rewrite Pos.compare_refl. reflexivity.
Qed.

Lemma nonneg_not_nan (x : spec_float) : nonneg x -> x <> S754_nan.
Proof. destruct x; simpl; intros H; [discriminate|discriminate|contradiction|discriminate]. Qed.

Lemma IsNaN_nonneg (x : float) : nonneg (Prim2SF x) -> F64.IsNaN x = false.
Proof.
  intros H. unfold F64.IsNaN. rewrite FloatAxioms.eqb_spec. unfold SFeqb.
  rewrite SFcompare_refl by (apply nonneg_not_nan; exact H). reflexivity.
Qed.

Lemma IsInf_nonneg (x : float) : nonneg (Prim2SF x) -> F64.IsInf x (-1) = false.
Proof.
  intros H. unfold F64.IsInf. cbn [Z.leb Z.compare andb orb].
  rewrite FloatAxioms.ltb_spec.
  change (Prim2SF (- F64.MaxFloat64)) with (S754_finite true 9007199254740991 971).
  destruct (Prim2SF x) as [s|[]| |[] m e]; simpl in H; try contradiction; reflexivity.
Qed.

Lemma leb_zero_nonneg (x : float) : (0 <=? x)%float = true <-> nonneg (Prim2SF x).
Proof.
  rewrite FloatAxioms.leb_spec. change (Prim2SF 0) with (S754_zero false).
  destruct (Prim2SF x) as [s|[]| |[] m e]; simpl; split; intros H;
    try reflexivity; try discriminate; try contradiction; exact I.
Qed.

Lemma Min_nonneg (x y : float) (lo hi : Z) :
  nonneg (Prim2SF x) -> fin_in false lo hi (Prim2SF y) ->
  F64.Min x y = if (x <? y)%float then x else y.
Proof.
  intros Hx Hy. pose proof (fin_in_nonneg _ _ _ Hy) as Hy'.
  unfold F64.Min.
  rewrite (IsInf_nonneg x Hx), (IsInf_nonneg y Hy'), (IsNaN_nonneg x Hx), (IsNaN_nonneg y Hy').
  cbn [orb].
  assert (E : ((x =? 0) && (x =? y))%float = false).
  { rewrite !FloatAxioms.eqb_spec. change (Prim2SF 0) with (S754_zero false).
    destruct Hy as (m & e & -> & _).
    destruct (Prim2SF x) as [s|[]| |[] mx ex]; simpl in Hx; try contradiction; reflexivity. }
  rewrite E. reflexivity.
Qed.

Lemma ltb_leb (x y : float) : (x <? y)%float = true -> (x <=? y)%float = true.
Proof.
  rewrite FloatAxioms.ltb_spec, FloatAxioms.leb_spec. unfold SFltb, SFleb.
  destruct (SFcompare (Prim2SF x) (Prim2SF y)) as [[]|]; intros H; try discriminate; reflexivity.
Qed.

Lemma leb_refl_fin (y : float) (lo hi : Z) :
  fin_in false lo hi (Prim2SF y) -> (y <=? y)%float = true.
Proof.
  intros Hy. rewrite FloatAxioms.leb_spec. unfold SFleb.
  rewrite SFcompare_refl; [reflexivity|].
  destruct Hy as (m & e & -> & _). discriminate.
Qed.


(** ** The invariant of the bucket *)

Lemma burst_fin (burst : Z) :
  0 < burst < 2 ^ 63 -> fin_in false 1 64 (Prim2SF (F64.float64_of_int burst)).
Proof.
  intros H. pose proof (float64_of_int_pos burst H) as Hf.
  assert (1 <= Zdigits2 burst <= 63).
  { split; [apply digits_pos; lia|apply digits_lt_pow; lia]. }
  eapply fin_in_weaken; [exact Hf|lia|lia].
Qed.

Lemma tokensToAdd_nonneg (b : TokenBucket) (now : Z) :
  0 < Rate b < 2 ^ 63 -> 0 < RefillPeriod b < 2 ^ 63 -> LastRefill b <= now ->
  Prim2SF (tokensToAdd b now) = S754_zero false
  \/ fin_in false (-66) 133 (Prim2SF (tokensToAdd b now)).
Proof.
  intros Hrate Hper Hnow. pose proof (Sub_nonneg now (LastRefill b) Hnow) as Hel.
  destruct (Z.eq_dec (GoTime.Sub now (LastRefill b)) 0) as [E|NE].
  - left. rewrite (tokensToAdd_zero b now Hrate Hper E). reflexivity.
  - right. pose proof (tokensToAdd_fin b now Hrate Hper NE) as H.
    replace (GoTime.Sub now (LastRefill b) <? 0) with false in H
      by (symmetry; apply Z.ltb_ge; lia).
    exact H.
Qed.

Lemma created_within (burst : Z) (now rate period : Z) :
  0 < burst < 2 ^ 63 ->
  within_burst (mkBucket (F64.float64_of_int burst) now rate burst period).
Proof.
  intros Hb. pose proof (burst_fin burst Hb) as HB. split; cbn [Tokens Burst].
  - apply leb_zero_nonneg. eapply fin_in_nonneg. exact HB.
  - eapply leb_refl_fin. exact HB.
Qed.

Lemma refill_within (b : TokenBucket) (now : Z) :
  0 < Rate b < 2 ^ 63 -> 0 < Burst b < 2 ^ 63 -> 0 < RefillPeriod b < 2 ^ 63 ->
  LastRefill b <= now ->
  within_burst b -> within_burst (refillBucket b now).
Proof.
  intros Hrate Hburst Hper Hnow [H0 _].
  pose proof (burst_fin (Burst b) Hburst) as HB.
  apply leb_zero_nonneg in H0.
  assert (Hadd : nonneg (Prim2SF (tokensToAdd b now))).
  { destruct (tokensToAdd_nonneg b now Hrate Hper Hnow) as [E|F].
    - rewrite E. exact I.
    - eapply fin_in_nonneg. exact F. }
  assert (Hs : nonneg (Prim2SF (Tokens b + tokensToAdd b now))).
  { rewrite FloatAxioms.add_spec. apply SFadd_nonneg; assumption. }
  unfold within_burst, refillBucket. cbn [Tokens Burst].
  rewrite (Min_nonneg _ _ _ _ Hs HB).
  destruct (Tokens b + tokensToAdd b now <? F64.float64_of_int (Burst b))%float eqn:L.
  - split; [apply leb_zero_nonneg; exact Hs|apply ltb_leb; exact L].
  - split; [apply leb_zero_nonneg; eapply fin_in_nonneg; exact HB|eapply leb_refl_fin; exact HB].
Qed.

Lemma SFsub_within (t n : spec_float) (mB : positive) (eB : Z) :
  valid_binary t = true -> valid_binary n = true ->
  SFltb (S754_zero false) n = true ->
  SFleb n t = true ->
  SFleb t (S754_finite false mB eB) = true ->
  nonneg (SFsub prec emax t n)
  /\ SFleb (SFsub prec emax t n) (S754_finite false mB eB) = true.
Proof.
  intros Vt Vn Hn Hnt HtB.
  destruct n as [sn|sn| |sn mn en]; try discriminate Hn.
  - (* n infinite *)
    destruct sn; [discriminate Hn|].
    destruct t as [st|[]| |st mt et]; try discriminate Hnt. discriminate HtB.
  - destruct sn; [discriminate Hn|].
    destruct t as [st|[]| |[] mt et]; try discriminate Hnt; try discriminate HtB.
    apply SFleb_finite in Hnt, HtB.
    destruct (SFsub_le mt et mn en Vt Vn Hnt) as [E|(mr & er & E & Hr)]; rewrite E.
    + split; [exact I|reflexivity].
    + split; [exact I|]. apply SFleb_finite. eapply lex_le_trans; eassumption.
Qed.

Lemma consume_within (b : TokenBucket) (n : float) :
  0 < Burst b < 2 ^ 63 ->
  within_burst b -> (0 <? n)%float = true -> (n <=? Tokens b)%float = true ->
  within_burst (consume b n).
Proof.
  intros Hburst [_ HB] Hn Hnt.
  destruct (burst_fin (Burst b) Hburst) as (mB & eB & EB & _).
  rewrite FloatAxioms.leb_spec in HB, Hnt. rewrite FloatAxioms.ltb_spec in Hn.
  rewrite EB in HB. change (Prim2SF 0) with (S754_zero false) in Hn.
  destruct (SFsub_within (Prim2SF (Tokens b)) (Prim2SF n) mB eB
              (Prim2SF_valid _) (Prim2SF_valid _) Hn Hnt HB) as [H1 H2].
  unfold within_burst, consume. cbn [Tokens Burst]. split.
  - apply leb_zero_nonneg. rewrite FloatAxioms.sub_spec. exact H1.
  - rewrite FloatAxioms.leb_spec, FloatAxioms.sub_spec, EB. exact H2.
Qed.

(** ** A bucket that was just created *)

Lemma one_le_burst (burst : Z) :
  0 < burst < 2 ^ 63 -> (1 <=? F64.float64_of_int burst)%float = true.
Proof.
  intros Hb. destruct (burst_fin burst Hb) as (m & e & E & Hm).
  rewrite FloatAxioms.leb_spec, E.
  change (Prim2SF 1) with (S754_finite false 4503599627370496 (-52)).
  apply SFleb_finite. destruct (Prim2SF_finite_valid _ _ _ _ E) as (He & Hd & Hn).
  unfold lex_le. destruct (Z.eq_dec e (-52)) as [->|NE]; [right|left; lia].
  split; [reflexivity|].
  pose proof (digits_bounds (Zpos m) eq_refl) as [Hlo _].
  replace (Zdigits2 (Zpos m)) with 53 in Hlo by lia. exact Hlo.
Qed.

Lemma refill_full (b : TokenBucket) (now : Z) :
  0 < Rate b < 2 ^ 63 -> 0 < Burst b < 2 ^ 63 -> 0 < RefillPeriod b < 2 ^ 63 ->
  LastRefill b <= now ->
  Tokens b = F64.float64_of_int (Burst b) ->
  Tokens (refillBucket b now) = F64.float64_of_int (Burst b).
Proof.
  intros Hrate Hburst Hper Hnow HT.
  pose proof (burst_fin (Burst b) Hburst) as HB.
  assert (Hadd : nonneg (Prim2SF (tokensToAdd b now))).
  { destruct (tokensToAdd_nonneg b now Hrate Hper Hnow) as [E|F].
    - rewrite E. exact I.
    - eapply fin_in_nonneg. exact F. }
  assert (Hs : nonneg (Prim2SF (Tokens b + tokensToAdd b now))).
  { rewrite FloatAxioms.add_spec. apply SFadd_nonneg; [|exact Hadd].
    rewrite HT. eapply fin_in_nonneg. exact HB. }
  unfold refillBucket. cbn [Tokens].
  rewrite (Min_nonneg _ _ _ _ Hs HB).
  assert (L : (Tokens b + tokensToAdd b now <? F64.float64_of_int (Burst b))%float = false).
  { rewrite FloatAxioms.ltb_spec, FloatAxioms.add_spec, HT.
    destruct HB as (mB & eB & EB & _). rewrite EB.
    assert (VB : valid_binary (S754_finite false mB eB) = true)
      by (rewrite <- EB; apply Prim2SF_valid).
    destruct (tokensToAdd_nonneg b now Hrate Hper Hnow) as [E|(ma & ea & E & _)]; rewrite E.
    - simpl SF64add. apply SFltb_finite, lex_le_refl.
    - destruct (SFadd_ge mB eB ma ea VB) as [Ei|(mr & er & Er & Hr)].
      + unfold SF64add. rewrite Ei. reflexivity.
      + unfold SF64add. rewrite Er. apply SFltb_finite. exact Hr. }
  rewrite L. reflexivity.
Qed.

(** ** Reading the bucket when the store fails *)

Section FailOpen.
Context {rt : GoRuntime}.

Lemma Get_env (key : string) (w : World) :
  clock (snd (Get key w)) = clock w /\ ticks (snd (Get key w)) = ticks w.
Proof. rewrite Get_eq. split; reflexivity. Qed.

Lemma createNewBucket_eq (config : RateLimitConfig.t) (period : Z) (w : World) :
  ParseRateLimitPeriod config = Some period ->
  createNewBucket config w
  = (mkBucket (F64.float64_of_int (RateLimitConfig.Burst config)) (clock w (ticks w))
       (RateLimitConfig.Rate config) (RateLimitConfig.Burst config) period, None, ticked w).
Proof. intros Hp. unfold createNewBucket. rewrite Hp. reflexivity. Qed.

Lemma getBucket_read_error (config : RateLimitConfig.t) (key : string) (period : Z) (w : World) :
  ParseRateLimitPeriod config = Some period ->
  read_error key w ->
  exists w1,
    clock w1 = clock w /\ ticks w1 = ticks w
    /\ getBucket config key w
       = (mkBucket (F64.float64_of_int (RateLimitConfig.Burst config)) (clock w (ticks w))
            (RateLimitConfig.Rate config) (RateLimitConfig.Burst config) period,
          None, ticked w1).
Proof.
  intros Hp Hr. unfold read_error in Hr. unfold getBucket. rewrite bind_eq.
  destruct (Get_env (key ++ ":tokens") w) as [Hc1 Ht1].
  destruct (Get (key ++ ":tokens") w) as [[data err] w1]. cbn [fst snd] in *.
  destruct err as [e|].
  - exists w1. rewrite (createNewBucket_eq config period w1 Hp), Hc1, Ht1. auto.
  - destruct (ParseFloat data) as [tokens|]; [|contradiction].
    rewrite bind_eq.
    destruct (Get_env (key ++ ":last_refill") w1) as [Hc2 Ht2].
    destruct (Get (key ++ ":last_refill") w1) as [[data2 err2] w2]. cbn [fst snd] in *.
    destruct err2 as [e|]; [|contradiction].
    exists w2. rewrite (createNewBucket_eq config period w2 Hp), Hc2, Ht2, Hc1, Ht1.
    split; [congruence|]. split; [congruence|reflexivity].
Qed.

Lemma Allow_read_error (config : RateLimitConfig.t) (identifier : string) (period : Z)
    (w : World) :
  0 < RateLimitConfig.Rate config < 2 ^ 63 ->
  0 < RateLimitConfig.Burst config < 2 ^ 63 ->
  ParseRateLimitPeriod config = Some period -> 0 < period < 2 ^ 63 ->
  clock w (ticks w) <= clock w (S (ticks w)) ->
  read_error (GetRateLimitKey identifier) w ->
  fst (Allow config identifier w) = (true, None)
  \/ exists e, fst (Allow config identifier w)
               = (false, Some ("failed to save bucket: " ++ e)%string).
Proof.
  intros Hrate Hburst Hp Hper Hclock Hr.
  destruct (getBucket_read_error config _ period w Hp Hr) as (w1 & Hc & Ht & Hg).
  unfold Allow. rewrite allowTokens_eq by (rewrite Hg; reflexivity).
  rewrite Hg. cbn [fst snd ticked clock ticks].
  set (fresh := mkBucket _ _ _ _ _).
  assert (HT : Tokens (refillBucket fresh (clock w1 (S (ticks w1))))
               = F64.float64_of_int (RateLimitConfig.Burst config)).
  { apply (refill_full fresh); try assumption; try reflexivity.
    unfold fresh. cbn [LastRefill]. rewrite Hc, Ht. exact Hclock. }
  rewrite HT, (one_le_burst _ Hburst).
  destruct (fst (saveBucket _ _ _)) as [e|]; [right; exists e|left]; reflexivity.
Qed.

End FailOpen.

Section Claims.
Context {rt : GoRuntime}.

(** C4 (amended).  For a rule whose rate, burst and refill period are positive, the
    bucket [createNewBucket] makes satisfies [0 <= tokens <= burst]; a refill at an
    instant not before the last one keeps the invariant, and so does the consumption
    of [n > 0] tokens that [AllowN] performs once it has checked [n <= tokens]. *)
Theorem bucket_within_burst (limiter : RateLimitConfig.t) (period : Z) (w : World)
    (b : TokenBucket) (now : Z) (n : float) :
  0 < RateLimitConfig.Burst limiter < 2 ^ 63 ->
  ParseRateLimitPeriod limiter = Some period ->
  0 < Rate b < 2 ^ 63 -> 0 < Burst b < 2 ^ 63 -> 0 < RefillPeriod b < 2 ^ 63 ->
  within_burst (fst (fst (createNewBucket limiter w)))
  /\ (within_burst b -> LastRefill b <= now -> within_burst (refillBucket b now))
  /\ (within_burst b -> (0 <? n)%float = true -> (n <=? Tokens b)%float = true ->
      within_burst (consume b n)).
Proof.
  intros Hlb Hp Hrate Hburst Hper. split; [|split].
  - rewrite (createNewBucket_eq limiter period w Hp). cbn [fst].
    apply created_within. exact Hlb.
  - intros Hb Hnow. apply refill_within; assumption.
  - intros Hb Hn Hle. apply consume_within; assumption.
Qed.

(** C7 (amended).  Let the rate, the burst and the refill period of a rule be positive
    and let the clock not run backwards between two readings.  When the store fails a
    read of the bucket, [getBucket] reports no error and returns a bucket created on
    the spot, with [tokens = burst] and [last_refill = now]; [Allow] then answers
    Allowed, unless it fails to save the bucket and returns that error; in both cases
    [checkIdentifier] does not deny the request for its rate, and allows it when the
    rule has no quota. *)
Theorem read_error_fails_open (manager : IdentifierManager) (limiter : RateLimitConfig.t)
    (identifier : string) (period : Z) (w : World) :
  let key := GetRateLimitKey identifier in
  let response := fst (fst (checkIdentifier manager identifier w)) in
  rateLimiter manager = Some limiter ->
  RateLimitConfig.Enabled (IdentifierConfig.RateLimit (config manager)) = true ->
  0 < RateLimitConfig.Rate limiter < 2 ^ 63 ->
  0 < RateLimitConfig.Burst limiter < 2 ^ 63 ->
  ParseRateLimitPeriod limiter = Some period -> 0 < period < 2 ^ 63 ->
  clock w (ticks w) <= clock w (S (ticks w)) ->
  read_error key w ->
  (exists w1,
     getBucket limiter key w
     = (mkBucket (F64.float64_of_int (RateLimitConfig.Burst limiter)) (clock w (ticks w))
          (RateLimitConfig.Rate limiter) (RateLimitConfig.Burst limiter) period, None, w1))
  /\ (fst (Allow limiter identifier w) = (true, None)
      \/ exists e, fst (Allow limiter identifier w)
                   = (false, Some ("failed to save bucket: " ++ e)%string))
  /\ Reason response <> "Rate limit exceeded"
  /\ (IsQuotaEnabled (quotaManager manager) = false -> Allowed response = true).
Proof.
  intros key response Hlim Hen Hrate Hburst Hp Hper Hclock Hr.
  destruct (getBucket_read_error limiter key period w Hp Hr) as (w1 & _ & _ & Hg).
  pose proof (Allow_read_error limiter identifier period w Hrate Hburst Hp Hper Hclock Hr) as Ha.
  split; [exists (ticked w1); exact Hg|]. split; [exact Ha|].
  assert (Eal : fst (fst (limiterGate manager identifier w)) = true).
  { unfold limiterGate. rewrite Hlim, Hen. rewrite bind_eq.
    destruct (Allow limiter identifier w) as [[allowed err] wa]. cbn [fst snd] in *.
    rewrite bind_eq.
    destruct (GetLimitInfo limiter identifier wa) as [[info err'] wi]. cbn [fst snd ret].
    destruct Ha as [[= -> ->]|(e & [= -> ->])]; reflexivity. }
  unfold response, checkIdentifier. rewrite bind_eq.
  destruct (limiterGate manager identifier w) as [[allowed info] wi]. cbn [fst snd] in *.
  rewrite Eal. cbn [negb]. rewrite bind_eq.
  destruct (IsQuotaEnabled (quotaManager manager)).
  - rewrite bind_eq.
    destruct (CheckQuota (quotaManager manager) identifier wi) as [[[qa qi] qe] wq].
    cbn [fst snd ret].
    split; [|discriminate].
    destruct (negb _); cbn; discriminate.
  - cbn. split; [discriminate|reflexivity].
Qed.

End Claims.


Lemma refillBucket_idempotent_witness :
  tokensToAdd (refillBucket fullBucket (later 30)) (later 30) = 0%float
  /\ refillBucket (refillBucket fullBucket (later 30)) (later 30)
     = refillBucket fullBucket (later 30).
Proof.
  apply (refillBucket_idempotent fullBucket (later 30));
    vm_compute; split; solve [reflexivity | discriminate].
Defined.

Lemma refillBucket_idempotent_counterexample :
  Validate zeroPeriodRule = None
  /\ ParseRateLimitPeriod zeroPeriod = Some (RefillPeriod stalledBucket)
  /\ Tokens (refillBucket stalledBucket (later 1)) = 20%float
  /\ F64.IsNaN (Tokens (refillBucket (refillBucket stalledBucket (later 1)) (later 1))) = true
  /\ refillBucket (refillBucket stalledBucket (later 1)) (later 1)
     <> refillBucket stalledBucket (later 1).
Proof.
  assert (H1 : F64.IsNaN (Tokens (refillBucket stalledBucket (later 1))) = false)
    by (vm_compute; reflexivity).
  assert (H2 : F64.IsNaN (Tokens (refillBucket (refillBucket stalledBucket (later 1)) (later 1)))
               = true) by (vm_compute; reflexivity).
  split; [vm_compute; reflexivity|].
  split; [vm_compute; reflexivity|].
  split; [vm_compute; reflexivity|].
  split; [exact H2|].
  intros E. rewrite E, H1 in H2. discriminate H2.
Qed.

Lemma bucket_within_burst_witness :
  within_burst (fst (fst (createNewBucket tenPerMinute (Sample.world Sample.noon 1000))))
  /\ within_burst (refillBucket fullBucket (later 30))
  /\ within_burst (consume fullBucket 1).
Proof.
  assert (Hlb : 0 < RateLimitConfig.Burst tenPerMinute < 2 ^ 63)
    by (vm_compute; split; reflexivity).
  assert (Hp : ParseRateLimitPeriod tenPerMinute = Some GoTime.Minute) by reflexivity.
  assert (Hrate : 0 < Rate fullBucket < 2 ^ 63) by (vm_compute; split; reflexivity).
  assert (Hburst : 0 < Burst fullBucket < 2 ^ 63) by (vm_compute; split; reflexivity).
  assert (Hper : 0 < RefillPeriod fullBucket < 2 ^ 63) by (vm_compute; split; reflexivity).
  assert (Hfull : within_burst fullBucket) by (split; vm_compute; reflexivity).
  assert (Hnow : LastRefill fullBucket <= later 30) by (vm_compute; discriminate).
  assert (Hn : (0 <? 1)%float = true) by reflexivity.
  assert (Hle : (1 <=? Tokens fullBucket)%float = true) by reflexivity.
  destruct (bucket_within_burst tenPerMinute GoTime.Minute (Sample.world Sample.noon 1000)
              fullBucket (later 30) 1%float Hlb Hp Hrate Hburst Hper) as (H1 & H2 & H3).
  split; [exact H1|]. split; [exact (H2 Hfull Hnow)|exact (H3 Hfull Hn Hle)].
Defined.

Lemma bucket_within_burst_counterexample :
  Validate backwardRule = None
  /\ within_burst backwardBucket
  /\ LastRefill backwardBucket <= later 60
  /\ Tokens (refillBucket backwardBucket (later 60)) = (-5)%float
  /\ (0 <=? Tokens (refillBucket backwardBucket (later 60)))%float = false.
Proof.
  split; [vm_compute; reflexivity|].
  split; [split; vm_compute; reflexivity|].
  split; [vm_compute; discriminate|].
  split; vm_compute; reflexivity.
Qed.

Lemma read_error_fails_open_witness :
  (exists w1,
     getBucket tenPerMinute (GetRateLimitKey "10.0.0.1") storeDown
     = (mkBucket (F64.float64_of_int (RateLimitConfig.Burst tenPerMinute))
          (clock storeDown (ticks storeDown)) (RateLimitConfig.Rate tenPerMinute)
          (RateLimitConfig.Burst tenPerMinute) GoTime.Minute, None, w1))
  /\ Reason (fst (fst (checkIdentifier (newManager steadyRule) "10.0.0.1" storeDown)))
     <> "Rate limit exceeded"
  /\ Allowed (fst (fst (checkIdentifier (newManager steadyRule) "10.0.0.1" storeDown))) = true.
Proof.
  assert (Hlim : rateLimiter (newManager steadyRule) = Some tenPerMinute) by reflexivity.
  assert (Hen : RateLimitConfig.Enabled
                  (IdentifierConfig.RateLimit (config (newManager steadyRule))) = true)
    by reflexivity.
  assert (Hrate : 0 < RateLimitConfig.Rate tenPerMinute < 2 ^ 63)
    by (vm_compute; split; reflexivity).
  assert (Hburst : 0 < RateLimitConfig.Burst tenPerMinute < 2 ^ 63)
    by (vm_compute; split; reflexivity).
  assert (Hp : ParseRateLimitPeriod tenPerMinute = Some GoTime.Minute) by reflexivity.
  assert (Hper : 0 < GoTime.Minute < 2 ^ 63) by (vm_compute; split; reflexivity).
  assert (Hclock : clock storeDown (ticks storeDown) <= clock storeDown (S (ticks storeDown)))
    by (vm_compute; discriminate).
  assert (Hread : read_error (GetRateLimitKey "10.0.0.1") storeDown)
    by (vm_compute; exact I).
  assert (Hq : IsQuotaEnabled (quotaManager (newManager steadyRule)) = false) by reflexivity.
  destruct (read_error_fails_open (newManager steadyRule) tenPerMinute "10.0.0.1"
              GoTime.Minute storeDown Hlim Hen Hrate Hburst Hp Hper Hclock Hread)
    as (H1 & _ & H3 & H4).
  split; [exact H1|]. split; [exact H3|exact (H4 Hq)].
Defined.

Lemma read_error_fails_open_counterexample :
  Validate hastyRule = None
  /\ read_error "ratelimit:10.0.0.1" storeDown
  /\ fst (Allow hastyLimit "10.0.0.1" storeDown) = (false, None)
  /\ Allowed (fst (fst (checkIdentifier (newManager hastyRule) "10.0.0.1" storeDown))) = false
  /\ Reason (fst (fst (checkIdentifier (newManager hastyRule) "10.0.0.1" storeDown)))
     = "Rate limit exceeded".
Proof.
  split; [vm_compute; reflexivity|].
  split; [vm_compute; exact I|].
  split; [vm_compute; reflexivity|].
  split; vm_compute; reflexivity.
Qed.

(** * Properties of the code beyond the claims *)

(** ** The configuration *)

Section ConfigProofs.
Context {rt : GoRuntime}.

Lemma ParseQuotaPeriod_is_Some (qs : QuotaSettings.t) :
  is_Some (ParseQuotaPeriod qs)
  <-> QuotaSettings.Period qs = "Daily" \/ QuotaSettings.Period qs = "Weekly"
      \/ QuotaSettings.Period qs = "Monthly".
Proof.
  unfold ParseQuotaPeriod.
  destruct (String.eqb_spec (QuotaSettings.Period qs) "Daily") as [->|H1];
    [split; [tauto|eauto]|].
  destruct (String.eqb_spec (QuotaSettings.Period qs) "Weekly") as [->|H2];
    [split; [tauto|eauto]|].
  destruct (String.eqb_spec (QuotaSettings.Period qs) "Monthly") as [->|H3];
    [split; [tauto|eauto]|].
  split; [intros [x Hx]; discriminate|tauto].
Qed.

(** X1.  [Validate] accepts a rule exactly when: its type is not empty; a Header rule
    names its header; one of the two engines is enabled; an enabled rate limit has a
    positive rate, a positive burst and a period that parses; an enabled quota has a
    positive limit and one of the periods Daily, Weekly, Monthly.  Nothing else is
    required: neither a non-empty value nor a known type nor a positive period. *)
Theorem Validate_accepts (ic : IdentifierConfig.t) :
  let rl := IdentifierConfig.RateLimit ic in
  let qs := IdentifierConfig.Quota ic in
  Validate ic = None
  <-> (IdentifierConfig.Type_ ic <> ""
       /\ (IdentifierConfig.Type_ ic = "Header" -> IdentifierConfig.Name ic <> "")
       /\ (RateLimitConfig.Enabled rl = true \/ QuotaSettings.Enabled qs = true)
       /\ (RateLimitConfig.Enabled rl = true ->
           0 < RateLimitConfig.Rate rl /\ 0 < RateLimitConfig.Burst rl
           /\ is_Some (ParseRateLimitPeriod rl))
       /\ (QuotaSettings.Enabled qs = true ->
           0 < QuotaSettings.Limit qs
           /\ (QuotaSettings.Period qs = "Daily" \/ QuotaSettings.Period qs = "Weekly"
               \/ QuotaSettings.Period qs = "Monthly"))).
Proof.
  intros rl qs. unfold Validate. fold rl qs.
  rewrite <- (ParseQuotaPeriod_is_Some qs).
  destruct (String.eqb_spec (IdentifierConfig.Type_ ic) "") as [Et|Et];
    [split; [discriminate|tauto]|].
  destruct (String.eqb_spec (IdentifierConfig.Type_ ic) "Header") as [Eh|Eh];
    destruct (String.eqb_spec (IdentifierConfig.Name ic) "") as [En|En]; cbn [andb];
    try (split; [discriminate|tauto]);
    destruct (RateLimitConfig.Enabled rl) eqn:Erl; destruct (QuotaSettings.Enabled qs) eqn:Eqs;
    cbn [negb andb];
    try (split; [discriminate|intros (_ & _ & [?|?] & _); discriminate]);
    repeat match goal with
    | |- context [?a <=? 0] => destruct (Z.leb_spec a 0); cbn [andb negb]
    | |- context [bool_decide ?P] => destruct (bool_decide_reflect P); cbn [andb negb]
    end;
    try (split; [discriminate|intros (_ & _ & _ & Hr & Hq);
                 try specialize (Hr eq_refl); try specialize (Hq eq_refl); 
                 exfalso; intuition lia]);
    (split; [intros _|reflexivity]); repeat split; intros; try discriminate; try congruence; 
    try lia; auto.
Qed.

Lemma loadManagers_spec (ids : list IdentifierConfig.t) (i : Z)
    (acc : gmap string IdentifierManager) :
  match loadManagers ids i acc with
  | (res, None) =>
      Forall (fun ic => Validate ic = None) ids
      /\ forall key,
           res !! key = match lastRule key ids with
                        | Some ic => Some (newManager ic)
                        | None => acc !! key
                        end
  | (_, Some _) => Exists (fun ic => Validate ic <> None) ids
  end.
Proof.
  revert i acc. induction ids as [|ic rest IH]; intros i acc; simpl.
  - split; [constructor|reflexivity].
  - destruct (Validate ic) as [e|] eqn:Hv.
    + left. congruence.
    + specialize (IH (i + 1) (<[managerKey ic := newManager ic]> acc)).
      destruct (loadManagers rest _) as [res [e|]].
      * right. exact IH.
      * destruct IH as [Hf Hk]. split; [constructor; assumption|].
        intros key. rewrite Hk. destruct (lastRule key rest); [reflexivity|].
        destruct (String.eqb_spec (managerKey ic) key) as [->|Hne].
        -- apply lookup_insert_eq.
        -- apply lookup_insert_ne. exact Hne.
Qed.

Lemma New_accepts (config : Config) :
  (exists plugin, New config = (Some plugin, None))
  <-> (RedisAddress config <> "" /\ Identifiers config <> []
       /\ Forall (fun ic => Validate ic = None) (Identifiers config)).
Proof.
  unfold New.
  destruct (String.eqb_spec (RedisAddress config) "") as [Ea|Ea].
  { split; [intros [p Hp]; discriminate|tauto]. }
  destruct (Identifiers config) as [|ic rest] eqn:Hids.
  { simpl. split; [intros [p Hp]; discriminate|tauto]. }
  change ((length (ic :: rest) =? 0)%nat) with false. cbv iota.
  pose proof (loadManagers_spec (ic :: rest) 0 ∅) as H.
  destruct (loadManagers (ic :: rest) 0 ∅) as [res [e|]].
  - split; [intros [p Hp]; discriminate|].
    intros (_ & _ & Hf). exfalso. apply Exists_exists in H as (x & Hx & Hn).
    rewrite Forall_forall in Hf. exact (Hn (Hf x Hx)).
  - destruct H as [Hf _]. split; [intros _|eauto]. repeat split; [assumption|discriminate|assumption].
Qed.

(** X2.  [New] (with a store that accepts the connection) succeeds exactly when the
    address is not empty, there is at least one rule and [Validate] accepts every
    rule.  The plugin then holds, under each key [Type:Name:Value], the manager of the
    last rule with that key, and nothing under any other key: of two rules with the
    same type, name and value the earlier one is dropped silently. *)
Theorem New_managers (config : Config) :
  ((exists plugin, New config = (Some plugin, None))
   <-> (RedisAddress config <> "" /\ Identifiers config <> []
        /\ Forall (fun ic => Validate ic = None) (Identifiers config)))
  /\ (forall plugin,
        New config = (Some plugin, None) ->
        plugin_config plugin = config
        /\ forall key,
             managers plugin !! key = newManager <$> lastRule key (Identifiers config)).
Proof.
  split; [apply New_accepts|].
  intros plugin. unfold New.
  destruct (String.eqb (RedisAddress config) ""); [discriminate|].
  destruct ((length (Identifiers config) =? 0)%nat); [discriminate|].
  pose proof (loadManagers_spec (Identifiers config) 0 ∅) as H.
  destruct (loadManagers (Identifiers config) 0 ∅) as [res [e|]]; [discriminate|].
  intros [= <-]. split; [reflexivity|]. intros key. destruct H as [_ Hk].
  cbn [managers]. rewrite Hk. destruct (lastRule key (Identifiers config)); [reflexivity|].
  apply lookup_empty.
Qed.

Lemma validateIdentifiers_spec (ids : list IdentifierConfig.t) (i : Z) :
  match validateIdentifiers ids i with
  | None => Forall (fun ic => Validate ic = None) ids
  | Some e =>
      exists pre ic post e0,
        ids = pre ++ ic :: post
        /\ Forall (fun ic => Validate ic = None) pre
        /\ Validate ic = Some e0
        /\ e = ("identifier " ++ GoStr.FormatInt (i + Z.of_nat (length pre))
                ++ " validation failed: " ++ e0)%string
  end.
Proof.
  revert i. induction ids as [|ic rest IH]; intros i; simpl; [constructor|].
  destruct (Validate ic) as [e0|] eqn:Hv.
  - exists [], ic, rest, e0. simpl. rewrite Z.add_0_r.
    split; [reflexivity|]. split; [constructor|]. split; [exact Hv|reflexivity].
  - specialize (IH (i + 1)). destruct (validateIdentifiers rest (i + 1)) as [e|].
    + destruct IH as (pre & ic' & post & e0 & -> & Hf & Hv' & ->).
      exists (ic :: pre), ic', post, e0. simpl length.
      repeat split; [constructor; assumption|assumption|].
      do 3 f_equal. lia.
    + constructor; assumption.
Qed.

(** X3.  [QuotaConfig.Validate] accepts exactly the configurations from which [New]
    builds a plugin.  When it rejects a configuration that has an address and rules,
    the error names the index of the first rule that [IdentifierConfig.Validate]
    rejects and carries that rule's error. *)
Theorem QuotaConfig_Validate_New (config : Config) :
  (QuotaConfig_Validate config = None <-> exists plugin, New config = (Some plugin, None))
  /\ (forall e,
        QuotaConfig_Validate config = Some e ->
        RedisAddress config <> "" -> Identifiers config <> [] ->
        exists pre ic post e0,
          Identifiers config = pre ++ ic :: post
          /\ Forall (fun ic => Validate ic = None) pre
          /\ Validate ic = Some e0
          /\ e = ("identifier " ++ GoStr.FormatInt (Z.of_nat (length pre))
                  ++ " validation failed: " ++ e0)%string).
Proof.
  split.
  - rewrite New_accepts. unfold QuotaConfig_Validate.
    destruct (String.eqb_spec (RedisAddress config) "") as [Ea|Ea];
      [split; [discriminate|tauto]|].
    destruct (Identifiers config) as [|ic rest] eqn:Hids;
      [simpl; split; [discriminate|tauto]|].
    change ((length (ic :: rest) =? 0)%nat) with false. cbv iota.
    pose proof (validateIdentifiers_spec (ic :: rest) 0) as H.
    destruct (validateIdentifiers (ic :: rest) 0) as [e|].
    + split; [discriminate|]. intros (_ & _ & Hf). exfalso.
      destruct H as (pre & ic' & post & e0 & E & _ & Hv & _).
      rewrite Forall_forall in Hf. specialize (Hf ic'). rewrite E in Hf.
      rewrite Hf in Hv; [discriminate|].
      apply elem_of_app. right. apply elem_of_cons. left. reflexivity.
    + split; [intros _|reflexivity]. repeat split; [assumption|discriminate|assumption].
  - intros e He Ha Hi. unfold QuotaConfig_Validate in He.
    destruct (String.eqb_spec (RedisAddress config) ""); [contradiction|].
    destruct (Identifiers config) as [|ic rest] eqn:Hids; [contradiction|].
    change ((length (ic :: rest) =? 0)%nat) with false in He. cbv iota in He.
    pose proof (validateIdentifiers_spec (ic :: rest) 0) as H. rewrite He in H.
    exact H.
Qed.

End ConfigProofs.

Lemma New_managers_witness :
  plugin_config duplicatePlugin = duplicateRules
  /\ managers duplicatePlugin !! "Header:X-User-ID:alice" = Some (newManager laxRule)
  /\ managers duplicatePlugin !! "IP::" = None.
Proof.
  assert (E : New duplicateRules = (Some duplicatePlugin, None)) by (vm_compute; reflexivity).
  destruct (New_managers duplicateRules) as [_ H].
  destruct (H duplicatePlugin E) as [Hc Hk].
  split; [exact Hc|]. split; rewrite Hk; reflexivity.
Defined.

Lemma QuotaConfig_Validate_New_witness :
  exists pre ic post e0,
    Identifiers thirdInvalid = pre ++ ic :: post
    /\ Forall (fun ic => Validate ic = None) pre
    /\ Validate ic = Some e0
    /\ "identifier 2 validation failed: at least one feature (rate limit or quota) must be enabled"
       = ("identifier " ++ GoStr.FormatInt (Z.of_nat (length pre))
          ++ " validation failed: " ++ e0)%string.
Proof.
  destruct (QuotaConfig_Validate_New thirdInvalid) as [_ H].
  apply H; [vm_compute; reflexivity|vm_compute; discriminate|vm_compute; discriminate].
Defined.

(** ** The middleware *)

Section ServeProofs.
Context {rt : GoRuntime}.

Lemma unmatched_spec (q : quotaPlugin) (req : Request) (key : string) (m : IdentifierManager) :
  unmatched q req = true -> managers q !! key = Some m ->
  extractIdentifier req (config m) = "".
Proof.
  unfold unmatched. rewrite forallb_forall. intros H Hk.
  apply String.eqb_eq. apply (H (key, m)).
  apply list_elem_of_In, elem_of_map_to_list. exact Hk.
Qed.

Lemma findMatch_unmatched (q : quotaPlugin) (req : Request) (keys : list string) (w : World) :
  unmatched q req = true -> findMatch q req keys w = (None, w).
Proof.
  intros H. induction keys as [|key rest IH]; simpl; [reflexivity|].
  destruct (managers q !! key) as [m|] eqn:Hk; [|exact IH].
  rewrite (unmatched_spec q req key m H Hk). exact IH.
Qed.

(** X4.  When no rule of the plugin yields an identifier for the request, [ServeHTTP]
    answers 403 with the content type application/json and the fixed JSON body, in
    whatever order the rules are visited; it sends no command to the store, does not
    read the clock and does not invoke the downstream handler. *)
Theorem ServeHTTP_no_identifier (order : list string) (q : quotaPlugin) (req : Request)
    (w : World) :
  unmatched q req = true ->
  let w' := snd (ServeHTTP order q req w) in
  status w' = Some (match status w with Some c => c | None => StatusForbidden end)
  /\ header w' = <["Content-Type" := "application/json"]> (header w)
  /\ body w' = (body w ++ errorResponse)%string
  /\ trace w' = trace w ++ [EvHeader "Content-Type" "application/json";
                            EvWriteHeader StatusForbidden; EvWrite errorResponse]
  /\ db w' = db w /\ cmds w' = cmds w /\ ticks w' = ticks w.
Proof.
  intros H w'. subst w'. unfold ServeHTTP.
  rewrite bind_eq, (findMatch_unmatched q req order w H). cbn [fst snd].
  unfold bind, Header_Set, WriteHeader, Write. cbn [fst snd status].
  destruct (status w); cbn; repeat split; try reflexivity; rewrite <- !app_assoc; reflexivity.
Qed.











Lemma appends_app (P : Event -> Prop) (w w' : World) (l : list Event) :
  trace w' = trace w ++ l -> Forall P l -> appends P w w'.
Proof. intros E F. exists l. split; assumption. Qed.

Lemma deny_tail (contentType : string) (code : Z) (data : string) (w : World) :
  let w' := snd ((let* u := Header_Set "Content-Type" contentType in
                  let* returned := WriteHeader code in
                  if returned then Write data else ret tt) w) in
  appends inert w w'
  /\ body w' = (if headerReturns code w then (body w ++ data)%string else body w)
  /\ header w' !! "Content-Type" = Some contentType
  /\ db w' = db w
  /\ (forall k, k <> "Content-Type" -> header w' !! k = header w !! k).
Proof.
  unfold bind, Header_Set, WriteHeader, headerReturns. cbn [fst snd status].
  assert (Hh : forall h : gmap string string,
            <[GoStr.CanonicalMIMEHeaderKey "Content-Type" := contentType]> h !! "Content-Type"
            = Some contentType
            /\ forall k, k <> "Content-Type" ->
                 <[GoStr.CanonicalMIMEHeaderKey "Content-Type" := contentType]> h !! k = h !! k).
  { intros h. change (GoStr.CanonicalMIMEHeaderKey "Content-Type") with "Content-Type".
    split; [apply lookup_insert_eq|].
    intros k Hk. apply lookup_insert_ne. congruence. }
  destruct (status w); [|destruct (validStatus code)]; cbn.
  - split; [eapply appends_app; [cbn; rewrite <- ?app_assoc; reflexivity|]|].
    + cbn [app]. repeat constructor.
    + split; [reflexivity|]. split; [apply Hh|]. split; [reflexivity|apply Hh].
  - split; [eapply appends_app; [cbn; rewrite <- ?app_assoc; reflexivity|]|].
    + cbn [app]. repeat constructor.
    + split; [reflexivity|]. split; [apply Hh|]. split; [reflexivity|apply Hh].
  - split; [eapply appends_app; [cbn; rewrite <- ?app_assoc; reflexivity|]|].
    + cbn [app]. repeat constructor.
    + split; [reflexivity|]. split; [apply Hh|]. split; [reflexivity|apply Hh].
Qed.


Lemma findMatch_matches (q : quotaPlugin) (req : Request) (keys : list string) (w : World)
    (key : string) (m : IdentifierManager) :
  In key keys -> managers q !! key = Some m -> extractIdentifier req (config m) <> "" ->
  exists response manager w', findMatch q req keys w = (Some (response, manager), w').
Proof.
  intros Hin Hk Hne. induction keys as [|key0 rest IH]; [contradiction|]. simpl.
  assert (Hrest : key0 <> key -> exists response manager w',
                    findMatch q req rest w = (Some (response, manager), w')).
  { intros Hd. apply IH. destruct Hin as [E|Hin]; [contradiction|exact Hin]. }
  destruct (managers q !! key0) as [m0|] eqn:Hk0.
  - destruct (String.eqb_spec (extractIdentifier req (config m0)) "") as [E|E].
    + apply Hrest. intros ->. rewrite Hk in Hk0. injection Hk0 as ->. contradiction.
    + unfold bind.
      pose proof (checkIdentifier_result m0 (extractIdentifier req (config m0)) w) as R.
      destruct (checkIdentifier m0 (extractIdentifier req (config m0)) w) as [[resp err] w1].
      destruct R as [-> _]. eexists _, _, _. reflexivity.
  - apply Hrest. intros ->. rewrite Hk in Hk0. discriminate.
Qed.

(** X6.  A rule of type Query, or of a type the plugin does not know, whose value is
    not empty yields an identifier for every request: the query parameter when the
    request has one, the configured value otherwise.  A plugin that holds such a rule
    therefore finds a match for every request, in whatever order it visits its rules,
    and never gives the answer reserved for requests without identifier. *)
Theorem default_value_matches (q : quotaPlugin) (key : string) (m : IdentifierManager)
    (order : list string) (req : Request) (w : World) :
  managers q !! key = Some m ->
  IdentifierConfig.Type_ (config m) <> "Header" ->
  IdentifierConfig.Type_ (config m) <> "IP" ->
  IdentifierConfig.Type_ (config m) <> "Cookie" ->
  IdentifierConfig.Value (config m) <> "" ->
  range_order q order ->
  extractIdentifier req (config m) <> ""
  /\ unmatched q req = false
  /\ exists response manager w', findMatch q req order w = (Some (response, manager), w').
Proof.
  intros Hk Hh Hi Hc Hv Ho.
  assert (Hne : extractIdentifier req (config m) <> "").
  { unfold extractIdentifier.
    destruct (String.eqb_spec (IdentifierConfig.Type_ (config m)) "Header"); [contradiction|].
    destruct (String.eqb_spec (IdentifierConfig.Type_ (config m)) "IP"); [contradiction|].
    destruct (String.eqb_spec (IdentifierConfig.Type_ (config m)) "Query").
    - destruct (String.eqb_spec (Values_Get (Query req) (IdentifierConfig.Name (config m))) "");
        cbn [negb]; assumption.
    - destruct (String.eqb_spec (IdentifierConfig.Type_ (config m)) "Cookie"); [contradiction|].
      assumption. }
  split; [exact Hne|]. split.
  - destruct (unmatched q req) eqn:Hu; [|reflexivity].
    exfalso. exact (Hne (unmatched_spec q req key m Hu Hk)).
  - apply (findMatch_matches q req order w key m); [|exact Hk|exact Hne].
    apply (Permutation_in key (Permutation_sym Ho)).
    apply in_map_iff. exists (key, m). split; [reflexivity|].
    apply list_elem_of_In, elem_of_map_to_list. exact Hk.
Qed.

End ServeProofs.

Lemma ServeHTTP_no_identifier_witness :
  status (snd (ServeHTTP ["Header:X-User-ID:alice"] alicePlugin Sample.noHeaders
                 (Sample.world Sample.noon 1000)))
  = Some (match status (Sample.world Sample.noon 1000) with
          | Some c => c | None => StatusForbidden end)
  /\ body (snd (ServeHTTP ["Header:X-User-ID:alice"] alicePlugin Sample.noHeaders
                  (Sample.world Sample.noon 1000)))
     = (body (Sample.world Sample.noon 1000) ++ errorResponse)%string.
Proof.
  assert (H : unmatched alicePlugin Sample.noHeaders = true) by (vm_compute; reflexivity).
  destruct (ServeHTTP_no_identifier ["Header:X-User-ID:alice"] alicePlugin Sample.noHeaders
              (Sample.world Sample.noon 1000) H) as (H1 & _ & H3 & _).
  split; [exact H1|exact H3].
Defined.

(** ** The quota manager *)

Section QuotaMore.
Context {rt : GoRuntime}.



Lemma usage_read_healthy (w : World) (key : string) :
  faults w (cmds w) = Redis.Healthy -> usage_read w key = stored_usage (db w) key.
Proof. intros H. unfold usage_read. rewrite H. reflexivity. Qed.


Lemma SetQuotaUsage_healthy (config : QuotaSettings.t) (identifier : string) (usage : Z)
    (w : World) :
  QuotaSettings.Enabled config = true ->
  faults w (cmds w) = Redis.Healthy ->
  let key := GetQuotaKey identifier
               (periodLabel (QuotaSettings.Period config) (clock w (ticks w))) in
  SetQuotaUsage config identifier usage w
  = (None,
     stored (<[key := {| Redis.value := GoStr.FormatInt usage; Redis.ttl := None |}]> (db w))
       (counted (logged (EvCmd (Redis.SET key (GoStr.FormatInt usage))) (ticked w)))).
Proof.
  intros He Hf key. unfold SetQuotaUsage. rewrite He. cbn [negb].
  unfold GetQuotaPeriodKey, bind. unfold Now at 1. unfold ret at 1. fold key.
  rewrite (Set__healthy key (VInt usage) 0 (ticked w) Hf eq_refl). reflexivity.
Qed.

(** X9.  [SetQuotaUsage] writes the usage with a plain SET: with the store answering
    and the clock staying in one window, the quota info read afterwards reports that
    usage, and the counter has lost its expiry.  [ResetQuota] is the case of usage 0.
    After a usage other than zero was set, a later [ConsumeQuota] does not send
    EXPIRE: the counter stays without expiry. *)
Theorem SetQuotaUsage_roundtrip (config : QuotaSettings.t) (identifier : string) (usage : Z)
    (amount : Z) (w : World) :
  QuotaSettings.Enabled config = true ->
  let period := QuotaSettings.Period config in
  let key := GetQuotaKey identifier (periodLabel period (clock w (ticks w))) in
  healthy w 4 -> same_window period w 5 -> GoStr.in_int64 usage = true ->
  let w1 := snd (SetQuotaUsage config identifier usage w) in
  fst (SetQuotaUsage config identifier usage w) = None
  /\ qi_Used (fst (fst (GetQuotaInfo config identifier w1))) = usage
  /\ ttl_of (db w1) key = None
  /\ ResetQuota config identifier w = SetQuotaUsage config identifier 0 w
  /\ (usage <> 0 -> 0 < amount -> GoStr.in_int64 (usage + amount) = true ->
      let w2 := snd (ConsumeQuota config identifier amount w1) in
      stored_usage (db w2) key = usage + amount /\ ttl_of (db w2) key = None).
Proof.
  intros He period key Hh Hw Hr w1.
  pose proof (SetQuotaUsage_healthy config identifier usage w He
                (healthy_at w 4 0 Hh ltac:(lia))) as E.
  fold period key in E.
  assert (D1 : db w1 = <[key := {| Redis.value := GoStr.FormatInt usage; Redis.ttl := None |}]>
                         (db w)) by (unfold w1; rewrite E; reflexivity).
  assert (F1 : faults w1 = faults w) by (unfold w1; rewrite E; reflexivity).
  assert (K1 : clock w1 = clock w) by (unfold w1; rewrite E; reflexivity).
  assert (N1 : cmds w1 = S (cmds w)) by (unfold w1; rewrite E; reflexivity).
  assert (T1 : ticks w1 = S (ticks w)) by (unfold w1; rewrite E; reflexivity).
  assert (L1 : periodLabel period (clock w1 (ticks w1)) = periodLabel period (clock w (ticks w))).
  { rewrite K1, T1. exact (same_window_at period w 5 1 Hw ltac:(lia)). }
  assert (U1 : stored_usage (db w1) key = usage)
    by (rewrite D1; apply stored_usage_insert; exact Hr).
  split; [rewrite E; reflexivity|]. split; [|split; [|split]].
  - destruct (GetQuotaInfo_enabled config identifier w1 He) as (_ & _ & E3 & _).
    fold period in E3. rewrite L1 in E3. fold key in E3. rewrite E3.
    rewrite usage_read_healthy; [exact U1|].
    rewrite F1, N1. exact (healthy_at w 4 1 Hh ltac:(lia)).
  - rewrite D1. unfold ttl_of. rewrite lookup_insert_eq. reflexivity.
  - reflexivity.
  - intros Hne Ha Hsum w2.
    assert (Hh1 : healthy w1 3).
    { intros i Hi. rewrite F1, N1.
      replace (S (cmds w) + i)%nat with (S i + cmds w)%nat by lia.
      apply (healthy_at w 4); [exact Hh|lia]. }
    assert (Hw1 : same_window period w1 4).
    { intros i Hi. rewrite L1, K1, T1.
      replace (S (ticks w) + i)%nat with (1 + i + ticks w)%nat by lia.
      apply (same_window_at period w 5); [exact Hw|lia]. }
    assert (Hc1 : counter_accepts (db w1)
                    (GetQuotaKey identifier (periodLabel period (clock w1 (ticks w1)))) amount).
    { rewrite L1. fold key. unfold counter_accepts. rewrite D1, lookup_insert_eq.
      exists usage. split; [apply as_integer_FormatInt; exact Hr|exact Hsum]. }
    destruct (ConsumeQuota_healthy config identifier amount w1 He Ha Hh1 Hw1 Hc1)
      as (info & w2' & E2 & _ & Hd & _).
    fold period in Hd. rewrite L1 in Hd. fold key in Hd. rewrite U1 in Hd.
    assert (Ew2 : w2 = w2') by (unfold w2; rewrite E2; reflexivity).
    replace (usage + amount =? amount) with false in Hd by (symmetry; apply Z.eqb_neq; lia).
    cbn [negb orb] in Hd. rewrite Ew2, Hd.
    split; [apply stored_usage_insert; exact Hsum|].
    unfold ttl_of. rewrite lookup_insert_eq. cbn [Redis.ttl].
    rewrite D1, lookup_insert_eq. reflexivity.
Qed.

Lemma usageHistory_spec (identifier : string) (periods : list string)
    (history : gmap string Z) (w : World) :
  let r := usageHistory identifier periods history w in
  db (snd r) = db w
  /\ (forall p, ~ In p periods -> fst r !! p = history !! p)
  /\ (forall p, In p periods -> is_Some (fst r !! p))
  /\ (healthy w (length periods) ->
      forall p, In p periods ->
        fst r !! p = Some (stored_usage (db w) (GetQuotaKey identifier p)))
  /\ (forall i p,
        periods !! i = Some p -> (forall j, (i < j)%nat -> periods !! j <> Some p) ->
        fst r !! p = Some (match faults w (cmds w + i)%nat with
                           | Redis.Healthy => stored_usage (db w) (GetQuotaKey identifier p)
                           | _ => 0
                           end)).
Proof.
  revert history w. induction periods as [|period rest IH]; intros history w; simpl.
  - repeat split; auto; intros; try contradiction. discriminate.
  - rewrite bind_eq, Get_eq. cbn [fst snd].
    set (w1 := stored (db w) (counted (logged (EvCmd (Redis.GET (GetQuotaKey identifier period))) w))).
    set (v := match
                match faults w (cmds w) with
                | Redis.Healthy =>
                    match db w !! GetQuotaKey identifier period with
                    | Some e => (Redis.value e, None)
                    | None => ("", Some "key not found")
                    end
                | Redis.RequestLost => ("", Some "write: broken pipe")
                | Redis.ReplyLost => ("", Some "read: connection reset")
                end
              with
              | (_, Some _) => 0
              | (usageStr, None) =>
                  match GoStr.ParseInt usageStr with Some usage => usage | None => 0 end
              end).
    assert (E : forall res : string * error,
              (let (usageStr, err) := res in
               match err with
               | Some _ => usageHistory identifier rest (<[period:=0]> history)
               | None =>
                   match GoStr.ParseInt usageStr with
                   | Some usage => usageHistory identifier rest (<[period:=usage]> history)
                   | None => usageHistory identifier rest (<[period:=0]> history)
                   end
               end) w1
              = usageHistory identifier rest
                  (<[period := match res with
                               | (_, Some _) => 0
                               | (usageStr, None) =>
                                   match GoStr.ParseInt usageStr with
                                   | Some usage => usage | None => 0 end
                               end]> history) w1).
    { intros [usageStr [e|]]; [reflexivity|]. destruct (GoStr.ParseInt usageStr); reflexivity. }
    rewrite E. fold v. clear E.
    destruct (IH (<[period := v]> history) w1) as (Hd & Hout & Hin & Hval & Hat).
    split; [exact Hd|]. split; [|split; [|split]].
    + intros p Hp. rewrite Hout by tauto. apply lookup_insert_ne. tauto.
    + intros p Hp. destruct (in_dec string_dec p rest) as [Hr|Hr]; [apply Hin; exact Hr|].
      rewrite Hout by exact Hr. destruct Hp as [->|Hp]; [|contradiction].
      rewrite lookup_insert_eq. eauto.
    + intros Hh p Hp.
      destruct (in_dec string_dec p rest) as [Hr|Hr].
      * apply Hval; [|exact Hr]. intros i Hi. subst w1. cbn [faults cmds stored counted logged].
        replace (S (cmds w) + i)%nat with (cmds w + S i)%nat by lia. apply Hh. simpl. lia.
      * rewrite Hout by exact Hr. destruct Hp as [->|Hp]; [|contradiction].
        rewrite lookup_insert_eq. f_equal. subst v. unfold stored_usage.
        rewrite <- (Nat.add_0_r (cmds w)), (Hh 0%nat) by (simpl; lia).
        destruct (db w !! GetQuotaKey identifier p); reflexivity.
    + intros [|i] p Hi Hlast.
      * injection Hi as ->.
        assert (Hr : ~ In p rest).
        { intros Hr. apply list_elem_of_In, list_elem_of_lookup in Hr as [j Hj].
          exact (Hlast (S j) ltac:(lia) Hj). }
        rewrite Hout by exact Hr. rewrite lookup_insert_eq. f_equal. subst v.
        unfold stored_usage. rewrite Nat.add_0_r.
        destruct (faults w (cmds w)); [|reflexivity|reflexivity].
        destruct (db w !! GetQuotaKey identifier p); reflexivity.
      * eapply eq_trans;
          [apply (Hat i p Hi); intros j Hj; exact (Hlast (S j) ltac:(lia))|].
        subst w1. cbn [faults cmds db stored counted logged].
        replace (S (cmds w) + i)%nat with (cmds w + S i)%nat by lia. reflexivity.
Qed.

(** X10.  With quota enabled, [GetUsageHistory] never fails and never writes: it
    returns a map with an entry for each of the period labels it was asked for and
    for no other, and leaves the store as it was.  It reads the labels in the order
    given, one GET each; the entry of a label is what its last read yields: the usage
    stored under the key of that label when the store answers that read (0 when the
    key is absent or holds no integer), and 0 when the read fails.  With quota
    disabled it returns no map. *)
Theorem GetUsageHistory_reads (config : QuotaSettings.t) (identifier : string)
    (periods : list string) (w : World) :
  (QuotaSettings.Enabled config = true ->
   exists history,
     fst (GetUsageHistory config identifier periods w) = (Some history, None)
     /\ db (snd (GetUsageHistory config identifier periods w)) = db w
     /\ (forall p, is_Some (history !! p) <-> In p periods)
     /\ (forall i p,
           periods !! i = Some p -> (forall j, (i < j)%nat -> periods !! j <> Some p) ->
           history !! p
           = Some (match faults w (cmds w + i)%nat with
                   | Redis.Healthy => stored_usage (db w) (GetQuotaKey identifier p)
                   | _ => 0
                   end))
     /\ (healthy w (length periods) ->
         forall p, In p periods ->
           history !! p = Some (stored_usage (db w) (GetQuotaKey identifier p))))
  /\ (QuotaSettings.Enabled config = false ->
      GetUsageHistory config identifier periods w = (None, None, w)).
Proof.
  unfold GetUsageHistory. split; intros He; rewrite He; cbn [negb]; [|reflexivity].
  rewrite bind_eq. cbn [fst snd ret].
  destruct (usageHistory_spec identifier periods ∅ w) as (Hd & Hout & Hin & Hval & Hat).
  exists (fst (usageHistory identifier periods ∅ w)).
  split; [reflexivity|]. split; [exact Hd|]. split; [|split; [exact Hat|exact Hval]].
  intros p. split; [|apply Hin].
  intros Hs. destruct (in_dec string_dec p periods) as [Hp|Hp]; [exact Hp|].
  rewrite Hout, lookup_empty in Hs by exact Hp. destruct Hs as [x Hx]. discriminate.
Qed.

(** X20.  The reset instant of a weekly quota is the start of the coming Sunday: the
    day of [now] moved forward by between one and seven days to a Sunday, a full
    week when [now] is itself a Sunday. *)
Theorem weekly_reset (config : QuotaSettings.t) (now : Z) :
  QuotaSettings.Period config = "Weekly" ->
  0 <= Weekday now <= 6 ->
  exists k,
    1 <= k <= 7
    /\ (Weekday now + k) mod 7 = 0
    /\ (k = 7 <-> Weekday now = 0)
    /\ nextReset config now = Date (Year now) (Month now) (Day now + k).
Proof.
  intros Hp Hwd. unfold nextReset. rewrite Hp. cbn [String.eqb Ascii.eqb Bool.eqb].
  destruct (Z.eq_dec (Weekday now) 0) as [E0|N0].
  - exists 7. rewrite E0. repeat split; auto; lia.
  - assert (Er : Z.rem (7 - Weekday now) 7 = 7 - Weekday now) by (apply Z.rem_small; lia).
    rewrite Er. destruct (Z.eqb_spec (7 - Weekday now) 0) as [|_]; [lia|].
    exists (7 - Weekday now). split; [lia|]. split.
    + replace (Weekday now + (7 - Weekday now)) with 7 by lia. reflexivity.
    + split; [split; lia|reflexivity].
Qed.

End QuotaMore.

(** ** The keys the plugin writes *)

Lemma keeps_refl (K : string -> Prop) (w : World) : keeps K w w.
Proof. intros k _. reflexivity. Qed.

Lemma keeps_trans (K : string -> Prop) (a b c : World) :
  keeps K a b -> keeps K b c -> keeps K a c.
Proof. intros H1 H2 k Hk. rewrite (H2 k Hk). apply H1, Hk. Qed.

Lemma keeps_weaken (K K' : string -> Prop) (w w' : World) :
  (forall k, K k -> K' k) -> keeps K w w' -> keeps K' w w'.
Proof. intros H H1 k Hk. apply H1. intros Hc. apply Hk, H, Hc. Qed.

Lemma keeps_same (K : string -> Prop) (w w' : World) : db w' = db w -> keeps K w w'.
Proof. intros E k _. rewrite E. reflexivity. Qed.

#[local] Hint Resolve keeps_refl keeps_trans : frames.

Lemma before_last_colon_none (s : string) :
  GoStr.ContainsByte s ":" = false -> GoStr.before_last_colon s = None.
Proof.
  induction s as [|a r IH]; simpl; [reflexivity|].
  intros H. apply orb_false_elim in H as [Ha Hr]. rewrite (IH Hr), Ha. reflexivity.
Qed.

Lemma before_last_colon_app (host port : string) :
  GoStr.ContainsByte port ":" = false ->
  GoStr.before_last_colon (host ++ ":" ++ port) = Some host.
Proof.
  intros Hp. induction host as [|a r IH].
  - change (GoStr.before_last_colon (String ":" port) = Some "").
    cbn [GoStr.before_last_colon]. rewrite (before_last_colon_none port Hp). reflexivity.
  - change (GoStr.before_last_colon (String a (r ++ ":" ++ port)) = Some (String a r)).
    cbn [GoStr.before_last_colon]. rewrite IH. reflexivity.
Qed.

Section Footprint.
Context {rt : GoRuntime}.

Lemma frames_keeps_quiet {A} (K : string -> Prop) (P : Event -> Prop) (m : M A) :
  frames (quiet P) m -> frames (keeps K) m.
Proof. intros H w. apply keeps_same. apply (H w). Qed.

Lemma frames_keeps_header {A} (K : string -> Prop) (m : M A) :
  frames header_step m -> frames (keeps K) m.
Proof. intros H w. apply keeps_same. apply (H w). Qed.

Lemma exec_other (c : Redis.Cmd) (d : gmap string Redis.Entry) (k : string) :
  k <> Redis.cmd_key c -> snd (Redis.exec c d) !! k = d !! k.
Proof.
  intros Hk. destruct c as [key|key v|key secs v|key delta|key secs]; cbn [Redis.cmd_key] in Hk;
    cbn [Redis.exec].
  - destruct (d !! key); reflexivity.
  - apply lookup_insert_ne. congruence.
  - destruct (0 <? secs); [apply lookup_insert_ne; congruence|reflexivity].
  - destruct (d !! key) as [e|]; [|apply lookup_insert_ne; congruence].
    destruct (Redis.as_integer (Redis.value e)) as [v|]; [|reflexivity].
    destruct (GoStr.in_int64 (v + delta)); [apply lookup_insert_ne; congruence|reflexivity].
  - destruct (d !! key); [|reflexivity].
    destruct (0 <? secs); [apply lookup_insert_ne|apply lookup_delete_ne]; congruence.
Qed.

Lemma frames_keeps_roundtrip (K : string -> Prop) (c : Redis.Cmd) :
  K (Redis.cmd_key c) -> frames (keeps K) (roundtrip c).
Proof.
  intros HK w k Hk.
  assert (Hne : k <> Redis.cmd_key c) by (intros ->; contradiction).
  pose proof (exec_other c (db w) k Hne) as E.
  unfold roundtrip, bind, emit, next_fault, get_db, set_db, ret. cbn.
  destruct (faults w (cmds w)); cbn; [|reflexivity|exact E].
  destruct (Redis.exec c (db w)) as [r d'] eqn:Ex. cbn in *. exact E.
Qed.

Lemma frames_keeps_Set_ (K : string -> Prop) (key : string) (value : GoValue) (expiration : Z) :
  K key -> frames (keeps K) (Set_ key value expiration).
Proof.
  intros HK. unfold Set_. apply frames_bind; [apply keeps_trans| |].
  - destruct (0 <? expiration); apply frames_keeps_roundtrip; exact HK.
  - intros [resp [e|]]; [|destruct (negb _)]; apply frames_ret, keeps_refl.
Qed.

Lemma frames_keeps_saveBucket (identifier : string) (bucket : TokenBucket) :
  frames (keeps (bucket_key identifier)) (saveBucket (GetRateLimitKey identifier) bucket).
Proof.
  unfold saveBucket.
  assert (H1 : forall v e, frames (keeps (bucket_key identifier))
                             (Set_ (GetRateLimitKey identifier ++ ":tokens") v e))
    by (intros; apply frames_keeps_Set_; left; reflexivity).
  assert (H2 : forall v e, frames (keeps (bucket_key identifier))
                             (Set_ (GetRateLimitKey identifier ++ ":last_refill") v e))
    by (intros; apply frames_keeps_Set_; right; reflexivity).
  frame_auto.
Qed.

Lemma frames_keeps_allowTokens (config : RateLimitConfig.t) (identifier : string) (n : float) :
  frames (keeps (bucket_key identifier)) (allowTokens config identifier n).
Proof.
  unfold allowTokens.
  assert (H1 : frames (keeps (bucket_key identifier))
                 (getBucket config (GetRateLimitKey identifier)))
    by (eapply frames_keeps_quiet, frames_getBucket).
  assert (H2 : frames (keeps (bucket_key identifier)) Now)
    by (eapply frames_keeps_quiet, (frames_Now (fun _ => True))).
  pose proof frames_keeps_saveBucket as H3.
  frame_auto.
Qed.

Lemma frames_keeps_Reset (config : RateLimitConfig.t) (identifier : string) :
  frames (keeps (bucket_key identifier)) (Reset config identifier).
Proof.
  unfold Reset.
  assert (H2 : frames (keeps (bucket_key identifier)) Now)
    by (eapply frames_keeps_quiet, (frames_Now (fun _ => True))).
  pose proof frames_keeps_saveBucket as H3.
  frame_auto.
Qed.

Lemma frames_GetCurrentTokens (config : RateLimitConfig.t) (identifier : string) :
  frames (quiet (limiter_get (GetRateLimitKey identifier))) (GetCurrentTokens config identifier).
Proof. unfold GetCurrentTokens. frame_auto. Qed.

(** X11.  The rate limiter of an identifier writes only the two keys of its bucket:
    whatever the store and the clock do, [Allow], [AllowN] and [Reset] leave every
    other key as it was.  [GetCurrentTokens] and [GetLimitInfo] write nothing: the
    refill they compute is not saved. *)
Theorem limiter_footprint (config : RateLimitConfig.t) (identifier : string) (n : Z)
    (w : World) (k : string) :
  k <> (GetRateLimitKey identifier ++ ":tokens")%string ->
  k <> (GetRateLimitKey identifier ++ ":last_refill")%string ->
  db (snd (Allow config identifier w)) !! k = db w !! k
  /\ db (snd (AllowN config identifier n w)) !! k = db w !! k
  /\ db (snd (Reset config identifier w)) !! k = db w !! k
  /\ db (snd (GetCurrentTokens config identifier w)) = db w
  /\ db (snd (GetLimitInfo config identifier w)) = db w.
Proof.
  intros H1 H2.
  assert (Hk : ~ bucket_key identifier k) by (intros [E|E]; contradiction).
  split; [exact (frames_keeps_allowTokens config identifier 1%float w k Hk)|].
  split; [|split; [exact (frames_keeps_Reset config identifier w k Hk)|split]].
  - unfold AllowN. destruct (n <=? 0); [reflexivity|].
    exact (frames_keeps_allowTokens config identifier _ w k Hk).
  - apply (frames_GetCurrentTokens config identifier w).
  - apply (frames_GetLimitInfo config identifier w).
Qed.

Lemma frames_keeps_ConsumeQuota (config : QuotaSettings.t) (identifier : string) (amount : Z) :
  frames (keeps (identifier_key identifier)) (ConsumeQuota config identifier amount).
Proof.
  intros w. unfold ConsumeQuota.
  destruct (negb (QuotaSettings.Enabled config)); [apply keeps_refl|].
  unfold GetQuotaPeriodKey. rewrite bind_eq.
  change (fst (bind Now (fun now => ret (periodLabel (QuotaSettings.Period config) now)) w))
    with (periodLabel (QuotaSettings.Period config) (clock w (ticks w))).
  change (snd (bind Now (fun now => ret (periodLabel (QuotaSettings.Period config) now)) w))
    with (ticked w).
  set (label := periodLabel (QuotaSettings.Period config) (clock w (ticks w))).
  assert (HK : identifier_key identifier (GetQuotaKey identifier label))
    by (right; eexists _, _; reflexivity).
  apply keeps_trans with (b := ticked w); [apply keeps_same; reflexivity|].
  match goal with |- keeps _ (ticked w) (snd (?m (ticked w))) =>
    assert (F : frames (keeps (identifier_key identifier)) m) end; [|apply F].
  assert (H1 : forall v,
             frames (keeps (identifier_key identifier)) (IncrBy (GetQuotaKey identifier label) v)).
  { intros. unfold IncrBy. apply frames_bind; [apply keeps_trans| |].
    - apply frames_keeps_roundtrip, HK.
    - intros [resp [e|]]; frame_auto. }
  assert (H2 : forall v,
             frames (keeps (identifier_key identifier)) (Expire (GetQuotaKey identifier label) v)).
  { intros. unfold Expire. apply frames_bind; [apply keeps_trans| |].
    - apply frames_keeps_roundtrip, HK.
    - intros [resp [e|]]; frame_auto. }
  assert (H3 : frames (keeps (identifier_key identifier)) (GetQuotaInfo config identifier))
    by (eapply frames_keeps_quiet, frames_GetQuotaInfo).
  assert (H5 : forall c, frames (keeps (identifier_key identifier)) (getNextResetTime c))
    by (intros; eapply frames_keeps_quiet, (frames_getNextResetTime (fun _ => True))).
  assert (H6 : forall t, frames (keeps (identifier_key identifier)) (Until t))
    by (intros; eapply frames_keeps_quiet, (frames_Until (fun _ => True))).
  frame_auto.
Qed.

Lemma frames_keeps_checkIdentifier (manager : IdentifierManager) (identifier : string) :
  frames (keeps (identifier_key identifier)) (checkIdentifier manager identifier).
Proof.
  unfold checkIdentifier, limiterGate, Allow.
  assert (H1 : forall c n, frames (keeps (identifier_key identifier)) (allowTokens c identifier n)).
  { intros c n w. eapply keeps_weaken; [|apply frames_keeps_allowTokens].
    intros k Hk. left. exact Hk. }
  assert (H2 : forall c, frames (keeps (identifier_key identifier)) (GetLimitInfo c identifier))
    by (intros; eapply frames_keeps_quiet, frames_GetLimitInfo).
  assert (H3 : forall c, frames (keeps (identifier_key identifier)) (CheckQuota c identifier))
    by (intros; eapply frames_keeps_quiet, frames_CheckQuota).
  frame_auto.
Qed.

Lemma frames_keeps_findMatch (q : quotaPlugin) (req : Request) (keys : list string) :
  frames (keeps (request_key q req)) (findMatch q req keys).
Proof.
  induction keys as [|key rest IH]; simpl; [frame_auto|].
  destruct (managers q !! key) as [m|] eqn:Hm; [|exact IH].
  destruct (String.eqb_spec (extractIdentifier req (config m)) "") as [E|E]; [exact IH|].
  assert (H : frames (keeps (request_key q req))
                (checkIdentifier m (extractIdentifier req (config m)))).
  { intros w. eapply keeps_weaken; [|apply frames_keeps_checkIdentifier].
    intros k Hk. exists key, m. auto. }
  frame_auto.
Qed.

Lemma ContainsByte_app (a b : string) (c : ascii) :
  GoStr.ContainsByte (a ++ b) c = GoStr.ContainsByte a c || GoStr.ContainsByte b c.
Proof.
  induction a as [|x a IH]; [reflexivity|].
  change (GoStr.ContainsByte (String x (a ++ b)) c
          = GoStr.ContainsByte (String x a) c || GoStr.ContainsByte b c).
  cbn [GoStr.ContainsByte]. rewrite IH. apply orb_assoc.
Qed.

Lemma uint_no_colon (d : Decimal.uint) :
  GoStr.ContainsByte (NilEmpty.string_of_uint d) ":" = false.
Proof. induction d; simpl; auto. Qed.

Lemma nzuint_no_colon (d : Decimal.uint) :
  GoStr.ContainsByte (NilZero.string_of_uint d) ":" = false.
Proof.
  unfold NilZero.string_of_uint. destruct d; try reflexivity;
    match goal with |- context [NilEmpty.string_of_uint ?u] => exact (uint_no_colon u) end.
Qed.

Lemma FormatInt_no_colon (z : Z) : GoStr.ContainsByte (GoStr.FormatInt z) ":" = false.
Proof.
  unfold GoStr.FormatInt, NilZero.string_of_int.
  destruct (Z.to_int z) as [d|d]; [apply nzuint_no_colon|].
  cbn [GoStr.ContainsByte]. rewrite nzuint_no_colon. reflexivity.
Qed.

Lemma zeros_no_colon (n : nat) : GoStr.ContainsByte (GoStr.zeros n) ":" = false.
Proof. induction n; simpl; auto. Qed.

Lemma pad_no_colon (width : nat) (z : Z) : GoStr.ContainsByte (GoStr.pad width z) ":" = false.
Proof.
  unfold GoStr.pad. destruct (z <? 0); cbn [GoStr.ContainsByte Ascii.eqb Bool.eqb orb];
    rewrite ContainsByte_app, zeros_no_colon, FormatInt_no_colon; reflexivity.
Qed.

(** The labels of the quota periods hold no colon. *)
Lemma periodLabel_no_colon (period : string) (now : Z) :
  GoStr.ContainsByte (periodLabel period now) ":" = false.
Proof.
  unfold periodLabel, formatDate, formatMonth.
  destruct (String.eqb period "Daily"); [|destruct (String.eqb period "Weekly");
    [destruct (ISOWeek now) as [year week]|destruct (String.eqb period "Monthly")]];
    rewrite ?ContainsByte_app, ?pad_no_colon, ?FormatInt_no_colon; reflexivity.
Qed.

Lemma append_colon (s t : string) : (s ++ String ":" t)%string = (s ++ ":" ++ t)%string.
Proof.
  induction s as [|x s IH]; [reflexivity|].
  change (String x (s ++ String ":" t) = String x (s ++ ":" ++ t)). rewrite IH. reflexivity.
Qed.

(** A key of an identifier names it: the bytes before its last colon are the prefix
    of the engine followed by the identifier. *)
Lemma identifier_key_owner (identifier k : string) :
  identifier_key identifier k ->
  GoStr.before_last_colon k = Some ("ratelimit:" ++ identifier)%string
  \/ GoStr.before_last_colon k = Some ("quota:" ++ identifier)%string.
Proof.
  intros [[->| ->]|(period & now & ->)].
  - left. unfold GetRateLimitKey. rewrite append_colon. apply before_last_colon_app. reflexivity.
  - left. unfold GetRateLimitKey. rewrite append_colon. apply before_last_colon_app. reflexivity.
  - right. unfold GetQuotaKey.
    apply (before_last_colon_app ("quota:" ++ identifier) (periodLabel period now)).
    apply periodLabel_no_colon.
Qed.

Lemma append_inj_l (p a b : string) : (p ++ a)%string = (p ++ b)%string -> a = b.
Proof. induction p as [|c p IH]; simpl; [auto|]. intros [= H]. auto. Qed.

(** No key belongs to two identifiers. *)
Lemma identifier_key_inj (id1 id2 k : string) :
  identifier_key id1 k -> identifier_key id2 k -> id1 = id2.
Proof.
  intros H1 H2.
  destruct (identifier_key_owner id1 k H1) as [E1|E1];
    destruct (identifier_key_owner id2 k H2) as [E2|E2];
    rewrite E1 in E2; injection E2 as E2;
    solve [exact (append_inj_l _ _ _ E2) | discriminate E2].
Qed.

(** X12.  Serving a request changes the store only under the keys of the identifiers
    that the rules of the plugin extract from that request: the two bucket keys of
    such an identifier and its quota counters (the keys [quota:identifier:label] for
    the labels of the quota periods).  Every other key is left as it was; and since a
    key names its identifier, every key of an identifier that no rule extracts from
    the request (its bucket and its counters) is left as it was, whatever the store
    and the clock do and in whatever order the rules are visited. *)
Theorem ServeHTTP_footprint (order : list string) (q : quotaPlugin) (req : Request)
    (w : World) :
  let w' := snd (ServeHTTP order q req w) in
  (forall k, ~ request_key q req k -> db w' !! k = db w !! k)
  /\ (forall identifier k,
        (forall key m,
           managers q !! key = Some m -> extractIdentifier req (config m) <> identifier) ->
        identifier_key identifier k ->
        db w' !! k = db w !! k).
Proof.
  intros w'.
  assert (HF : keeps (request_key q req) w w').
  { subst w'. unfold ServeHTTP. rewrite bind_eq.
    apply keeps_trans with (b := snd (findMatch q req order w));
      [apply frames_keeps_findMatch|].
    destruct (findMatch q req order w) as [[[response manager]|] w1] eqn:Hf; cbn [fst snd].
    - destruct (findMatch_Some _ _ _ _ _ _ _ Hf) as (key & resp0 & _ & Hm & Hne & Hc & ->).
      pose proof (checkIdentifier_result manager (extractIdentifier req (config manager)) w) as R.
      rewrite Hc in R. destruct R as (_ & Hid & _).
      assert (H1 : forall r, frames (keeps (request_key q req)) (writeQuotaHeaders r))
        by (intros; eapply frames_keeps_header, frames_writeQuotaHeaders).
      assert (H2 : forall a b, frames (keeps (request_key q req)) (Header_Set a b))
        by (intros; eapply frames_keeps_header, frames_Header_Set).
      assert (H3 : forall c, frames (keeps (request_key q req)) (WriteHeader c)).
      { intros c w0. apply keeps_same. unfold WriteHeader.
        destruct (status w0); [|destruct (validStatus c)]; reflexivity. }
      assert (H4 : forall c, frames (keeps (request_key q req)) (Write c))
        by (intros c w0; apply keeps_same; reflexivity).
      assert (H5 : frames (keeps (request_key q req)) next_ServeHTTP)
        by (intros w0; apply keeps_same; reflexivity).
      assert (H6 : forall c a, frames (keeps (request_key q req))
                                 (ConsumeQuota c (Identifier (withIdentifierType resp0 key)) a)).
      { intros c a w0. cbn [Identifier withIdentifierType]. rewrite Hid.
        eapply keeps_weaken; [|apply frames_keeps_ConsumeQuota].
        intros k0 Hk0. exists key, manager. auto. }
      match goal with |- keeps _ w1 (snd (?m w1)) =>
        assert (F : frames (keeps (request_key q req)) m) end.
      { frame_auto. }
      apply F.
    - apply keeps_same. unfold bind, Header_Set, WriteHeader. cbn [fst snd status].
      destruct (status w1); reflexivity. }
  split; [exact HF|].
  intros identifier k Hno Hk. apply HF.
  intros (key & m & Hm & _ & Hi).
  exact (Hno key m Hm (identifier_key_inj _ _ _ Hi Hk)).
Qed.

End Footprint.

(** ** Buckets in the store *)

Section BucketStore.
Context {rt : GoRuntime}.

Lemma bucket_keys_differ (key : string) :
  (key ++ ":tokens")%string <> (key ++ ":last_refill")%string.
Proof. intros H. apply append_inj_l in H. discriminate. Qed.

Lemma getBucket_stored (config : RateLimitConfig.t) (key : string) (period : Z)
    (tokens : float) (last : Z) (eT eL : Redis.Entry) (w : World) :
  ParseRateLimitPeriod config = Some period ->
  faults w (cmds w) = Redis.Healthy -> faults w (S (cmds w)) = Redis.Healthy ->
  db w !! (key ++ ":tokens")%string = Some eT -> ParseFloat (Redis.value eT) = Some tokens ->
  db w !! (key ++ ":last_refill")%string = Some eL ->
  GoStr.ParseInt (Redis.value eL) = Some last ->
  getBucket config key w
  = (mkBucket tokens last (RateLimitConfig.Rate config) (RateLimitConfig.Burst config) period,
     None,
     stored (db w) (counted (logged (EvCmd (Redis.GET (key ++ ":last_refill")))
       (stored (db w) (counted (logged (EvCmd (Redis.GET (key ++ ":tokens"))) w)))))).
Proof.
  intros Hp H0 H1 HT HpT HL HpL. unfold getBucket.
  rewrite bind_eq, Get_eq, H0, HT. cbn [fst snd]. rewrite HpT.
  rewrite bind_eq, Get_eq. cbn [fst snd faults cmds db stored counted logged].
  rewrite H1, HL. cbn [fst snd]. rewrite HpL, Hp. reflexivity.
Qed.

Lemma saveBucket_eq (key : string) (b : TokenBucket) (w : World) :
  faults w (cmds w) = Redis.Healthy -> faults w (S (cmds w)) = Redis.Healthy ->
  let expiration := GoStr.wrap64 (RefillPeriod b * 2) in
  expiryAccepted expiration = true ->
  saveBucket key b w
  = (None,
     stored (<[(key ++ ":last_refill")%string
                 := savedEntry (GoStr.FormatInt (LastRefill b)) expiration]>
               (<[(key ++ ":tokens")%string
                    := savedEntry (FormatFloat (Tokens b)) expiration]> (db w)))
       (counted (logged (EvCmd (setCommand (key ++ ":last_refill")
                                  (GoStr.FormatInt (LastRefill b)) expiration))
          (stored (<[(key ++ ":tokens")%string
                       := savedEntry (FormatFloat (Tokens b)) expiration]> (db w))
             (counted (logged (EvCmd (setCommand (key ++ ":tokens")
                                        (FormatFloat (Tokens b)) expiration)) w)))))).
Proof.
  intros F0 F1 expiration Hx. unfold saveBucket. fold expiration.
  rewrite bind_eq, (Set__healthy _ _ _ w F0 Hx). cbn [fst snd].
  rewrite bind_eq.
  match goal with |- context [Set_ ?k ?v ?e ?ww] => rewrite (Set__healthy k v e ww F1 Hx) end.
  reflexivity.
Qed.

Lemma saved_read_back (config : RateLimitConfig.t) (key : string) (b : TokenBucket)
    (period : Z) (w : World) :
  ParseRateLimitPeriod config = Some period ->
  healthy w 4 ->
  ParseFloat (FormatFloat (Tokens b)) = Some (Tokens b) ->
  GoStr.in_int64 (LastRefill b) = true ->
  expiryAccepted (GoStr.wrap64 (RefillPeriod b * 2)) = true ->
  let w1 := snd (saveBucket key b w) in
  let w2 := snd (getBucket config key w1) in
  fst (saveBucket key b w) = None
  /\ fst (getBucket config key w1)
     = (mkBucket (Tokens b) (LastRefill b) (RateLimitConfig.Rate config)
          (RateLimitConfig.Burst config) period, None)
  /\ ticks w2 = ticks w /\ db w2 = db w1 /\ clock w2 = clock w /\ faults w2 = faults w
  /\ cmds w2 = (4 + cmds w)%nat.
Proof.
  intros Hp Hh HF HI Hx w1 w2.
  assert (F0 : faults w (cmds w) = Redis.Healthy) by (apply (healthy_at w 4 0); [exact Hh|lia]).
  assert (F1 : faults w (S (cmds w)) = Redis.Healthy) by (apply (healthy_at w 4 1); [exact Hh|lia]).
  assert (F2 : faults w (S (S (cmds w))) = Redis.Healthy)
    by (apply (healthy_at w 4 2); [exact Hh|lia]).
  assert (F3 : faults w (S (S (S (cmds w)))) = Redis.Healthy)
    by (apply (healthy_at w 4 3); [exact Hh|lia]).
  pose proof (saveBucket_eq key b w F0 F1 Hx) as E. cbv zeta in E.
  assert (E1 : w1 = snd (saveBucket key b w)) by reflexivity.
  rewrite E in E1 |- *. cbn [fst snd] in E1 |- *.
  split; [reflexivity|].
  assert (G : getBucket config key w1
              = (mkBucket (Tokens b) (LastRefill b) (RateLimitConfig.Rate config)
                   (RateLimitConfig.Burst config) period, None,
                 stored (db w1) (counted (logged (EvCmd (Redis.GET (key ++ ":last_refill")))
                   (stored (db w1) (counted (logged (EvCmd (Redis.GET (key ++ ":tokens"))) w1))))))).
  { apply getBucket_stored
      with (eT := savedEntry (FormatFloat (Tokens b)) (GoStr.wrap64 (RefillPeriod b * 2)))
           (eL := savedEntry (GoStr.FormatInt (LastRefill b)) (GoStr.wrap64 (RefillPeriod b * 2))).
    - exact Hp.
    - rewrite E1. exact F2.
    - rewrite E1. exact F3.
    - rewrite E1. cbn [db stored]. rewrite lookup_insert_ne by (apply not_eq_sym, bucket_keys_differ).
      apply lookup_insert_eq.
    - exact HF.
    - rewrite E1. cbn [db stored]. apply lookup_insert_eq.
    - apply ParseInt_FormatInt, HI. }
  assert (E2 : w2 = snd (getBucket config key w1)) by reflexivity.
  rewrite G in E2 |- *. cbn [fst snd] in E2 |- *.
  split; [reflexivity|]. clearbody w1 w2. subst w2 w1.
  cbn [ticks db clock faults cmds stored counted logged]. repeat split; reflexivity.
Qed.

(** X13.  A bucket that [saveBucket] wrote is read back by [getBucket] when the store
    answers and accepts the expiry of the bucket (twice its refill period: none, or at
    least one whole second): the tokens and the instant of the last refill are the
    saved ones, provided the printed form of the token count parses back to it.  The
    rate, the burst and the refill period are not stored: they are those of the
    configuration [getBucket] runs with.  No new bucket is created, so the clock is not
    read.  When the store refuses the expiry (a positive one that truncates to 0
    seconds), [saveBucket] returns the error of the first write and stores nothing. *)
Theorem saveBucket_getBucket (config : RateLimitConfig.t) (key : string) (b : TokenBucket)
    (period : Z) (w : World) :
  ParseRateLimitPeriod config = Some period ->
  healthy w 4 ->
  ParseFloat (FormatFloat (Tokens b)) = Some (Tokens b) ->
  GoStr.in_int64 (LastRefill b) = true ->
  let w1 := snd (saveBucket key b w) in
  let expiration := GoStr.wrap64 (RefillPeriod b * 2) in
  (expiryAccepted expiration = true ->
   fst (saveBucket key b w) = None
   /\ fst (getBucket config key w1)
      = (mkBucket (Tokens b) (LastRefill b) (RateLimitConfig.Rate config)
           (RateLimitConfig.Burst config) period, None)
   /\ ticks (snd (getBucket config key w1)) = ticks w
   /\ db (snd (getBucket config key w1)) = db w1)
  /\ (expiryAccepted expiration = false ->
      fst (saveBucket key b w) = Some ("failed to save tokens: " ++ expiryRefused)%string
      /\ db w1 = db w).
Proof.
  intros Hp Hh HF HI w1 expiration. split; intros Hx.
  - destruct (saved_read_back config key b period w Hp Hh HF HI Hx) as (H1 & H2 & H3 & H4 & _).
    auto.
  - subst w1.
    rewrite (saveBucket_refused key b w (healthy_at w 4 0 Hh ltac:(lia)) Hx).
    split; reflexivity.
Qed.

(** X14.  [Reset] gives the identifier a full bucket again.  With a valid
    configuration (rate, burst and period positive), the store answering and accepting
    the expiry of the bucket (twice the period, at least one whole second) and a clock
    that does not run backwards, after [Reset] the call [GetCurrentTokens] reports
    the burst and [Allow] lets the next request pass, whatever the bucket held
    before.  When the store refuses the expiry, [Reset] returns the error of the save
    and the bucket stays as it was. *)
Theorem Reset_refills (config : RateLimitConfig.t) (identifier : string) (period : Z)
    (w : World) :
  ParseRateLimitPeriod config = Some period ->
  0 < period < 2 ^ 63 ->
  0 < RateLimitConfig.Rate config < 2 ^ 63 ->
  0 < RateLimitConfig.Burst config < 2 ^ 63 ->
  healthy w 6 ->
  ParseFloat (FormatFloat (F64.float64_of_int (RateLimitConfig.Burst config)))
  = Some (F64.float64_of_int (RateLimitConfig.Burst config)) ->
  GoStr.in_int64 (clock w (ticks w)) = true ->
  clock w (ticks w) <= clock w (S (ticks w)) ->
  let w1 := snd (Reset config identifier w) in
  (expiryAccepted (GoStr.wrap64 (period * 2)) = true ->
   fst (Reset config identifier w) = None
   /\ fst (GetCurrentTokens config identifier w1)
      = (F64.float64_of_int (RateLimitConfig.Burst config), None)
   /\ fst (Allow config identifier w1) = (true, None))
  /\ (expiryAccepted (GoStr.wrap64 (period * 2)) = false ->
      fst (Reset config identifier w) = Some ("failed to save tokens: " ++ expiryRefused)%string
      /\ db w1 = db w).
Proof.
  intros Hp Hper Hrate Hburst Hh HF HI Hclock w1.
  set (key := GetRateLimitKey identifier).
  set (full := mkBucket (F64.float64_of_int (RateLimitConfig.Burst config)) (clock w (ticks w))
                 (RateLimitConfig.Rate config) (RateLimitConfig.Burst config) period).
  assert (ER : Reset config identifier w = saveBucket key full (ticked w)).
  { unfold Reset. rewrite Hp, bind_eq. reflexivity. }
  assert (Hh4 : healthy (ticked w) 4).
  { intros i Hi. apply Hh. lia. }
  split; intros Hx;
    [|subst w1; rewrite ER;
      rewrite (saveBucket_refused key full (ticked w) (healthy_at _ 4 0 Hh4 ltac:(lia)) Hx);
      split; reflexivity].
  destruct (saved_read_back config key full period (ticked w) Hp Hh4 HF HI Hx)
    as (S1 & G1 & T2 & D2 & C2 & F2 & N2).
  assert (Ew1 : w1 = snd (saveBucket key full (ticked w))) by (unfold w1; rewrite ER; reflexivity).
  rewrite <- Ew1 in G1, T2, D2, C2, F2, N2.
  cbn [ticks clock faults cmds ticked] in T2, C2, F2, N2.
  change (mkBucket (Tokens full) (LastRefill full) (RateLimitConfig.Rate config)
            (RateLimitConfig.Burst config) period) with full in G1.
  set (got := getBucket config key w1) in *.
  assert (Hfull : Tokens (refillBucket full (clock w (S (ticks w))))
                  = F64.float64_of_int (RateLimitConfig.Burst config)).
  { apply (refill_full full (clock w (S (ticks w)))); try assumption. reflexivity. }
  split; [rewrite ER; exact S1|]. split.
  - unfold GetCurrentTokens. fold key. rewrite bind_eq. fold got.
    destruct got as [[bucket err] w2]. cbn [fst snd] in G1, T2, C2 |- *.
    injection G1 as -> ->.
    rewrite bind_eq. unfold Now. cbn [fst snd ret]. rewrite C2, T2, Hfull. reflexivity.
  - unfold Allow.
    pose proof (allowTokens_eq config identifier 1%float w1) as EA. cbv zeta in EA.
    fold key in EA. fold got in EA.
    destruct got as [[bucket err] w2]. cbn [fst snd] in G1, T2, C2, F2, N2, EA |- *.
    injection G1 as -> ->.
    specialize (EA eq_refl). rewrite C2, T2 in EA. rewrite EA, Hfull.
    rewrite (one_le_burst _ Hburst).
    assert (H0 : faults (ticked w2) (cmds (ticked w2)) = Redis.Healthy).
    { cbn [faults cmds ticked]. rewrite F2, N2.
      replace (4 + cmds w)%nat with (cmds w + 4)%nat by lia. apply Hh. lia. }
    assert (H1 : faults (ticked w2) (S (cmds (ticked w2))) = Redis.Healthy).
    { cbn [faults cmds ticked]. rewrite F2, N2.
      replace (S (4 + cmds w))%nat with (cmds w + 5)%nat by lia. apply Hh. lia. }
    destruct (saveBucket_healthy key
                (consume (refillBucket full (clock w (S (ticks w)))) 1) (ticked w2) H0 H1 Hx)
      as [Hs _].
    cbn [fst]. rewrite Hs. reflexivity.
Qed.

End BucketStore.

(** ** The expiry of a bucket *)

Lemma float64_of_int_exact (z : Z) :
  0 < z < 2 ^ 53 ->
  exists m e, Prim2SF (F64.float64_of_int z) = S754_finite false m e
              /\ e <= 0 /\ Zpos m = z * 2 ^ (- e).
Proof.
  intros Hz. unfold F64.float64_of_int.
  destruct (Z.eqb_spec z GoStr.minInt64) as [E|_]; [unfold GoStr.minInt64 in E; lia|].
  destruct (Z.ltb_spec z 0) as [|_]; [lia|].
  rewrite of_uint63_spec, of_Z_spec.
  change wB with (2 ^ 63). rewrite Z.mod_small by lia.
  destruct z as [|p|p]; try lia. simpl binary_normalize.
  assert (Hd : Zdigits2 (Zpos p) <= 53) by (apply digits_lt_pow; lia).
  pose proof (digits_pos (Zpos p) eq_refl) as Hd1.
  pose proof (digits_bounds (Zpos p) eq_refl) as [_ Hhi].
  destruct (binary_round_shape false p 0) as (m' & E & Hm' & Hex & _).
  cbv zeta in E, Hex. rewrite fexp_eq in E, Hex.
  replace (Z.max (Zdigits2 (Zpos p) + 0 - 53) (-1074)) with (Zdigits2 (Zpos p) - 53) in E, Hex
    by lia.
  set (f := Zdigits2 (Zpos p) - 53) in *.
  specialize (Hex ltac:(lia)).
  assert (Hlt : m' < 2 ^ 53).
  { rewrite Hex. replace (2 ^ 53) with (2 ^ Zdigits2 (Zpos p) * 2 ^ (0 - f)).
    - apply Z.mul_lt_mono_pos_r; [apply pow2_pos; lia|exact Hhi].
    - rewrite <- Z.pow_add_r by lia. f_equal. unfold f. lia. }
  assert (Hpos : 0 < m').
  { rewrite Hex. apply Z.mul_pos_pos; [lia|apply pow2_pos; lia]. }
  destruct (pack_cases false m' f Hm') as [[H0 _]|[[H0 _]|[_ Hp]]]; try lia.
  rewrite E, Hp. destruct (Z.leb_spec f 971) as [_|]; [|lia].
  exists (Z.to_pos m'), f. split; [reflexivity|]. split; [lia|].
  rewrite Z2Pos.id by lia. rewrite Hex. f_equal.
Qed.

Lemma int_of_float64_of_int (z : Z) :
  0 < z < 2 ^ 53 -> F64.int_of_float64 (F64.float64_of_int z) = z.
Proof.
  intros Hz. destruct (float64_of_int_exact z Hz) as (m & e & E & He & Hm).
  unfold F64.int_of_float64. rewrite E. rewrite Hm.
  assert (Hr : GoStr.in_int64 z = true).
  { unfold GoStr.in_int64, GoStr.minInt64, GoStr.maxInt64.
    apply andb_true_intro. split; apply Z.leb_le; lia. }
  destruct (Z.leb_spec 0 e) as [H0|H0].
  - replace e with 0 by lia. change (- 0) with 0. rewrite !Z.pow_0_r, !Z.mul_1_r, Hr. reflexivity.
  - rewrite Z.div_mul by (apply Z.pow_nonzero; lia). rewrite Hr. reflexivity.
Qed.

Lemma Seconds_whole (k : Z) :
  0 < k < 2 ^ 53 -> F64.int_of_float64 (GoTime.Seconds (k * GoTime.Second)) = k.
Proof.
  intros Hk. unfold GoTime.Seconds.
  rewrite Z.quot_mul, Z.rem_mul by (unfold GoTime.Second; lia).
  change (F64.float64_of_int 0 / 1e9)%float with 0%float.
  rewrite add_zero_r by (apply float64_of_int_not_negzero; lia).
  apply int_of_float64_of_int, Hk.
Qed.

(** ** Requests for more tokens than the burst *)

Lemma float64_of_int_canonical (z : Z) :
  0 < z < 2 ^ 53 ->
  exists m e, Prim2SF (F64.float64_of_int z) = S754_finite false m e
              /\ -52 <= e <= 0 /\ Zpos m = z * 2 ^ (- e) /\ 2 ^ 52 <= Zpos m < 2 ^ 53.
Proof.
  intros Hz. destruct (float64_of_int_exact z Hz) as (m & e & E & He & Hm).
  exists m, e. split; [exact E|].
  destruct (Prim2SF_finite_valid _ _ _ _ E) as (Hr & Hd & Hn).
  pose proof (digits_bounds (Zpos m) eq_refl) as [Hlo Hhi].
  assert (He52 : -52 <= e).
  { destruct (Z_lt_le_dec e (-52)) as [Hlt|]; [exfalso|assumption].
    assert (2 ^ 53 <= 2 ^ (- e)) by (apply Z.pow_le_mono_r; lia).
    assert (Zpos m < 2 ^ 53).
    { eapply Z.lt_le_trans; [exact Hhi|]. apply Z.pow_le_mono_r; lia. }
    nia. }
  split; [lia|]. split; [exact Hm|].
  rewrite Hn in Hlo, Hhi by lia. split; [exact Hlo|exact Hhi].
Qed.

Lemma float64_of_int_lt (a b : Z) :
  0 < a -> a < b -> b < 2 ^ 53 ->
  exists ma ea mb eb,
    Prim2SF (F64.float64_of_int a) = S754_finite false ma ea
    /\ Prim2SF (F64.float64_of_int b) = S754_finite false mb eb
    /\ (ea < eb \/ (ea = eb /\ Zpos ma < Zpos mb)).
Proof.
  intros Ha Hab Hb.
  destruct (float64_of_int_canonical a ltac:(lia)) as (ma & ea & Ea & Hea & Hma & Hra).
  destruct (float64_of_int_canonical b ltac:(lia)) as (mb & eb & Eb & Heb & Hmb & Hrb).
  exists ma, ea, mb, eb. split; [exact Ea|]. split; [exact Eb|].
  destruct (Z.lt_trichotomy ea eb) as [Hlt|[Heq|Hgt]]; [left; exact Hlt|right|exfalso].
  - split; [exact Heq|]. rewrite Hma, Hmb, Heq.
    apply Z.mul_lt_mono_pos_r; [apply pow2_pos; lia|exact Hab].
  - assert (Hp : 2 ^ (- eb) = 2 ^ (- ea) * 2 ^ (ea - eb)).
    { rewrite <- Z.pow_add_r by lia. f_equal. lia. }
    assert (H2 : 2 ^ 1 <= 2 ^ (ea - eb)) by (apply Z.pow_le_mono_r; lia).
    assert (Hpa : 0 < 2 ^ (- ea)) by (apply pow2_pos; lia).
    change (2 ^ 1) with 2 in H2.
    assert (Zpos ma < b * 2 ^ (- ea)) by (rewrite Hma; apply Z.mul_lt_mono_pos_r; lia).
    assert (b * 2 ^ (- ea) * 2 <= Zpos mb) by (rewrite Hmb, Hp; nia).
    lia.
Qed.

Lemma SFleb_finite_gt (m1 : positive) (e1 : Z) (m2 : positive) (e2 : Z) :
  e2 < e1 \/ (e2 = e1 /\ Zpos m2 < Zpos m1) ->
  SFleb (S754_finite false m1 e1) (S754_finite false m2 e2) = false.
Proof.
  intros H. unfold SFleb. rewrite SFcompare_finite.
  destruct (Z.compare_spec e1 e2); [destruct (Z.compare_spec (Zpos m1) (Zpos m2))| |];
    try reflexivity; lia.
Qed.

Lemma SFleb_below (x : spec_float) (my : positive) (ey : Z) (mn : positive) (en : Z) :
  SFltb x (S754_finite false my ey) = true ->
  ey < en \/ (ey = en /\ Zpos my < Zpos mn) ->
  SFleb (S754_finite false mn en) x = false.
Proof.
  intros Hx Hlt. destruct x as [s|[]| |[] mx ex]; try reflexivity; try discriminate Hx.
  apply SFleb_finite_gt.
  unfold SFltb in Hx. rewrite SFcompare_finite in Hx.
  destruct (Z.compare_spec ex ey); [destruct (Z.compare_spec (Zpos mx) (Zpos my))| |];
    try discriminate Hx; lia.
Qed.

Lemma leb_Min_beyond (x y n : float) (my : positive) (ey : Z) (mn : positive) (en : Z) :
  Prim2SF y = S754_finite false my ey ->
  Prim2SF n = S754_finite false mn en ->
  ey < en \/ (ey = en /\ Zpos my < Zpos mn) ->
  (n <=? F64.Min x y)%float = false.
Proof.
  intros Ey En Hlt.
  assert (Hy : (n <=? y)%float = false).
  { rewrite FloatAxioms.leb_spec, Ey, En. apply SFleb_finite_gt. lia. }
  unfold F64.Min.
  destruct (F64.IsInf x (-1) || F64.IsInf y (-1)).
  { rewrite FloatAxioms.leb_spec, En. reflexivity. }
  destruct (F64.IsNaN x || F64.IsNaN y).
  { rewrite FloatAxioms.leb_spec, En. reflexivity. }
  destruct ((x =? 0) && (x =? y))%float eqn:Ez.
  { apply andb_prop in Ez as [Ez _]. rewrite FloatAxioms.eqb_spec in Ez.
    change (Prim2SF 0) with (S754_zero false) in Ez.
    destruct (F64.Signbit x); [|exact Hy].
    rewrite FloatAxioms.leb_spec, En.
    destruct (Prim2SF x) as [s|[]| |[] mx ex]; cbn in Ez; try discriminate Ez; reflexivity. }
  destruct (x <? y)%float eqn:Hx; [|exact Hy].
  rewrite FloatAxioms.ltb_spec, Ey in Hx.
  rewrite FloatAxioms.leb_spec, En. eapply SFleb_below; eassumption.
Qed.

Section BeyondBurst.
Context {rt : GoRuntime}.

Lemma createNewBucket_burst (config : RateLimitConfig.t) (w : World) :
  snd (fst (createNewBucket config w)) = None ->
  Burst (fst (fst (createNewBucket config w))) = RateLimitConfig.Burst config.
Proof.
  unfold createNewBucket. destruct (ParseRateLimitPeriod config); [|discriminate].
  intros _. reflexivity.
Qed.

Lemma getBucket_burst (config : RateLimitConfig.t) (key : string) (w : World) :
  snd (fst (getBucket config key w)) = None ->
  Burst (fst (fst (getBucket config key w))) = RateLimitConfig.Burst config.
Proof.
  unfold getBucket. rewrite bind_eq.
  destruct (Get (key ++ ":tokens") w) as [[data [e|]] w1]; cbn [fst snd];
    [apply createNewBucket_burst|].
  destruct (ParseFloat data) as [tokens|]; [|apply createNewBucket_burst].
  rewrite bind_eq.
  destruct (Get (key ++ ":last_refill") w1) as [[data2 [e|]] w2]; cbn [fst snd];
    [apply createNewBucket_burst|].
  destruct (GoStr.ParseInt data2) as [last|]; [|apply createNewBucket_burst].
  destruct (ParseRateLimitPeriod config); [|discriminate].
  intros _. reflexivity.
Qed.

(** X21.  [AllowN] never grants more tokens than the burst, for requests below 2^53
    tokens, which [float64(n)] represents exactly.  For a request of [n] tokens with
    [burst < n < 2^53] it answers not allowed and writes nothing, whatever the store
    holds, whatever the clock says and whatever fails: the refill caps the bucket at
    the burst before the comparison.  (From 2^53 on the conversion rounds: the float64
    of 2^53 + 1 is that of 2^53, so a request for one token more than a burst of 2^53
    is compared as a request for the burst.) *)
Theorem AllowN_beyond_burst (config : RateLimitConfig.t) (identifier : string) (n : Z)
    (w : World) :
  0 < RateLimitConfig.Burst config ->
  RateLimitConfig.Burst config < n < 2 ^ 53 ->
  fst (fst (AllowN config identifier n w)) = false
  /\ db (snd (AllowN config identifier n w)) = db w.
Proof.
  intros Hb Hn. unfold AllowN.
  destruct (Z.leb_spec n 0) as [|_]; [lia|].
  unfold allowTokens. rewrite bind_eq.
  pose proof (frames_getBucket config (GetRateLimitKey identifier) w) as [_ Hd].
  pose proof (getBucket_burst config (GetRateLimitKey identifier) w) as HB.
  destruct (getBucket config (GetRateLimitKey identifier) w) as [[bucket [e|]] w1];
    cbn [fst snd] in Hd, HB |- *; [split; [reflexivity|exact Hd]|].
  specialize (HB eq_refl).
  rewrite bind_eq. unfold Now. cbn [fst snd].
  destruct (float64_of_int_lt (RateLimitConfig.Burst config) n Hb ltac:(lia) ltac:(lia))
    as (my & ey & mn & en & Ey & En & Hlt).
  assert (Hle : (F64.float64_of_int n
                 <=? Tokens (refillBucket bucket (clock w1 (ticks w1))))%float = false).
  { unfold refillBucket. cbn [Tokens]. rewrite HB.
    exact (leb_Min_beyond _ _ _ my ey mn en Ey En Hlt). }
  rewrite Hle. cbn [ret fst snd db ticked]. split; [reflexivity|exact Hd].
Qed.

End BeyondBurst.

Lemma billion_shape : Prim2SF 1e9 = S754_finite false 8388608000000000 (-23).
Proof. reflexivity. Qed.

Lemma div_billion_small (mx : positive) (ex : Z) (d : Z) :
  0 < d < 1000000000 -> -52 <= ex <= 0 -> Zpos mx = d * 2 ^ (- ex) ->
  2 ^ 52 <= Zpos mx < 2 ^ 53 ->
  exists m e,
    0 <= m < 2 ^ (- e) /\ e < 0 /\ m <= 2 ^ 53
    /\ SFdiv prec emax (S754_finite false mx ex) (S754_finite false 8388608000000000 (-23))
       = pack false m e.
Proof.
  intros Hd Hex Hmx Hrx. simpl SFdiv. unfold SFdiv_core_binary.
  assert (Edx : Zdigits2 (Zpos mx) = 53) by (apply digits_unique; [exact Hrx|lia]).
  change (Zpos (digits2_pos mx)) with (Zdigits2 (Zpos mx)). rewrite Edx.
  change (Zpos (digits2_pos 8388608000000000)) with 53.
  change (Zdigits2 8388608000000000) with 53.
  rewrite fexp_eq.
  replace (Z.min (Z.max (53 + ex - (53 + -23) - 53) (-1074)) (ex - -23)) with (ex - 30) by lia.
  replace (ex - -23 - (ex - 30)) with 53 by lia.
  rewrite Z.shiftl_mul_pow2 by lia.
  set (n := Zpos mx * 2 ^ 53).
  set (X := 2 ^ (30 - ex)).
  assert (HX : 2 ^ 30 <= X) by (apply Z.pow_le_mono_r; lia).
  assert (En : n * 1 = d * X * 2 ^ 23).
  { unfold n, X. rewrite Hmx. replace (30 - ex) with (- ex + 30) by lia.
    rewrite Z.pow_add_r by lia. change (2 ^ 53) with (2 ^ 30 * 2 ^ 23). ring. }
  destruct (Z.div_eucl n 8388608000000000) as [q r] eqn:Ediv.
  assert (Eq : q = n / 8388608000000000) by (unfold Z.div; rewrite Ediv; reflexivity).
  assert (Hn0 : 0 < n) by (unfold n; lia).
  assert (Hq0 : 0 <= q) by (rewrite Eq; apply Z.div_pos; lia).
  assert (Hq1 : q * 8388608000000000 <= n).
  { rewrite Eq. rewrite Z.mul_comm. apply Z.mul_div_le. lia. }
  assert (Hq2 : q * 1000000000 <= d * X).
  { change 8388608000000000 with (1000000000 * 2 ^ 23) in Hq1.
    change (2 ^ 23) with 8388608 in *. nia. }
  assert (Hqlo : 2 ^ 52 <= q).
  { rewrite Eq. apply Z.div_le_lower_bound; [lia|]. unfold n.
    change (2 ^ 53) with 9007199254740992. change (2 ^ 52) with 4503599627370496 in *. nia. }
  destruct (round_aux_shape false q (ex - 30) (new_location 8388608000000000 r))
    as (m' & Hm' & _ & Hlt & E); [change (2 ^ 52) with 4503599627370496 in Hqlo; lia|].
  assert (Hmx53 : n < 2 ^ 53 * 2 ^ 53).
  { unfold n. apply Z.mul_lt_mono_pos_r; [reflexivity|lia]. }
  change (2 ^ 53 * 2 ^ 53) with 81129638414606681695789005144064 in Hmx53.
  change (2 ^ 52) with 4503599627370496 in Hqlo.
  assert (Hqhi : q < 2 ^ 54) by (change (2 ^ 54) with 18014398509481984; lia).
  assert (HD : 53 <= Zdigits2 q <= 54).
  { split; [apply digits_ge_pow|apply digits_lt_pow]; lia. }
  assert (HdX : d * X <= 999999999 * X) by (apply Z.mul_le_mono_nonneg_r; lia).
  assert (HqX : q <= X - 4503599) by lia.
  rewrite fexp_eq in Hm', Hlt, E.
  set (D := Zdigits2 q) in *.
  destruct (Z.eq_dec D 53) as [E53|N53].
  - replace (Z.max (ex - 30) (Z.max (D + (ex - 30) - 53) (-1074))) with (ex - 30) in Hm', Hlt, E
      by lia.
    replace (ex - 30 - (ex - 30)) with 0 in Hm', Hlt by lia.
    rewrite Z.pow_0_r, Z.div_1_r in Hm', Hlt.
    exists m', (ex - 30). replace (- (ex - 30)) with (30 - ex) by lia. fold X.
    split; [lia|]. split; [lia|]. split; [lia|exact E].
  - replace (Z.max (ex - 30) (Z.max (D + (ex - 30) - 53) (-1074))) with (ex - 29) in Hm', Hlt, E
      by lia.
    replace (ex - 29 - (ex - 30)) with 1 in Hm', Hlt by lia.
    change (2 ^ 1) with 2 in Hm', Hlt.
    assert (EX : X = 2 * 2 ^ (29 - ex)).
    { unfold X. replace (30 - ex) with (1 + (29 - ex)) by lia.
      rewrite Z.pow_add_r by lia. reflexivity. }
    exists m', (ex - 29). replace (- (ex - 29)) with (29 - ex) by lia.
    assert (Hq2' : q / 2 <= 2 ^ (29 - ex) - 2).
    { apply Z.div_le_upper_bound; lia. }
    split; [split; [|lia]|].
    + assert (0 <= q / 2) by (apply Z.div_pos; lia). lia.
    + split; [lia|]. split; [lia|exact E].
Qed.


Lemma int_of_pack_small (x : float) (m e : Z) :
  0 <= m < 2 ^ (- e) -> e < 0 -> m <= 2 ^ 53 ->
  Prim2SF x = pack false m e -> F64.int_of_float64 x = 0.
Proof.
  intros Hm He Hm53 E. unfold F64.int_of_float64. rewrite E.
  destruct (pack_cases false m e ltac:(lia)) as [[_ ->]|[[E53 ->]|[Hr ->]]].
  - reflexivity.
  - assert (Hlt : 53 < - e).
    { destruct (Z_lt_le_dec 53 (- e)) as [|Hle]; [assumption|exfalso].
      assert (2 ^ (- e) <= 2 ^ 53) by (apply Z.pow_le_mono_r; lia). lia. }
    destruct (Z.leb_spec (e + 1) 971) as [_|]; [|lia].
    destruct (Z.leb_spec 0 (e + 1)) as [|_]; [lia|].
    assert (Hs : Zpos (2 ^ 52) / 2 ^ (- (e + 1)) = 0).
    { apply Z.div_small. split; [lia|].
      apply Z.lt_le_trans with (2 ^ 53); [reflexivity|apply Z.pow_le_mono_r; lia]. }
    rewrite Hs. reflexivity.
  - destruct (Z.leb_spec e 971) as [_|]; [|lia].
    destruct (Z.leb_spec 0 e) as [|_]; [lia|].
    rewrite Z2Pos.id by lia. rewrite Z.div_small by lia. reflexivity.
Qed.

Lemma add_zero_l (x : float) : Prim2SF x <> S754_zero true -> (0 + x)%float = x.
Proof.
  intros H. apply Prim2SF_inj. rewrite FloatAxioms.add_spec.
  change (Prim2SF 0) with (S754_zero false).
  destruct (Prim2SF x) as [[]|[]| |[] m e]; try reflexivity. contradiction.
Qed.

Lemma Seconds_subsecond (d : Z) :
  0 < d < GoTime.Second -> F64.int_of_float64 (GoTime.Seconds d) = 0.
Proof.
  unfold GoTime.Seconds, GoTime.Second. intros Hd.
  rewrite Z.quot_small, Z.rem_small by lia.
  change (F64.float64_of_int 0) with 0%float.
  destruct (float64_of_int_canonical d ltac:(lia)) as (mx & ex & Ex & Hex & Hmx & Hrx).
  destruct (div_billion_small mx ex d Hd Hex Hmx Hrx) as (m & e & Hm & He & Hm53 & E).
  assert (Ep : Prim2SF (F64.float64_of_int d / 1e9) = pack false m e).
  { rewrite FloatAxioms.div_spec, Ex, billion_shape. exact E. }
  rewrite add_zero_l.
  - exact (int_of_pack_small _ m e Hm He Hm53 Ep).
  - rewrite Ep. intros Hz. pose proof (pack_signed false m e ltac:(lia)) as Hs.
    rewrite Hz in Hs. discriminate Hs.
Qed.

Section Expiry.
Context {rt : GoRuntime}.

(** X15.  What [saveBucket] tells the store about expiry.  For a refill period of
    [k] whole seconds it writes both keys of the bucket with SETEX and [2 * k]
    seconds, so an idle bucket outlives two refill periods.  For a refill period
    under half a second the seconds are truncated: it sends SETEX with 0 seconds for
    the tokens, which the store refuses; [saveBucket] returns that error, does not
    send the second write, and the store is as it was.  For a refill period that is
    zero or negative, which [Validate] accepts, it writes the keys with a plain SET:
    such a bucket never expires. *)
Theorem saveBucket_expiry (key : string) (b : TokenBucket) (k : Z) (w : World) :
  healthy w 2 ->
  let w' := snd (saveBucket key b w) in
  let tokens := (key ++ ":tokens")%string in
  let last := (key ++ ":last_refill")%string in
  (RefillPeriod b = k * GoTime.Second -> 0 < k <= 4000000000 ->
   fst (saveBucket key b w) = None
   /\ trace w' = trace w ++ [EvCmd (Redis.SETEX tokens (2 * k) (FormatFloat (Tokens b)));
                             EvCmd (Redis.SETEX last (2 * k) (GoStr.FormatInt (LastRefill b)))]
   /\ ttl_of (db w') tokens = Some (2 * k) /\ ttl_of (db w') last = Some (2 * k))
  /\ (0 < RefillPeriod b -> RefillPeriod b * 2 < GoTime.Second ->
      fst (saveBucket key b w) = Some ("failed to save tokens: " ++ expiryRefused)%string
      /\ trace w' = trace w ++ [EvCmd (Redis.SETEX tokens 0 (FormatFloat (Tokens b)))]
      /\ db w' = db w)
  /\ (- 2 ^ 62 <= RefillPeriod b <= 0 ->
      fst (saveBucket key b w) = None
      /\ trace w' = trace w ++ [EvCmd (Redis.SET tokens (FormatFloat (Tokens b)));
                                EvCmd (Redis.SET last (GoStr.FormatInt (LastRefill b)))]
      /\ ttl_of (db w') tokens = None /\ ttl_of (db w') last = None).
Proof.
  intros Hh w' tokens last.
  assert (F0 : faults w (cmds w) = Redis.Healthy) by (apply (healthy_at w 2 0); [exact Hh|lia]).
  assert (F1 : faults w (S (cmds w)) = Redis.Healthy) by (apply (healthy_at w 2 1); [exact Hh|lia]).
  assert (Hne : tokens <> last) by apply bucket_keys_differ.
  assert (Hacc : expiryAccepted (GoStr.wrap64 (RefillPeriod b * 2)) = true ->
                 fst (saveBucket key b w) = None
                 /\ trace w' = trace w
                      ++ [EvCmd (setCommand tokens (FormatFloat (Tokens b))
                                   (GoStr.wrap64 (RefillPeriod b * 2)));
                          EvCmd (setCommand last (GoStr.FormatInt (LastRefill b))
                                   (GoStr.wrap64 (RefillPeriod b * 2)))]
                 /\ ttl_of (db w') tokens
                    = Redis.ttl (savedEntry (FormatFloat (Tokens b))
                                   (GoStr.wrap64 (RefillPeriod b * 2)))
                 /\ ttl_of (db w') last
                    = Redis.ttl (savedEntry (GoStr.FormatInt (LastRefill b))
                                   (GoStr.wrap64 (RefillPeriod b * 2)))).
  { intros Hx. pose proof (saveBucket_eq key b w F0 F1 Hx) as E. cbv zeta in E.
    fold tokens last in E. unfold w'. rewrite E. cbn [fst snd trace db stored counted logged].
    split; [reflexivity|]. split; [rewrite <- app_assoc; reflexivity|].
    unfold ttl_of. split.
    - rewrite lookup_insert_ne by (apply not_eq_sym, Hne). rewrite lookup_insert_eq. reflexivity.
    - rewrite lookup_insert_eq. reflexivity. }
  split; [|split].
  - intros Hp Hk.
    assert (Ew : GoStr.wrap64 (RefillPeriod b * 2) = (2 * k) * GoTime.Second).
    { rewrite Hp. unfold GoStr.wrap64, GoTime.Second.
      replace (k * 1000000000 * 2 + 2 ^ 63) with (2 * k * 1000000000 + 2 ^ 63) by lia.
      rewrite Z.mod_small by lia. lia. }
    assert (Hpos : (0 <? 2 * k * GoTime.Second) = true)
      by (apply Z.ltb_lt; unfold GoTime.Second; lia).
    rewrite Ew in Hacc. unfold expiryAccepted, setCommand, savedEntry in Hacc.
    rewrite Hpos, Seconds_whole in Hacc by lia. cbn [negb orb Redis.ttl] in Hacc.
    apply Hacc, Z.ltb_lt. lia.
  - intros Hp Hlt. unfold GoTime.Second in Hlt.
    assert (Ew : GoStr.wrap64 (RefillPeriod b * 2) = RefillPeriod b * 2).
    { unfold GoStr.wrap64. rewrite Z.mod_small by lia. lia. }
    assert (Hpos : (0 <? RefillPeriod b * 2) = true) by (apply Z.ltb_lt; lia).
    assert (Hx : expiryAccepted (GoStr.wrap64 (RefillPeriod b * 2)) = false).
    { rewrite Ew. unfold expiryAccepted.
      rewrite Hpos, Seconds_subsecond by (unfold GoTime.Second; lia). reflexivity. }
    unfold w'. rewrite (saveBucket_refused key b w F0 Hx). cbn [fst snd trace db stored counted logged].
    split; [reflexivity|]. split; [|reflexivity].
    rewrite Ew. unfold setCommand.
    rewrite Hpos, Seconds_subsecond by (unfold GoTime.Second; lia). reflexivity.
  - intros Hp.
    assert (Ew : GoStr.wrap64 (RefillPeriod b * 2) = RefillPeriod b * 2).
    { unfold GoStr.wrap64. rewrite Z.mod_small by lia. lia. }
    assert (Hneg : (0 <? RefillPeriod b * 2) = false) by (apply Z.ltb_ge; lia).
    rewrite Ew in Hacc. unfold expiryAccepted, setCommand, savedEntry in Hacc.
    rewrite Hneg in Hacc. cbn [negb orb Redis.ttl] in Hacc. apply Hacc. reflexivity.
Qed.

End Expiry.

(** ** The identifier of an IP rule *)

(** X16.  The identifier of an IP rule is the address with everything from its last
    colon on removed.  The address is the value of X-Real-IP when the request has
    one, whatever its remote address and X-Forwarded-For say; otherwise the first
    entry of X-Forwarded-For, trimmed; otherwise the remote address.  So a remote
    address [host:port] yields [host], and an address that is given without a port
    but contains colons loses its last group. *)
Theorem IP_identifier (req : Request) (c : IdentifierConfig.t) (host port : string) :
  IdentifierConfig.Type_ c = "IP" ->
  GoStr.ContainsByte port ":" = false ->
  let real := Header_Get (Header req) "X-Real-IP" in
  let forwarded := Header_Get (Header req) "X-Forwarded-For" in
  let address := if negb (String.eqb real "") then real
                 else if negb (String.eqb forwarded "")
                      then GoStr.TrimSpace (GoStr.first_field forwarded)
                      else RemoteAddr req in
  (address = (host ++ ":" ++ port)%string -> extractIdentifier req c = host)
  /\ (address = port -> extractIdentifier req c = port).
Proof.
  intros Ht Hp real forwarded address.
  assert (E : extractIdentifier req c
              = match GoStr.before_last_colon address with
                | Some prefix => prefix
                | None => address
                end).
  { unfold extractIdentifier. rewrite Ht. cbn [String.eqb Ascii.eqb Bool.eqb].
    fold real forwarded. unfold address.
    destruct (negb (String.eqb real "")), (negb (String.eqb forwarded "")); reflexivity. }
  rewrite E. split; intros ->.
  - rewrite (before_last_colon_app host port Hp). reflexivity.
  - rewrite (before_last_colon_none port Hp). reflexivity.
Qed.

(** ** What a request costs *)

Section Accounting.
Context {rt : GoRuntime}.

Lemma quota_key_not_bucket (identifier label : string) :
  ~ any_bucket_key (GetQuotaKey identifier label).
Proof. intros (id & [E|E]); discriminate E. Qed.

Lemma frames_keeps_checkIdentifier_bucket (manager : IdentifierManager) (identifier : string) :
  frames (keeps (bucket_key identifier)) (checkIdentifier manager identifier).
Proof.
  unfold checkIdentifier, limiterGate, Allow.
  pose proof frames_keeps_allowTokens as H1.
  assert (H2 : forall c, frames (keeps (bucket_key identifier)) (GetLimitInfo c identifier))
    by (intros; eapply frames_keeps_quiet, frames_GetLimitInfo).
  assert (H3 : forall c, frames (keeps (bucket_key identifier)) (CheckQuota c identifier))
    by (intros; eapply frames_keeps_quiet, frames_CheckQuota).
  frame_auto.
Qed.

Lemma frames_keeps_findMatch_bucket (q : quotaPlugin) (req : Request) (keys : list string) :
  frames (keeps any_bucket_key) (findMatch q req keys).
Proof.
  assert (H : forall m id, frames (keeps any_bucket_key) (checkIdentifier m id)).
  { intros m id w. eapply keeps_weaken; [|apply frames_keeps_checkIdentifier_bucket].
    intros k Hk. exists id. exact Hk. }
  induction keys as [|key rest IH]; simpl; frame_auto.
Qed.

Lemma counter_accepts_same (d d' : gmap string Redis.Entry) (key : string) (amount : Z) :
  d' !! key = d !! key -> counter_accepts d key amount -> counter_accepts d' key amount.
Proof. unfold counter_accepts. intros ->. auto. Qed.

Lemma stored_usage_same (d d' : gmap string Redis.Entry) (key : string) :
  d' !! key = d !! key -> stored_usage d' key = stored_usage d key.
Proof. unfold stored_usage. intros ->. reflexivity. Qed.

Lemma passed_counter (order : list string) (q : quotaPlugin) (req : Request) (w : World)
    (resp : QuotaResponse) (m : IdentifierManager) (label : string) :
  fst (findMatch q req order w) = Some (resp, m) ->
  Allowed resp = true ->
  IsQuotaEnabled (quotaManager m) = true ->
  (forall n, faults w n = Redis.Healthy) ->
  (forall n, periodLabel (QuotaSettings.Period (quotaManager m)) (clock w n) = label) ->
  let key := GetQuotaKey (Identifier resp) label in
  counter_accepts (db w) key 1 ->
  let w2 := snd (writeQuotaHeaders resp (snd (findMatch q req order w))) in
  let w' := snd (ServeHTTP order q req w) in
  stored_usage (db w') key
  = (if counterKept (stored_usage (db w) key) (expirySeconds (quotaManager m) w2)
     then stored_usage (db w) key + 1 else 0)
  /\ (exists t, trace w' = t ++ [EvNext])
  /\ status w' = status w /\ body w' = body w.
Proof.
  intros Hf Ha Hq Hh Hw key Hc w2 w'.
  pose proof (frames_keeps_findMatch_bucket q req order w) as K1.
  pose proof (frames_findMatch q req order w) as ((F1 & C1 & _) & (_ & S1 & B1) & _).
  subst w' w2. unfold ServeHTTP. rewrite bind_eq.
  destruct (findMatch q req order w) as [found w1]. cbn [fst snd] in *. subst found.
  rewrite bind_eq, Ha. cbn [negb].
  pose proof (frames_writeQuotaHeaders resp w1) as ((F2 & C2 & _) & D2 & _ & _ & S2 & B2 & _).
  set (w2 := snd (writeQuotaHeaders resp w1)) in *.
  rewrite bind_eq, Hq, bind_eq. cbn [ret fst snd].
  unfold IsQuotaEnabled in Hq.
  assert (Hh2 : healthy w2 3) by (intros i _; rewrite F2, F1; apply Hh).
  assert (Hw2 : same_window (QuotaSettings.Period (quotaManager m)) w2 4)
    by (intros i _; rewrite C2, C1, !Hw; reflexivity).
  assert (Ek : GetQuotaKey (Identifier resp)
                 (periodLabel (QuotaSettings.Period (quotaManager m)) (clock w2 (ticks w2)))
               = key) by (rewrite C2, C1, Hw; reflexivity).
  assert (Dk : db w2 !! key = db w !! key).
  { rewrite D2. apply K1. apply quota_key_not_bucket. }
  assert (Hc2 : counter_accepts (db w2)
                  (GetQuotaKey (Identifier resp)
                     (periodLabel (QuotaSettings.Period (quotaManager m))
                        (clock w2 (ticks w2)))) 1)
    by (rewrite Ek; exact (counter_accepts_same _ _ _ _ Dk Hc)).
  destruct (ConsumeQuota_healthy (quotaManager m) (Identifier resp) 1 w2 Hq ltac:(lia)
              Hh2 Hw2 Hc2) as (info & w3 & E3 & _ & D3 & _).
  pose proof (frames_ConsumeQuota (quotaManager m) (Identifier resp) 1 w2)
    as (_ & (_ & S3 & B3) & _).
  rewrite E3 in S3, B3 |- *. cbn [fst snd] in S3, B3 |- *.
  rewrite Ek, first_iff, (stored_usage_same _ _ _ Dk) in D3.
  fold (counterKept (stored_usage (db w) key) (expirySeconds (quotaManager m) w2)) in D3.
  unfold next_ServeHTTP, emit. cbn [snd db trace status body logged].
  split; [|split; [exists (trace w3); reflexivity|split; congruence]].
  rewrite D3. destruct (counterKept _ _); [|apply stored_usage_delete].
  apply stored_usage_insert, counter_accepts_range, Hc.
Qed.


(** X18.  A request that is not passed on costs nothing: when no rule matched or the
    matched rule denied the request, every key of the store other than a bucket key,
    so every quota counter, holds what it held before, whatever the store and the
    clock do. *)
Theorem blocked_costs_nothing (order : list string) (q : quotaPlugin) (req : Request)
    (w : World) (k : string) :
  passes (fst (findMatch q req order w)) = false ->
  ~ any_bucket_key k ->
  db (snd (ServeHTTP order q req w)) !! k = db w !! k.
Proof.
  intros Hp Hk.
  pose proof (frames_keeps_findMatch_bucket q req order w k Hk) as K1.
  unfold ServeHTTP. rewrite bind_eq.
  destruct (findMatch q req order w) as [[[response manager]|] w1]; cbn [fst snd] in *.
  - cbn [passes] in Hp. rewrite Hp. cbn [negb]. rewrite bind_eq.
    pose proof (frames_writeQuotaHeaders response w1) as (_ & D2 & _).
    set (w2 := snd (writeQuotaHeaders response w1)) in *.
    rewrite <- K1, <- D2. fold (denialBody response).
    destruct (Contains _ "{" && Contains _ "}");
      match goal with |- context [Header_Set "Content-Type" ?ct] =>
        destruct (deny_tail ct (denyStatus response) (denialBody response) w2)
          as (_ & _ & _ & D & _)
      end; rewrite D; reflexivity.
  - rewrite <- K1.
    destruct (deny_tail "application/json" StatusForbidden errorResponse w1)
      as (_ & _ & _ & D & _).
    rewrite D. reflexivity.
Qed.

Lemma ParseInt_range (s : string) (z : Z) :
  GoStr.ParseInt s = Some z -> GoStr.in_int64 z = true.
Proof.
  unfold GoStr.ParseInt. destruct s as [|c rest]; [discriminate|].
  destruct (if Ascii.eqb c "-" then (true, rest)
            else if Ascii.eqb c "+" then (false, rest) else (false, String c rest))
    as [neg digits].
  destruct digits as [|d ds]; [discriminate|].
  destruct (NilEmpty.uint_of_string (String d ds)) as [u|]; [|discriminate].
  destruct (GoStr.in_int64 (if neg then - Z.of_uint u else Z.of_uint u)) eqn:E; [|discriminate].
  intros [= <-]. exact E.
Qed.

Lemma stored_usage_range (d : gmap string Redis.Entry) (key : string) :
  GoStr.in_int64 (stored_usage d key) = true.
Proof.
  unfold stored_usage. destruct (d !! key) as [e|]; [|reflexivity].
  destruct (GoStr.ParseInt (Redis.value e)) as [v|] eqn:E; [|reflexivity].
  exact (ParseInt_range _ _ E).
Qed.

Lemma checkIdentifier_quota (manager : IdentifierManager) (identifier : string) (w : World) :
  QuotaSettings.Enabled (quotaManager manager) = true ->
  let r := checkIdentifier manager identifier w in
  Reason (fst (fst r)) <> "Rate limit exceeded" ->
  exists wl,
    same_env w wl /\ keeps (bucket_key identifier) w wl
    /\ Quota (fst (fst r))
       = Some (fst (fst (GetQuotaInfo (quotaManager manager) identifier wl)))
    /\ Allowed (fst (fst r))
       = negb (QuotaSettings.Limit (quotaManager manager)
               <=? qi_Used (fst (fst (GetQuotaInfo (quotaManager manager) identifier wl)))).
Proof.
  intros He r. subst r. unfold checkIdentifier. rewrite bind_eq.
  match goal with |- context [fst (?m w)] =>
    assert (HL : frames (step is_cmd) m /\ frames (keeps (bucket_key identifier)) m)
  end.
  { unfold limiterGate, Allow. split.
    - assert (H1 : forall c n, frames (step is_cmd) (allowTokens c identifier n))
        by (intros; eapply frames_limiter_cmd, frames_allowTokens).
      assert (H2 : forall c, frames (step is_cmd) (GetLimitInfo c identifier)).
      { intros. eapply frames_limiter_cmd. eapply frames_weaken; [|apply frames_GetLimitInfo].
        intros a b H. apply quiet_step. eapply quiet_weaken; [apply limiter_get_ev|exact H]. }
      frame_auto.
    - pose proof frames_keeps_allowTokens as H1.
      assert (H2 : forall c, frames (keeps (bucket_key identifier)) (GetLimitInfo c identifier))
        by (intros; eapply frames_keeps_quiet, frames_GetLimitInfo).
      frame_auto. }
  destruct HL as [HL1 HL2]. specialize (HL1 w). specialize (HL2 w).
  match goal with |- context [fst (?m w)] => destruct (m w) as [[allowed rinfo] wl] end.
  cbn [fst snd] in HL1, HL2 |- *.
  destruct allowed; cbn [negb]; [|cbn; intros H; exfalso; apply H; reflexivity].
  intros _. exists wl. split; [apply HL1|]. split; [exact HL2|].
  rewrite bind_eq. unfold IsQuotaEnabled. rewrite He. rewrite bind_eq.
  unfold CheckQuota. rewrite He. cbn [negb]. rewrite bind_eq.
  destruct (GetQuotaInfo_enabled (quotaManager manager) identifier wl He) as (E1 & E2 & _).
  destruct (GetQuotaInfo (quotaManager manager) identifier wl) as [[info err] w1].
  cbn [fst snd] in E1, E2 |- *. subst err. rewrite E2.
  destruct (QuotaSettings.Limit (quotaManager manager) <=? qi_Used info); cbn; auto.
Qed.

Lemma canonical_quota_headers :
  GoStr.CanonicalMIMEHeaderKey "X-Quota-Limit" = "X-Quota-Limit"
  /\ GoStr.CanonicalMIMEHeaderKey "X-Quota-Used" = "X-Quota-Used"
  /\ GoStr.CanonicalMIMEHeaderKey "X-Quota-Remaining" = "X-Quota-Remaining"
  /\ GoStr.CanonicalMIMEHeaderKey "X-Quota-Reset" = "X-Quota-Reset"
  /\ GoStr.CanonicalMIMEHeaderKey "Content-Type" = "Content-Type".
Proof. repeat split; reflexivity. Qed.

Lemma quota_headers_written (response : QuotaResponse) (info : QuotaInfo) (w : World) :
  Quota response = Some info ->
  let h := header (snd (writeQuotaHeaders response w)) in
  h !! "X-Quota-Limit" = Some (GoStr.FormatInt (qi_Limit info))
  /\ h !! "X-Quota-Used" = Some (GoStr.FormatInt (qi_Used info))
  /\ h !! "X-Quota-Remaining" = Some (GoStr.FormatInt (qi_Remaining info)).
Proof.
  intros HQ h. subst h. unfold writeQuotaHeaders. rewrite bind_eq.
  match goal with |- context [snd (?m w)] => set (wr := snd (m w)) end.
  rewrite HQ. unfold bind, Header_Set. cbn [fst snd header].
  destruct canonical_quota_headers as (-> & -> & -> & -> & _).
  split; [|split].
  - rewrite !lookup_insert_ne by discriminate. apply lookup_insert_eq.
  - rewrite !lookup_insert_ne by discriminate. apply lookup_insert_eq.
  - rewrite lookup_insert_ne by discriminate. apply lookup_insert_eq.
Qed.

(** X19.  The quota headers of a response show the quota as it was before the
    request was counted.  When the matched rule has a quota and did not deny for the
    rate limit, the store answers, the clock stays in one quota window and the
    counter is not negative, the response carries X-Quota-Limit with the limit,
    X-Quota-Used with the usage the store held when the request arrived and
    X-Quota-Remaining with the difference, or 0 when the usage has reached the
    limit; the request is allowed exactly when that usage is below the limit.  For a
    request that passes, with a counter the store can increment, the counter in the
    store is then one above X-Quota-Used, unless this request created the counter with
    less than a second left until the reset: the store has then deleted it. *)
Theorem quota_headers (order : list string) (q : quotaPlugin) (req : Request) (w : World)
    (resp : QuotaResponse) (m : IdentifierManager) (label : string) :
  fst (findMatch q req order w) = Some (resp, m) ->
  QuotaSettings.Enabled (quotaManager m) = true ->
  Reason resp <> "Rate limit exceeded" ->
  (forall n, faults w n = Redis.Healthy) ->
  (forall n, periodLabel (QuotaSettings.Period (quotaManager m)) (clock w n) = label) ->
  let limit := QuotaSettings.Limit (quotaManager m) in
  let key := GetQuotaKey (Identifier resp) label in
  let used := stored_usage (db w) key in
  0 < limit <= GoStr.maxInt64 -> 0 <= used ->
  let w2 := snd (writeQuotaHeaders resp (snd (findMatch q req order w))) in
  let w' := snd (ServeHTTP order q req w) in
  header w' !! "X-Quota-Limit" = Some (GoStr.FormatInt limit)
  /\ header w' !! "X-Quota-Used" = Some (GoStr.FormatInt used)
  /\ header w' !! "X-Quota-Remaining" = Some (GoStr.FormatInt (Z.max (limit - used) 0))
  /\ Allowed resp = negb (limit <=? used)
  /\ (Allowed resp = true -> counter_accepts (db w) key 1 ->
      stored_usage (db w') key
      = (if counterKept used (expirySeconds (quotaManager m) w2) then used + 1 else 0)).
Proof.
  intros Hf He Hr Hh Hw limit key used Hlim Hused w2 w'.
  assert (Hcount : Allowed resp = true -> counter_accepts (db w) key 1 ->
            stored_usage (db w') key
            = (if counterKept used (expirySeconds (quotaManager m) w2) then used + 1 else 0)).
  { intros Ha Hc.
    exact (proj1 (passed_counter order q req w resp m label Hf Ha He Hh Hw Hc)). }
  cut (header w' !! "X-Quota-Limit" = Some (GoStr.FormatInt limit)
       /\ header w' !! "X-Quota-Used" = Some (GoStr.FormatInt used)
       /\ header w' !! "X-Quota-Remaining" = Some (GoStr.FormatInt (Z.max (limit - used) 0))
       /\ Allowed resp = negb (limit <=? used)).
  { intros (A & B & C & D). auto 10. }
  clear Hcount. clear w2. subst key.
  destruct (findMatch q req order w) as [found w1] eqn:Ef. cbn [fst] in Hf. subst found.
  destruct (findMatch_Some _ _ _ _ _ _ _ Ef) as (key0 & resp0 & _ & _ & _ & Hc & ->).
  set (id := extractIdentifier req (config m)) in *.
  pose proof (checkIdentifier_result m id w) as R.
  rewrite Hc in R. destruct R as (_ & Hid & _).
  cbn [Identifier Reason Allowed withIdentifierType] in used, Hr |- *.
  destruct (checkIdentifier_quota m id w He) as (wl & (F1 & C1 & _) & K1 & HQ & HA).
  { rewrite Hc. exact Hr. }
  rewrite Hc in HQ, HA. cbn [fst] in HQ, HA.
  assert (Ek : GetQuotaKey id (periodLabel (QuotaSettings.Period (quotaManager m))
                                 (clock wl (ticks wl)))
               = GetQuotaKey (Identifier resp0) label) by (rewrite C1, Hw, Hid; reflexivity).
  assert (Eu : usage_read wl (GetQuotaKey (Identifier resp0) label) = used).
  { rewrite usage_read_healthy by (rewrite F1; apply Hh).
    apply stored_usage_same. apply K1. rewrite Hid. intros [E|E]; discriminate E. }
  rewrite (GetQuotaInfo_eq (quotaManager m) id wl He) in HQ, HA. cbv zeta in HQ, HA.
  rewrite Ek, Eu in HQ, HA. cbn [fst qi_Used] in HQ, HA. fold limit in HQ, HA.
  pose proof (stored_usage_range (db w) (GetQuotaKey (Identifier resp0) label)) as Hrange.
  fold used in Hrange. unfold GoStr.in_int64, GoStr.minInt64, GoStr.maxInt64 in Hrange, Hlim.
  apply andb_prop in Hrange as [_ Hmax]. apply Z.leb_le in Hmax.
  assert (Ewrap : GoStr.wrap64 (limit - used) = limit - used).
  { unfold GoStr.wrap64. rewrite Z.mod_small by lia. lia. }
  rewrite Ewrap in HQ.
  assert (Erem : (if limit - used <? 0 then 0 else limit - used) = Z.max (limit - used) 0)
    by (destruct (Z.ltb_spec (limit - used) 0); lia).
  rewrite Erem in HQ.
  subst w'. unfold ServeHTTP. rewrite bind_eq, Ef. cbn [fst snd].
  rewrite bind_eq.
  destruct (quota_headers_written (withIdentifierType resp0 key0) _ w1 HQ) as (H1 & H2 & H3).
  cbn [qi_Limit qi_Used qi_Remaining] in H1, H2, H3.
  set (w2 := snd (writeQuotaHeaders (withIdentifierType resp0 key0) w1)) in *.
  cbn [Allowed withIdentifierType]. rewrite HA.
  match goal with |- context [header (snd (?rest w2))] =>
    assert (HH : forall k, k <> "Content-Type" ->
                   header (snd (rest w2)) !! k = header w2 !! k)
  end.
  { intros k Hk. destruct (limit <=? used); cbn [negb].
    - fold (denialBody (withIdentifierType resp0 key0)).
      destruct (Contains _ "{" && Contains _ "}");
        match goal with |- context [Header_Set "Content-Type" ?ct] =>
          destruct (deny_tail ct (denyStatus (withIdentifierType resp0 key0))
                      (denialBody (withIdentifierType resp0 key0)) w2) as (_ & _ & _ & _ & D)
        end; exact (D k Hk).
    - rewrite bind_eq. unfold IsQuotaEnabled. rewrite He. rewrite bind_eq. cbn [ret fst snd].
      pose proof (frames_ConsumeQuota (quotaManager m)
                    (Identifier (withIdentifierType resp0 key0)) 1 w2) as (_ & (S3 & _) & _).
      unfold next_ServeHTTP, emit. cbn [snd header logged]. rewrite S3. reflexivity. }
  rewrite !HH by discriminate. auto.
Qed.

End Accounting.


Lemma default_value_matches_witness :
  extractIdentifier Sample.noHeaders queryRule <> ""
  /\ unmatched queryPlugin Sample.noHeaders = false.
Proof.
  assert (Hk : managers queryPlugin !! "Query:api_key:public" = Some (newManager queryRule))
    by (vm_compute; reflexivity).
  assert (Ho : range_order queryPlugin (map fst (map_to_list (managers queryPlugin))))
    by apply Permutation_refl.
  destruct (default_value_matches queryPlugin "Query:api_key:public" (newManager queryRule)
              (map fst (map_to_list (managers queryPlugin))) Sample.noHeaders
              (Sample.world Sample.noon 1000) Hk
              ltac:(vm_compute; discriminate) ltac:(vm_compute; discriminate)
              ltac:(vm_compute; discriminate) ltac:(vm_compute; discriminate) Ho)
    as (H1 & H2 & _).
  split; [exact H1|exact H2].
Defined.

Lemma healthy_worldWith (entries : list (string * string)) (t0 step : Z) (n : nat) :
  healthy (worldWith entries t0 step) n.
Proof. intros i _. reflexivity. Qed.

Lemma same_day_twoUsed : same_window "Daily" twoUsed 10.
Proof.
  intros i Hi. do 10 (destruct i as [|i]; [vm_compute; reflexivity|]). lia.
Qed.

Lemma same_window_less (period : string) (w : World) (n m : nat) :
  (m <= n)%nat -> same_window period w n -> same_window period w m.
Proof. intros Hm H i Hi. apply H. lia. Qed.


Lemma healthy_world (t0 step : Z) (n : nat) : healthy (Sample.world t0 step) n.
Proof. intros i _. reflexivity. Qed.





Lemma SetQuotaUsage_roundtrip_witness :
  qi_Used (fst (fst (GetQuotaInfo threeADay "10.0.0.1"
                       (snd (SetQuotaUsage threeADay "10.0.0.1" 40 twoUsed))))) = 40
  /\ ttl_of (db (snd (SetQuotaUsage threeADay "10.0.0.1" 40 twoUsed)))
       (GetQuotaKey "10.0.0.1" (periodLabel "Daily" (clock twoUsed (ticks twoUsed)))) = None.
Proof.
  assert (He : QuotaSettings.Enabled threeADay = true) by reflexivity.
  assert (Hr : GoStr.in_int64 40 = true) by reflexivity.
  destruct (SetQuotaUsage_roundtrip threeADay "10.0.0.1" 40 1 twoUsed He
              (healthy_worldWith _ _ _ 4%nat)
              (same_window_less _ _ 10 5 ltac:(lia) same_day_twoUsed) Hr)
    as (_ & H2 & H3 & _).
  split; [exact H2|exact H3].
Defined.

Lemma limiter_footprint_witness :
  db (snd (Allow tenPerMinute "alice" twoUsed)) !! "quota:10.0.0.1:2024-03-15"
  = db twoUsed !! "quota:10.0.0.1:2024-03-15"
  /\ db (snd (Reset tenPerMinute "alice" twoUsed)) !! "quota:10.0.0.1:2024-03-15"
     = db twoUsed !! "quota:10.0.0.1:2024-03-15".
Proof.
  assert (H1 : "quota:10.0.0.1:2024-03-15" <> (GetRateLimitKey "alice" ++ ":tokens")%string)
    by (vm_compute; discriminate).
  assert (H2 : "quota:10.0.0.1:2024-03-15" <> (GetRateLimitKey "alice" ++ ":last_refill")%string)
    by (vm_compute; discriminate).
  destruct (limiter_footprint tenPerMinute "alice" 3 twoUsed "quota:10.0.0.1:2024-03-15" H1 H2)
    as (A & _ & R & _).
  split; [exact A|exact R].
Defined.

Lemma other_address_kept (key : string) (m : IdentifierManager) :
  managers ipQuotaPlugin !! key = Some m ->
  extractIdentifier Sample.noHeaders (config m) <> "10.0.0.2".
Proof.
  intros Hm. unfold ipQuotaPlugin in Hm. cbn [managers] in Hm.
  apply lookup_singleton_Some in Hm as [<- <-]. vm_compute. discriminate.
Qed.

Lemma ServeHTTP_footprint_witness :
  db (snd (ServeHTTP ["IP::"] ipQuotaPlugin Sample.noHeaders quotaSpent))
    !! "quota:10.0.0.2:2024-03-15"
  = db quotaSpent !! "quota:10.0.0.2:2024-03-15".
Proof.
  assert (Hk : identifier_key "10.0.0.2" "quota:10.0.0.2:2024-03-15")
    by (right; exists "Daily", Sample.noon; vm_compute; reflexivity).
  exact (proj2 (ServeHTTP_footprint ["IP::"] ipQuotaPlugin Sample.noHeaders quotaSpent)
           "10.0.0.2" "quota:10.0.0.2:2024-03-15" other_address_kept Hk).
Defined.

Lemma saveBucket_getBucket_witness :
  fst (getBucket tenPerMinute "ratelimit:alice"
         (snd (saveBucket "ratelimit:alice" threeLeft (Sample.world Sample.noon 1000))))
  = (mkBucket (Tokens threeLeft) (LastRefill threeLeft) (RateLimitConfig.Rate tenPerMinute)
       (RateLimitConfig.Burst tenPerMinute) GoTime.Minute, None).
Proof.
  assert (Hp : ParseRateLimitPeriod tenPerMinute = Some GoTime.Minute) by (vm_compute; reflexivity).
  assert (HF : ParseFloat (FormatFloat (Tokens threeLeft)) = Some (Tokens threeLeft))
    by (vm_compute; reflexivity).
  assert (HI : GoStr.in_int64 (LastRefill threeLeft) = true) by (vm_compute; reflexivity).
  assert (Hx : expiryAccepted (GoStr.wrap64 (RefillPeriod threeLeft * 2)) = true)
    by (vm_compute; reflexivity).
  destruct (saveBucket_getBucket tenPerMinute "ratelimit:alice" threeLeft GoTime.Minute
              (Sample.world Sample.noon 1000) Hp (healthy_world _ _ 4%nat) HF HI)
    as [H _].
  destruct (H Hx) as (_ & H2 & _). exact H2.
Defined.

Lemma Reset_refills_witness :
  fst (GetCurrentTokens tenPerMinute "alice" (snd (Reset tenPerMinute "alice" emptiedBucket)))
  = (F64.float64_of_int (RateLimitConfig.Burst tenPerMinute), None)
  /\ fst (Allow tenPerMinute "alice" (snd (Reset tenPerMinute "alice" emptiedBucket)))
     = (true, None).
Proof.
  assert (Hp : ParseRateLimitPeriod tenPerMinute = Some GoTime.Minute) by (vm_compute; reflexivity).
  assert (Hper : 0 < GoTime.Minute < 2 ^ 63) by (vm_compute; split; reflexivity).
  assert (Hrate : 0 < RateLimitConfig.Rate tenPerMinute < 2 ^ 63)
    by (vm_compute; split; reflexivity).
  assert (Hburst : 0 < RateLimitConfig.Burst tenPerMinute < 2 ^ 63)
    by (vm_compute; split; reflexivity).
  assert (HF : ParseFloat (FormatFloat (F64.float64_of_int (RateLimitConfig.Burst tenPerMinute)))
               = Some (F64.float64_of_int (RateLimitConfig.Burst tenPerMinute)))
    by (vm_compute; reflexivity).
  assert (HI : GoStr.in_int64 (clock emptiedBucket (ticks emptiedBucket)) = true)
    by (vm_compute; reflexivity).
  assert (Hc : clock emptiedBucket (ticks emptiedBucket)
               <= clock emptiedBucket (S (ticks emptiedBucket)))
    by (vm_compute; discriminate).
  assert (Hx : expiryAccepted (GoStr.wrap64 (GoTime.Minute * 2)) = true)
    by (vm_compute; reflexivity).
  destruct (Reset_refills tenPerMinute "alice" GoTime.Minute emptiedBucket Hp Hper Hrate Hburst
              (healthy_worldWith _ _ _ 6%nat) HF HI Hc) as [H _].
  destruct (H Hx) as (_ & H2 & H3).
  split; [exact H2|exact H3].
Defined.

Lemma saveBucket_expiry_witness :
  (ttl_of (db (snd (saveBucket "ratelimit:alice" threeLeft (Sample.world Sample.noon 1000))))
     "ratelimit:alice:tokens" = Some 120
   /\ ttl_of (db (snd (saveBucket "ratelimit:alice" threeLeft (Sample.world Sample.noon 1000))))
        "ratelimit:alice:last_refill" = Some 120)
  /\ fst (saveBucket "ratelimit:alice" blinkBucket (Sample.world Sample.noon 1000))
     = Some ("failed to save tokens: " ++ expiryRefused)%string.
Proof.
  split.
  - assert (Hp : RefillPeriod threeLeft = 60 * GoTime.Second) by reflexivity.
    assert (Hk : 0 < 60 <= 4000000000) by lia.
    destruct (saveBucket_expiry "ratelimit:alice" threeLeft 60 (Sample.world Sample.noon 1000)
                (healthy_world _ _ 2%nat)) as [H _].
    destruct (H Hp Hk) as (_ & _ & H1 & H2).
    split; [exact H1|exact H2].
  - assert (Hp : 0 < RefillPeriod blinkBucket) by reflexivity.
    assert (Hl : RefillPeriod blinkBucket * 2 < GoTime.Second) by reflexivity.
    destruct (saveBucket_expiry "ratelimit:alice" blinkBucket 0 (Sample.world Sample.noon 1000)
                (healthy_world _ _ 2%nat)) as (_ & H & _).
    destruct (H Hp Hl) as (H1 & _). exact H1.
Defined.

Lemma IP_identifier_witness :
  extractIdentifier realIPv6 ipRule = "2001:db8:"
  /\ extractIdentifier forwardedNBSP ipRule = "203.0.113.7".
Proof.
  assert (Ht : IdentifierConfig.Type_ ipRule = "IP") by reflexivity.
  split.
  - assert (Hp : GoStr.ContainsByte "1" ":" = false) by reflexivity.
    destruct (IP_identifier realIPv6 ipRule "2001:db8:" "1" Ht Hp) as [H _].
    apply H. vm_compute. reflexivity.
  - assert (Hp : GoStr.ContainsByte "203.0.113.7" ":" = false) by reflexivity.
    destruct (IP_identifier forwardedNBSP ipRule "" "203.0.113.7" Ht Hp) as [_ H].
    apply H. vm_compute. reflexivity.
Defined.

Lemma stillNoon_window (n : nat) :
  periodLabel (QuotaSettings.Period (quotaManager (newManager ipThreeRule))) (clock stillNoon n)
  = "2024-03-15".
Proof.
  change (clock stillNoon n) with (Sample.noon + 0 * Z.of_nat n).
  rewrite Z.mul_0_l. vm_compute. reflexivity.
Qed.



Lemma blocked_costs_nothing_witness :
  db (snd (ServeHTTP ["IP::"] ipQuotaPlugin Sample.noHeaders quotaSpent))
    !! "quota:10.0.0.1:2024-03-15"
  = db quotaSpent !! "quota:10.0.0.1:2024-03-15".
Proof.
  assert (Hp : passes (fst (findMatch ipQuotaPlugin Sample.noHeaders ["IP::"] quotaSpent)) = false)
    by (vm_compute; reflexivity).
  exact (blocked_costs_nothing ["IP::"] ipQuotaPlugin Sample.noHeaders quotaSpent
           "quota:10.0.0.1:2024-03-15" Hp (quota_key_not_bucket "10.0.0.1" "2024-03-15")).
Defined.

Lemma quota_headers_witness :
  header (snd (ServeHTTP ["IP::"] ipThreePlugin Sample.noHeaders stillNoon)) !! "X-Quota-Used"
  = Some "2"
  /\ header (snd (ServeHTTP ["IP::"] ipThreePlugin Sample.noHeaders stillNoon))
       !! "X-Quota-Remaining" = Some "1"
  /\ Allowed thirdRequest = true.
Proof.
  assert (Hf : fst (findMatch ipThreePlugin Sample.noHeaders ["IP::"] stillNoon)
               = Some (thirdRequest, newManager ipThreeRule)) by (vm_compute; reflexivity).
  assert (He : QuotaSettings.Enabled (quotaManager (newManager ipThreeRule)) = true)
    by reflexivity.
  assert (Hr : Reason thirdRequest <> "Rate limit exceeded") by (vm_compute; discriminate).
  assert (Hh : forall n, faults stillNoon n = Redis.Healthy) by (intros n; reflexivity).
  assert (Hl : 0 < QuotaSettings.Limit (quotaManager (newManager ipThreeRule))
               <= GoStr.maxInt64) by (vm_compute; split; [reflexivity|discriminate]).
  assert (Eu : stored_usage (db stillNoon) (GetQuotaKey (Identifier thirdRequest) "2024-03-15")
               = 2) by (vm_compute; reflexivity).
  assert (Hu : 0 <= stored_usage (db stillNoon)
                      (GetQuotaKey (Identifier thirdRequest) "2024-03-15"))
    by (rewrite Eu; discriminate).
  destruct (quota_headers ["IP::"] ipThreePlugin Sample.noHeaders stillNoon thirdRequest
              (newManager ipThreeRule) "2024-03-15" Hf He Hr Hh stillNoon_window Hl Hu)
    as (_ & H2 & H3 & H4 & _).
  rewrite Eu in H2, H3, H4.
  split; [exact H2|]. split; [exact H3|exact H4].
Defined.

Lemma weekly_reset_witness :
  exists k,
    1 <= k <= 7
    /\ (Weekday Sample.noon + k) mod 7 = 0
    /\ (k = 7 <-> Weekday Sample.noon = 0)
    /\ nextReset weeklyQuota Sample.noon
       = Date (Year Sample.noon) (Month Sample.noon) (Day Sample.noon + k).
Proof.
  apply (weekly_reset weeklyQuota Sample.noon); [reflexivity|].
  vm_compute. split; discriminate.
Defined.

Lemma AllowN_beyond_burst_witness :
  (fst (fst (AllowN tenPerMinute "alice" 6 overfull)) = false
   /\ db (snd (AllowN tenPerMinute "alice" 6 overfull)) = db overfull)
  /\ F64.float64_of_int (2 ^ 53 + 1) = F64.float64_of_int (2 ^ 53).
Proof.
  assert (Hb : 0 < RateLimitConfig.Burst tenPerMinute) by reflexivity.
  assert (Hn : RateLimitConfig.Burst tenPerMinute < 6 < 2 ^ 53) by (split; reflexivity).
  split; [exact (AllowN_beyond_burst tenPerMinute "alice" 6 overfull Hb Hn)|].
  vm_compute. reflexivity.
Defined.
